(** * john_widgets: the prefix-search trie (trie_core.py, generate_trie.py)

    A shallow embedding of the trie builder, its persistence, the freshness
    check and the prefix query of [john_widgets], with the properties of the
    specification stated and settled against it.  The flow layout of the same
    package (flow_layout.py) is embedded after the trie, and further
    properties of both follow those of the specification.

    Conventions of the embedding.
    - A Python [str] is a [string]; its characters are the code points
      U+0000..U+00FF (one [ascii] each).  Iterating over a [str] yields its
      one-character strings.
    - Python objects are values of [pyval].  A [dict] is an association list
      in insertion order (iteration order matters to [_dfs]); all keys of the
      dictionaries of this program are [str].
    - A call that may raise returns a [result]; in-place mutation of the
      nested dictionaries is written as the functional update of the parent.
    - The file system is a finite map from paths to files carrying a
      modification time (a whole number of ticks since the epoch, negative
      for a file dated before it) and a content.
    - The recursion limit of the interpreter and the exceptions of
      [json.load] are in the module [Interp]: the query takes the number of
      calls of [_dfs] that may nest, the load takes [json.load] for a
      parameter, as the builder takes the parser of pandas. *)

From stdpp Require Import base option list strings gmap.
From Stdlib Require Import ZArith NArith Ascii String Lia.
From Stdlib Require Import DecimalString.
From Stdlib Require DecimalPos DecimalZ DecimalFacts.

Open Scope string_scope.
Open Scope list_scope.

(** ** Exceptions and results *)

Inductive exn : Type :=
| TypeError
| AttributeError
| KeyError
| ValueError (msg : string)
| FileNotFoundError (filename : string)
| JSONDecodeError
| SystemExit (code : Z)
| RecursionError.

Inductive result (A : Type) : Type :=
| Ok (a : A)
| Raise (e : exn).
Arguments Ok {A} a.
Arguments Raise {A} e.

#[global] Instance result_ret : MRet result := fun _ a => Ok a.
#[global] Instance result_bind : MBind result := fun _ _ f m =>
  match m with
  | Ok a => f a
  | Raise e => Raise e
  end.

Definition raises {A : Type} (m : result A) : Prop :=
  match m with
  | Ok _ => False
  | Raise _ => True
  end.

(** ** Python values *)

(** The operands the program compares and looks up: a [str] (a character, the
    sentinel key, a document id read from a text column) or an [int] (a
    document id read from a numeric column). *)
Inductive atom : Type :=
| AStr (s : string)
| AInt (z : Z).

Unset Elimination Schemes.
Inductive pyval : Type :=
| PyNone
| PyBool (b : bool)
| PyInt (z : Z)
| PyStr (s : string)
| PyList (l : list pyval)
| PyTuple (l : list pyval)
| PySet (l : list pyval)
| PyDict (d : list (string * pyval)).
Set Elimination Schemes.

(** Induction over the nested occurrences of [pyval]. *)
Definition pyval_ind (P : pyval -> Prop)
    (fnone : P PyNone)
    (fbool : forall b, P (PyBool b))
    (fint : forall z, P (PyInt z))
    (fstr : forall s, P (PyStr s))
    (flist : forall l, Forall P l -> P (PyList l))
    (ftuple : forall l, Forall P l -> P (PyTuple l))
    (fset : forall l, Forall P l -> P (PySet l))
    (fdict : forall d, Forall (fun kv => P (snd kv)) d -> P (PyDict d)) :=
  fix F (v : pyval) : P v :=
    let all :=
      fix G (l : list pyval) : Forall P l :=
        match l with
        | [] => @List.Forall_nil _ P
        | x :: l' => @List.Forall_cons _ P x l' (F x) (G l')
        end in
    match v with
    | PyNone => fnone
    | PyBool b => fbool b
    | PyInt z => fint z
    | PyStr s => fstr s
    | PyList l => flist l (all l)
    | PyTuple l => ftuple l (all l)
    | PySet l => fset l (all l)
    | PyDict d =>
        fdict d
          ((fix H (d : list (string * pyval)) : Forall (fun kv => P (snd kv)) d :=
              match d with
              | [] => @List.Forall_nil _ _
              | kv :: d' => @List.Forall_cons _ (fun kv => P (snd kv)) kv d' (F (snd kv)) (H d')
              end) d)
    end.

Definition py_of_atom (a : atom) : pyval :=
  match a with
  | AStr s => PyStr s
  | AInt z => PyInt z
  end.

(** Python's [==] with a [str] or [int] on the left ([True == 1]). *)
Definition py_eq_atom (a : atom) (v : pyval) : bool :=
  match a, v with
  | AStr s, PyStr s' => String.eqb s s'
  | AInt z, PyInt z' => Z.eqb z z'
  | AInt z, PyBool b => Z.eqb z (if b then 1 else 0)%Z
  | _, _ => false
  end.

(** ** Dictionaries in insertion order *)

Fixpoint dict_get (d : list (string * pyval)) (k : string) : option pyval :=
  match d with
  | [] => None
  | (k', v) :: d' => if String.eqb k' k then Some v else dict_get d' k
  end.

Definition dict_has (d : list (string * pyval)) (k : string) : bool :=
  match dict_get d k with
  | Some _ => true
  | None => false
  end.

(** [d[k] = v]: an existing key keeps its position, a new key goes last. *)
Fixpoint dict_set (d : list (string * pyval)) (k : string) (v : pyval)
  : list (string * pyval) :=
  match d with
  | [] => [(k, v)]
  | (k', v') :: d' =>
      if String.eqb k' k then (k', v) :: d' else (k', v') :: dict_set d' k v
  end.

(** ** Strings *)

Definition code (c : ascii) : N := N_of_ascii c.

(** [str.lower] on one character: A-Z and the capital letters of
    U+00C0..U+00DE (all but the multiplication sign U+00D7) move up by 32. *)
Definition lower_char (c : ascii) : ascii :=
  let n := code c in
  if ((65 <=? n) && (n <=? 90) ||
      (192 <=? n) && (n <=? 222) && negb (n =? 215))%N
  then ascii_of_N (n + 32)
  else c.

Fixpoint lower (s : string) : string :=
  match s with
  | EmptyString => EmptyString
  | String c s' => String (lower_char c) (lower s')
  end.

(** The characters [str.strip] removes: TAB..CR, FS..US, space, NEL, NBSP. *)
Definition is_space (c : ascii) : bool :=
  let n := code c in
  ((9 <=? n) && (n <=? 13) || (28 <=? n) && (n <=? 32) ||
   (n =? 133) || (n =? 160))%N.

Fixpoint lstrip (s : string) : string :=
  match s with
  | EmptyString => EmptyString
  | String c s' => if is_space c then lstrip s' else s
  end.

Fixpoint rstrip (s : string) : string :=
  match s with
  | EmptyString => EmptyString
  | String c s' =>
      match rstrip s' with
      | EmptyString => if is_space c then EmptyString else String c EmptyString
      | r => String c r
      end
  end.

Definition strip (s : string) : string := rstrip (lstrip s).

(** The one-character strings a [for char in s] loop runs over. *)
Fixpoint chars (s : string) : list string :=
  match s with
  | EmptyString => []
  | String c s' => String c EmptyString :: chars s'
  end.

Fixpoint is_prefix (p s : string) : bool :=
  match p, s with
  | EmptyString, _ => true
  | String a p', String b s' => Ascii.eqb a b && is_prefix p' s'
  | String _ _, EmptyString => false
  end.

(** [sub in s] for strings. *)
Fixpoint is_substring (sub s : string) : bool :=
  is_prefix sub s ||
  match s with
  | EmptyString => false
  | String _ s' => is_substring sub s'
  end.

(** [s.split(sep)] for a nonempty [sep]: [skip] counts the characters of a
    separator occurrence still to pass over, [cur] is the field read so far. *)
Fixpoint split_from (sep s : string) (skip : nat) (cur : string) : list string :=
  match s with
  | EmptyString => [cur]
  | String c s' =>
      match skip with
      | S k => split_from sep s' k cur
      | O =>
          if is_prefix sep s
          then cur :: split_from sep s' (String.length sep - 1) EmptyString
          else split_from sep s' 0 (cur +:+ String c EmptyString)
      end
  end.

Definition py_split (s sep : string) : result (list string) :=
  match sep with
  | EmptyString => Raise (ValueError "empty separator")
  | _ => Ok (split_from sep s 0 EmptyString)
  end.

(** ** The operations of Python the program uses *)

(** [not v] is [negb (py_truthy v)]. *)
Definition py_truthy (v : pyval) : bool :=
  match v with
  | PyNone => false
  | PyBool b => b
  | PyInt z => negb (Z.eqb z 0)
  | PyStr s => negb (String.eqb s EmptyString)
  | PyList l | PyTuple l | PySet l => negb (Nat.eqb (List.length l) 0)
  | PyDict d => negb (Nat.eqb (List.length d) 0)
  end.

Definition py_len (v : pyval) : result nat :=
  match v with
  | PyStr s => Ok (String.length s)
  | PyList l | PyTuple l | PySet l => Ok (List.length l)
  | PyDict d => Ok (List.length d)
  | PyNone | PyBool _ | PyInt _ => Raise TypeError
  end.

Definition py_lower (v : pyval) : result string :=
  match v with
  | PyStr s => Ok (lower s)
  | _ => Raise AttributeError
  end.

(** [item in container]. *)
Definition py_contains (container : pyval) (item : atom) : result bool :=
  match container with
  | PyDict d =>
      match item with
      | AStr k => Ok (dict_has d k)
      | AInt _ => Ok false
      end
  | PyList l | PyTuple l | PySet l => Ok (existsb (py_eq_atom item) l)
  | PyStr s =>
      match item with
      | AStr sub => Ok (is_substring sub s)
      | AInt _ => Raise TypeError
      end
  | PyNone | PyBool _ | PyInt _ => Raise TypeError
  end.

(** [container[key]] for a [str] key. *)
Definition py_getitem (container : pyval) (key : string) : result pyval :=
  match container with
  | PyDict d =>
      match dict_get d key with
      | Some v => Ok v
      | None => Raise KeyError
      end
  | _ => Raise TypeError
  end.

(** [container[key] = v] for a [str] key. *)
Definition py_setitem (container : pyval) (key : string) (v : pyval) : result pyval :=
  match container with
  | PyDict d => Ok (PyDict (dict_set d key v))
  | _ => Raise TypeError
  end.

(** [container.append(v)]. *)
Definition py_append (container : pyval) (v : pyval) : result pyval :=
  match container with
  | PyList l => Ok (PyList (l ++ [v]))
  | _ => Raise AttributeError
  end.

(** [container.items()]. *)
Definition py_items (container : pyval) : result (list (string * pyval)) :=
  match container with
  | PyDict d => Ok d
  | _ => Raise AttributeError
  end.

Definition SENTINEL : string := "__ids__".

(** ** json: the encoder behind [json.dump(obj, f, separators=(',', ':'))] *)

Definition dquote : ascii := "034"%char.
Definition backslash : ascii := "092"%char.

Definition hex_digit (n : N) : ascii :=
  ascii_of_N (if (n <? 10)%N then 48 + n else 87 + n).

(** [ensure_ascii]: printable ASCII stays, the rest is escaped. *)
Definition escape_char (c : ascii) : string :=
  let n := code c in
  if (n =? 34)%N then String backslash (String dquote EmptyString)
  else if (n =? 92)%N then String backslash (String backslash EmptyString)
  else if (n =? 10)%N then String backslash "n"
  else if (n =? 13)%N then String backslash "r"
  else if (n =? 9)%N then String backslash "t"
  else if (n =? 8)%N then String backslash "b"
  else if (n =? 12)%N then String backslash "f"
  else if ((32 <=? n) && (n <=? 126))%N then String c EmptyString
  else String backslash "u00" +:+
       String (hex_digit (n / 16)) (String (hex_digit (n mod 16)) EmptyString).

Fixpoint escape (s : string) : string :=
  match s with
  | EmptyString => EmptyString
  | String c s' => escape_char c +:+ escape s'
  end.

Definition encode_str (s : string) : string :=
  String dquote (escape s +:+ String dquote EmptyString).

Definition int_text (z : Z) : string := NilZero.string_of_int (Z.to_int z).

(** What the encoder hands to [f.write], in order; [Fail] is the exception
    that ends the stream (a value the encoder has no rule for). *)
Inductive event : Type :=
| Chunk (text : string)
| Fail (e : exn).

Definition scalar_text (v : pyval) : option string :=
  match v with
  | PyStr s => Some (encode_str s)
  | PyNone => Some "null"
  | PyBool true => Some "true"
  | PyBool false => Some "false"
  | PyInt z => Some (int_text z)
  | _ => None
  end.

(** [_iterencode], [_iterencode_list] and [_iterencode_dict] of the encoder,
    chunk for chunk. *)
Fixpoint iterencode (v : pyval) : list event :=
  match v with
  | PyList l | PyTuple l =>
      match l with
      | [] => [Chunk "[]"]
      | _ =>
          (fix elems (l : list pyval) (buf : string) : list event :=
             match l with
             | [] => [Chunk "]"]
             | value :: l' =>
                 match scalar_text value with
                 | Some t => [Chunk (buf +:+ t)]
                 | None => Chunk buf :: iterencode value
                 end ++ elems l' ","
             end) l "["
      end
  | PyDict d =>
      match d with
      | [] => [Chunk "{}"]
      | _ =>
          Chunk "{" ::
          (fix members (d : list (string * pyval)) (first : bool) : list event :=
             match d with
             | [] => [Chunk "}"]
             | (key, value) :: d' =>
                 (if first then [] else [Chunk ","]) ++
                 [Chunk (encode_str key); Chunk ":"] ++
                 match scalar_text value with
                 | Some t => [Chunk t]
                 | None => iterencode value
                 end ++ members d' false
             end) d true
      end
  | PySet _ => [Fail TypeError]
  | _ =>
      match scalar_text v with
      | Some t => [Chunk t]
      | None => []
      end
  end.

(** The chunks written before the stream ends, and how it ends. *)
Fixpoint written (evs : list event) : list string * option exn :=
  match evs with
  | [] => ([], None)
  | Chunk t :: evs' => let '(ts, e) := written evs' in (t :: ts, e)
  | Fail e :: _ => ([], Some e)
  end.

Fixpoint concat_text (ts : list string) : string :=
  match ts with
  | [] => EmptyString
  | t :: ts' => t +:+ concat_text ts'
  end.

(** [json.dumps(obj, separators=(',', ':'))]. *)
Definition json_dumps (v : pyval) : result string :=
  match written (iterencode v) with
  | (ts, None) => Ok (concat_text ts)
  | (_, Some e) => Raise e
  end.

(** ** json: a decoder for the texts the encoder writes

    The decoder reads objects, arrays, strings, integers and the three
    constants; a [\u] escape stands for a code point below U+0100.  [None]
    is a text it does not read.  [json.load] reads more (floats, the other
    escapes) and less (it limits the digits of an integer and the depth of
    the nesting): where the program calls it on a file, [Interp._load_trie]
    below takes it for a parameter. *)

Definition is_json_ws (c : ascii) : bool :=
  let n := code c in ((n =? 32) || (n =? 9) || (n =? 10) || (n =? 13))%N.

Fixpoint skip_ws (s : string) : string :=
  match s with
  | String c s' => if is_json_ws c then skip_ws s' else s
  | EmptyString => EmptyString
  end.

Definition is_digit (c : ascii) : bool :=
  let n := code c in ((48 <=? n) && (n <=? 57))%N.

Definition hex_value (c : ascii) : option N :=
  let n := code c in
  if ((48 <=? n) && (n <=? 57))%N then Some (n - 48)%N
  else if ((97 <=? n) && (n <=? 102))%N then Some (n - 87)%N
  else if ((65 <=? n) && (n <=? 70))%N then Some (n - 55)%N
  else None.

(** The text of a string literal after its opening quote. *)
Fixpoint parse_string (s : string) : option (string * string) :=
  match s with
  | EmptyString => None
  | String c s' =>
      if Ascii.eqb c dquote then Some (EmptyString, s')
      else if Ascii.eqb c backslash then
        match s' with
        | String e s'' =>
            let plain (x : ascii) :=
              '(t, rest) ← parse_string s''; Some (String x t, rest) in
            if Ascii.eqb e dquote then plain dquote
            else if Ascii.eqb e backslash then plain backslash
            else if Ascii.eqb e "/" then plain "/"%char
            else if Ascii.eqb e "b" then plain "008"%char
            else if Ascii.eqb e "f" then plain "012"%char
            else if Ascii.eqb e "n" then plain "010"%char
            else if Ascii.eqb e "r" then plain "013"%char
            else if Ascii.eqb e "t" then plain "009"%char
            else if Ascii.eqb e "u" then
              match s'' with
              | String h1 (String h2 (String h3 (String h4 s3))) =>
                  a ← hex_value h1; b ← hex_value h2;
                  c ← hex_value h3; d ← hex_value h4;
                  if ((a =? 0) && (b =? 0))%N
                  then '(t, rest) ← parse_string s3;
                       Some (String (ascii_of_N (16 * c + d)) t, rest)
                  else None
              | _ => None
              end
            else None
        | EmptyString => None
        end
      else if (code c <? 32)%N then None
      else '(t, rest) ← parse_string s'; Some (String c t, rest)
  end.

Fixpoint take_digits (s : string) : string * string :=
  match s with
  | String c s' =>
      if is_digit c then let '(ds, rest) := take_digits s' in (String c ds, rest)
      else (EmptyString, s)
  | EmptyString => (EmptyString, EmptyString)
  end.

(** 0, or a digit string without a leading 0; not followed by a fraction or
    an exponent. *)
Definition parse_digits (s : string) : option (Z * string) :=
  let '(ds, rest) := take_digits s in
  match ds with
  | EmptyString => None
  | String "0" (String _ _) => None
  | _ =>
      match rest with
      | String "." _ | String "e" _ | String "E" _ => None
      | _ => i ← NilZero.int_of_string ds; Some (Z.of_int i, rest)
      end
  end.

(** An optional minus sign, then the digits. *)
Definition parse_int (s : string) : option (Z * string) :=
  match s with
  | String "-" s' => '(z, rest) ← parse_digits s'; Some ((- z)%Z, rest)
  | _ => parse_digits s
  end.

Fixpoint after_prefix (p s : string) : option string :=
  match p, s with
  | EmptyString, _ => Some s
  | String a p', String b s' => if Ascii.eqb a b then after_prefix p' s' else None
  | String _ _, EmptyString => None
  end.

Fixpoint parse_value (fuel : nat) (s : string) : option (pyval * string) :=
  match fuel with
  | O => None
  | S fuel =>
      match s with
      | String "{" s' =>
          match skip_ws s' with
          | String "}" rest => Some (PyDict [], rest)
          | s' => parse_members fuel s' []
          end
      | String "[" s' =>
          match skip_ws s' with
          | String "]" rest => Some (PyList [], rest)
          | s' => parse_elements fuel s' []
          end
      | String c s' =>
          if Ascii.eqb c dquote
          then '(t, rest) ← parse_string s'; Some (PyStr t, rest)
          else
            match after_prefix "null" s, after_prefix "true" s, after_prefix "false" s with
            | Some rest, _, _ => Some (PyNone, rest)
            | _, Some rest, _ => Some (PyBool true, rest)
            | _, _, Some rest => Some (PyBool false, rest)
            | _, _, _ => '(z, rest) ← parse_int s; Some (PyInt z, rest)
            end
      | EmptyString => None
      end
  end
with parse_elements (fuel : nat) (s : string) (acc : list pyval)
  : option (pyval * string) :=
  match fuel with
  | O => None
  | S fuel =>
      '(v, rest) ← parse_value fuel s;
      match skip_ws rest with
      | String "," rest' => parse_elements fuel (skip_ws rest') (acc ++ [v])
      | String "]" rest' => Some (PyList (acc ++ [v]), rest')
      | _ => None
      end
  end
with parse_members (fuel : nat) (s : string) (acc : list (string * pyval))
  : option (pyval * string) :=
  match fuel with
  | O => None
  | S fuel =>
      match s with
      | String c s' =>
          if Ascii.eqb c dquote then
            '(key, rest) ← parse_string s';
            match skip_ws rest with
            | String ":" rest' =>
                '(v, rest'') ← parse_value fuel (skip_ws rest');
                match skip_ws rest'' with
                | String "," rest3 => parse_members fuel (skip_ws rest3) (dict_set acc key v)
                | String "}" rest3 => Some (PyDict (dict_set acc key v), rest3)
                | _ => None
                end
            | _ => None
            end
          else None
      | EmptyString => None
      end
  end.

(** [json.loads(s)]: one value, white space around it, nothing after it. *)
Definition json_loads (s : string) : option pyval :=
  '(v, rest) ← parse_value (S (String.length s)) (skip_ws s);
  match skip_ws rest with
  | EmptyString => Some v
  | _ => None
  end.

(** ** The file system, the clock and the standard output *)

Record file : Type := File { mtime : Z; content : string }.

Record world : Type := World {
  files : gmap string file;
  clock : Z;
  stdout : list string
}.

Definition print (w : world) (line : string) : world :=
  {| files := files w; clock := clock w; stdout := stdout w ++ [line] |}.

(** [os.path.getmtime] under [except OSError: return 0]. *)
Definition get_mtime (w : world) (filepath : string) : Z :=
  match files w !! filepath with
  | Some f => mtime f
  | None => 0%Z
  end.

(** What reaches the file between [open(path, 'w')] and the end of the
    [with] block: the file is created or emptied, then the chunks follow. *)
Inductive fs_op : Type :=
| OpOpenW (path : string)
| OpWrite (path : string) (chunk : string).

Definition apply_op (w : world) (op : fs_op) : world :=
  match op with
  | OpOpenW path =>
      {| files := <[path := File (clock w) EmptyString]> (files w);
         clock := clock w; stdout := stdout w |}
  | OpWrite path chunk =>
      match files w !! path with
      | Some f =>
          {| files := <[path := File (clock w) (content f +:+ chunk)]> (files w);
             clock := clock w; stdout := stdout w |}
      | None => w
      end
  end.

Definition run_ops (w : world) (ops : list fs_op) : world :=
  fold_left apply_op ops w.

(** [with open(path, 'w', encoding='utf-8') as f: json.dump(obj, f, ...)]. *)
Definition dump_ops (path : string) (obj : pyval) : list fs_op :=
  OpOpenW path :: map (OpWrite path) (fst (written (iterencode obj))).

Definition json_dump (w : world) (path : string) (obj : pyval) : result world :=
  match snd (written (iterencode obj)) with
  | None => Ok (run_ops w (dump_ops path obj))
  | Some e => Raise e
  end.

(** The text of the file at [path], if there is one. *)
Definition artifact (w : world) (path : string) : option string :=
  content <$> files w !! path.

(** The world when the dump is cut short after its first [k] operations. *)
Definition interrupted (w : world) (path : string) (obj : pyval) (k : nat) : world :=
  run_ops w (take k (dump_ops path obj)).

(** A row of the data frame: the id and the cell, [None] where [pd.isna]. *)
Definition row : Type := atom * option string.

(** [pd.read_csv(path, usecols=[id_col, data_col])] zipped over the two
    columns.  The parser of pandas is a parameter: from the text of the file
    and the two column names it gives the rows or raises ([ValueError] where a
    column is absent). *)
Definition csv_parser : Type := string -> string -> string -> result (list row).

Definition read_csv (parse_csv : csv_parser) (w : world) (path id_col data_col : string)
  : result (list row) :=
  match files w !! path with
  | Some f => parse_csv (content f) id_col data_col
  | None => Raise (FileNotFoundError path)
  end.

Definition no_such_file (filename : string) : string :=
  "[Errno 2] No such file or directory: '" +:+ filename +:+ "'".

(** ** trie_core.py: the builder *)

Module TrieManager.

Record manager : Type := Manager {
  source_csv : string;
  output_json : string;
  id_col : string;
  data_col : string;
  separator : string;
  trie_root : pyval
}.

Definition set_trie_root (self : manager) (v : pyval) : manager :=
  {| source_csv := source_csv self; output_json := output_json self;
     id_col := id_col self; data_col := data_col self;
     separator := separator self; trie_root := v |}.

(** Lines 39-44: the id list of the node the word ends at. *)
Definition add_ids (node : pyval) (doc_id : atom) : result pyval :=
  has ← py_contains node (AStr SENTINEL);
  node ← (if negb has then py_setitem node SENTINEL (PyList []) else Ok node);
  ids ← py_getitem node SENTINEL;
  dup ← py_contains ids doc_id;
  if negb dup
  then ids' ← py_append ids (py_of_atom doc_id); py_setitem node SENTINEL ids'
  else Ok node.

(** Lines 34-37, then 39-44 at the node reached.  [node = node[char]] makes
    [node] an alias of the child, so what is done to it shows in the parent. *)
Fixpoint add_chars (node : pyval) (cs : list string) (doc_id : atom) : result pyval :=
  match cs with
  | [] => add_ids node doc_id
  | char :: cs' =>
      found ← py_contains node (AStr char);
      node ← (if negb found then py_setitem node char (PyDict []) else Ok node);
      child ← py_getitem node char;
      child' ← add_chars child cs' doc_id;
      py_setitem node char child'
  end.

Definition _add_to_trie (trie : pyval) (word : string) (doc_id : atom) : result pyval :=
  let clean_word := strip (lower word) in
  if String.eqb clean_word EmptyString then Ok trie
  else add_chars trie (chars clean_word) doc_id.

(** Lines 72-73. *)
Fixpoint add_items (trie : pyval) (items : list string) (doc_id : atom) : result pyval :=
  match items with
  | [] => Ok trie
  | item :: items' =>
      trie ← _add_to_trie trie item doc_id;
      add_items trie items' doc_id
  end.

(** Lines 65-73. *)
Fixpoint add_rows (sep : string) (trie : pyval) (rows : list row) : result pyval :=
  match rows with
  | [] => Ok trie
  | (doc_id, None) :: rows' => add_rows sep trie rows'
  | (doc_id, Some data_str) :: rows' =>
      items ← py_split data_str sep;
      trie ← add_items trie items doc_id;
      add_rows sep trie rows'
  end.

(** Lines 64-73: [temp_root] after the loop. *)
Definition build (sep : string) (rows : list row) : result pyval :=
  add_rows sep (PyDict []) rows.

(** Lines 114-120, with no limit on the depth of the recursion ([Interp._dfs]
    below has the limit).  [results] is the list the caller passed, appended
    to. *)
Fixpoint _dfs (node : pyval) (current_word : string) (results : list pyval)
  : result (list pyval) :=
  has ← py_contains node (AStr SENTINEL);
  let results := if (has : bool) then results ++ [PyStr current_word] else results in
  match node with
  | PyDict d =>
      (fix loop (d : list (string * pyval)) (results : list pyval)
         : result (list pyval) :=
         match d with
         | [] => Ok results
         | (char, child_node) :: d' =>
             if negb (String.eqb char SENTINEL)
             then results ← _dfs child_node (current_word +:+ char) results;
                  loop d' results
             else loop d' results
         end) d results
  | _ => Raise AttributeError
  end.

(** Lines 103-107: [None] is the early [return []]. *)
Fixpoint walk (node : pyval) (cs : list string) : result (option pyval) :=
  match cs with
  | [] => Ok (Some node)
  | char :: cs' =>
      found ← py_contains node (AStr char);
      if (found : bool) then child ← py_getitem node char; walk child cs'
      else Ok None
  end.

(** Lines 91-112. *)
Definition search (self : manager) (prefix : pyval) : result pyval :=
  if negb (py_truthy prefix) then Ok (PyList [])
  else
    n ← py_len prefix;
    if (n <? 1)%nat then Ok (PyList [])
    else
      prefix ← py_lower prefix;
      found ← walk (trie_root self) (chars prefix);
      match found with
      | None => Ok (PyList [])
      | Some node => results ← _dfs node prefix []; Ok (PyList results)
      end.



(** Lines 21-25. *)
Definition _get_file_mtime (w : world) (filepath : string) : Z := get_mtime w filepath.

(** Line 50: [output_mtime > input_mtime and output_mtime > 0]. *)
Definition up_to_date (input_mtime output_mtime : Z) : bool :=
  (input_mtime <? output_mtime)%Z && (0 <? output_mtime)%Z.

(** Lines 51-52: what the call comes to when the check lets it skip. *)
Definition skipped (self : manager) (w : world) : result (manager * world) :=
  Ok (self, print w ("[" +:+ output_json self +:+ "] is up to date. Skipping generation.")).

Section WithPandas.

Variable parse_csv : csv_parser.

(** Lines 46-81.  The paths are taken as given ([os.path.abspath] is the
    identity on them) and directories are not part of the file system
    ([os.makedirs] changes nothing). *)
Definition _generate_trie_if_needed (self : manager) (w : world)
  : result (manager * world) :=
  let input_mtime := _get_file_mtime w (source_csv self) in
  let output_mtime := _get_file_mtime w (output_json self) in
  if up_to_date input_mtime output_mtime then skipped self w
  else
    let w := print w ("Source changed or output missing. Generating Trie from "
                      +:+ source_csv self +:+ "...") in
    match read_csv parse_csv w (source_csv self) (id_col self) (data_col self) with
    | Raise (FileNotFoundError f) =>
        Ok (set_trie_root self (PyDict []),
            print w ("Error reading CSV: " +:+ no_such_file f))
    | Raise (ValueError msg) =>
        Ok (set_trie_root self (PyDict []), print w ("Error reading CSV: " +:+ msg))
    | Raise e => Raise e
    | Ok df =>
        temp_root ← build (separator self) df;
        w ← json_dump w (output_json self) temp_root;
        Ok (self, print w "Trie generation complete.")
    end.

(** Lines 83-89 under a [json.load] that returns a value or raises
    [JSONDecodeError] ([Interp._load_trie] below takes any [json.load]).
    Both exceptions of the [except] clause end in the same branch: a missing
    file and a text [json.load] rejects. *)
Definition _load_trie (self : manager) (w : world) : result (manager * world) :=
  match files w !! output_json self with
  | Some f =>
      match json_loads (content f) with
      | Some v => Ok (set_trie_root self v, w)
      | None =>
          Ok (set_trie_root self (PyDict []), print w "Error: Could not load JSON trie.")
      end
  | None =>
      Ok (set_trie_root self (PyDict []), print w "Error: Could not load JSON trie.")
  end.

End WithPandas.

End TrieManager.

(** ** generate_trie.py *)

Module GenerateTrie.

Definition INPUT_FILE : string := "data/processed/search_db.csv".
Definition OUTPUT_FILE : string := "data/processed/ingredients_trie.json".
Definition ID_COL : string := "id".
Definition INGREDIENTS_COL : string := "ingredients_serialized".
Definition SEPARATOR : string := ";".

Definition get_file_mtime (w : world) (filepath : string) : Z := get_mtime w filepath.

(** Line 42: [output_mtime > input_mtime]. *)
Definition up_to_date (input_mtime output_mtime : Z) : bool :=
  (input_mtime <? output_mtime)%Z.

(** [s.add(x)] on a set: the elements are kept in the order they came in,
    each once; the order a set is iterated in is [set_order] below. *)
Definition py_set_add (container : pyval) (item : atom) : result pyval :=
  match container with
  | PySet l =>
      if existsb (py_eq_atom item) l then Ok (PySet l)
      else Ok (PySet (l ++ [py_of_atom item]))
  | _ => Raise AttributeError
  end.

(** Lines 28-30. *)
Definition add_ids (node : pyval) (doc_id : atom) : result pyval :=
  has ← py_contains node (AStr SENTINEL);
  node ← (if negb has then py_setitem node SENTINEL (PySet []) else Ok node);
  ids ← py_getitem node SENTINEL;
  ids' ← py_set_add ids doc_id;
  py_setitem node SENTINEL ids'.

(** Lines 24-27, then 28-30 at the node reached. *)
Fixpoint add_chars (node : pyval) (cs : list string) (doc_id : atom) : result pyval :=
  match cs with
  | [] => add_ids node doc_id
  | char :: cs' =>
      found ← py_contains node (AStr char);
      node ← (if negb found then py_setitem node char (PyDict []) else Ok node);
      child ← py_getitem node char;
      child' ← add_chars child cs' doc_id;
      py_setitem node char child'
  end.

Definition add_to_trie (trie : pyval) (word : string) (doc_id : atom) : result pyval :=
  add_chars trie (chars (strip (lower word))) doc_id.

(** Lines 58-60. *)
Fixpoint add_ingredients (trie : pyval) (ingredients : list string) (doc_id : atom)
  : result pyval :=
  match ingredients with
  | [] => Ok trie
  | ingredient :: ingredients' =>
      if negb (String.eqb (strip ingredient) EmptyString)
      then trie ← add_to_trie trie ingredient doc_id;
           add_ingredients trie ingredients' doc_id
      else add_ingredients trie ingredients' doc_id
  end.

(** Lines 52-60. *)
Fixpoint add_rows (trie : pyval) (rows : list row) : result pyval :=
  match rows with
  | [] => Ok trie
  | (doc_id, None) :: rows' => add_rows trie rows'
  | (doc_id, Some ingredients_str) :: rows' =>
      ingredients ← py_split ingredients_str SEPARATOR;
      trie ← add_ingredients trie ingredients doc_id;
      add_rows trie rows'
  end.

Definition build (rows : list row) : result pyval := add_rows (PyDict []) rows.

(** Lines 43-44: what the call comes to when the check lets it skip. *)
Definition skipped (w : world) : result world :=
  Ok (print w ("[" +:+ OUTPUT_FILE +:+ "] is up to date. Skipping generation.")).

Section WithPython.

(** The order in which Python iterates over a set whose elements came in as
    [l]: some arrangement of the same elements, fixed by the interpreter's
    hash table and not by the language. *)
Variable set_order : list pyval -> list pyval.

Variable parse_csv : csv_parser.

(** Lines 32-36. *)
Definition set_default (obj : pyval) : result pyval :=
  match obj with
  | PySet l => Ok (PyList (set_order l))
  | _ => Raise TypeError
  end.

(** The tree the encoder writes under [default=set_default]: the encoder asks
    [default] about the values it has no rule for, the sets, and encodes the
    answer (the elements of a set are hashable: no set is among them). *)
Fixpoint with_default (obj : pyval) : pyval :=
  match obj with
  | PySet l =>
      match set_default obj with
      | Ok answer => answer
      | Raise _ => obj
      end
  | PyList l => PyList (map with_default l)
  | PyTuple l => PyTuple (map with_default l)
  | PyDict d => PyDict (map (fun kv => (fst kv, with_default (snd kv))) d)
  | _ => obj
  end.

(** Lines 38-65. *)
Definition generate_ingredients_trie (w : world) : result world :=
  let input_mtime := get_file_mtime w INPUT_FILE in
  let output_mtime := get_file_mtime w OUTPUT_FILE in
  if up_to_date input_mtime output_mtime then skipped w
  else
    let w := print w "Source data changed or output missing. Generating Trie..." in
    match read_csv parse_csv w INPUT_FILE ID_COL INGREDIENTS_COL with
    | Raise (FileNotFoundError _) =>
        let w := print w ("Error: " +:+ INPUT_FILE +:+ " not found.") in
        Raise (SystemExit 1)
    | Raise e => Raise e
    | Ok df =>
        trie_root ← build df;
        let w := print w ("Saving to " +:+ OUTPUT_FILE +:+ "...") in
        w ← json_dump w OUTPUT_FILE (with_default trie_root);
        Ok (print w "Done.")
    end.

End WithPython.

End GenerateTrie.

(** ** The scenario of the specification *)

Definition scenario_rows : list row :=
  [(AInt 1, Some "Tomato;Onion"); (AInt 2, Some "tomato;Garlic"); (AInt 3, Some "Onion")].

Definition scenario_trie : pyval :=
  match TrieManager.build ";" scenario_rows with
  | Ok t => t
  | Raise _ => PyNone
  end.

Definition scenario_manager : TrieManager.manager :=
  TrieManager.Manager "/data/search_db.csv" "/data/trie.json" "id" "ingredients" ";"
    scenario_trie.

(** An artifact of an earlier run, and worlds that hold it. *)
Definition old_trie : pyval := PyDict [("a", PyDict [(SENTINEL, PyList [PyInt 7])])].

Definition old_text : string := concat_text (fst (written (iterencode old_trie))).

Definition world_with (path text : string) : world :=
  World {[ path := File 5 text ]} 10 [].

(** The first three chunks of the dump of the scenario: a truncated artifact. *)
Definition truncated_text : string :=
  concat_text (take 3 (fst (written (iterencode scenario_trie)))).

(** The text of an object with a two-character key over a number. *)
Definition two_char_key_text : string :=
  concat_text (fst (written (iterencode (PyDict [("ab", PyInt 3)])))).


(** A world with the source of the scenario and no artifact yet. *)
Definition fresh_world : world :=
  World {[ "/data/search_db.csv" := File 7 "id,ingredients" ]} 10 [].

(** An order of iteration over a set: its numbers in ascending order.  This
    is the order in which CPython walks a set of small non-negative numbers,
    which hash to themselves. *)
Definition int_le (a b : pyval) : bool :=
  match a, b with
  | PyInt x, PyInt y => (x <=? y)%Z
  | _, _ => true
  end.

Fixpoint insert_sorted (x : pyval) (l : list pyval) : list pyval :=
  match l with
  | [] => [x]
  | y :: l' => if int_le x y then x :: l else y :: insert_sorted x l'
  end.

Fixpoint ascending (l : list pyval) : list pyval :=
  match l with
  | [] => []
  | x :: l' => insert_sorted x (ascending l')
  end.

(** Two rows with the same ingredient, the larger id first. *)
Definition two_rows : list row := [(AInt 3, Some "a"); (AInt 1, Some "a")].

Definition two_rows_world : world :=
  World {[ GenerateTrie.INPUT_FILE := File 7 "id,ingredients_serialized" ]} 10 [].



(** A world without files. *)
Definition empty_world : world := World ∅ 10 [].


(** A pandas that reads the rows of the scenario from any file. *)
Definition scenario_csv : csv_parser := fun _ _ _ => Ok scenario_rows.


(** * Vocabulary of the properties *)

(** ** The shape of a trie *)

Definition is_char (k : string) : bool := Nat.eqb (String.length k) 1.

Definition is_atom (v : pyval) : bool :=
  match v with
  | PyInt _ | PyStr _ => true
  | _ => false
  end.

(** The two ways the builders keep the ids of a node. *)
Inductive id_store : Type :=
| AsList
| AsSet.

Definition store (s : id_store) (l : list pyval) : pyval :=
  match s with
  | AsList => PyList l
  | AsSet => PySet l
  end.

Definition is_ids (s : id_store) (v : pyval) : bool :=
  match s, v with
  | AsList, PyList l | AsSet, PySet l => forallb is_atom l
  | _, _ => false
  end.

Fixpoint distinct (l : list string) : bool :=
  match l with
  | [] => true
  | x :: l' => negb (existsb (String.eqb x) l') && distinct l'
  end.

(** Every key of every dictionary is the sentinel or one character long. *)
Fixpoint keys_ok (v : pyval) : bool :=
  match v with
  | PyDict d =>
      forallb (fun kv => (String.eqb (fst kv) SENTINEL || is_char (fst kv))
                         && keys_ok (snd kv)) d
  | PyList l | PyTuple l | PySet l => forallb keys_ok l
  | _ => true
  end.

(** The shape of a trie node: a dictionary without repeated keys, a
    collection of ids under the sentinel, a node under every other key, which
    is one character long. *)
Fixpoint wf_node (s : id_store) (v : pyval) : bool :=
  match v with
  | PyDict d =>
      distinct (map fst d) &&
      forallb (fun kv => if String.eqb (fst kv) SENTINEL then is_ids s (snd kv)
                         else is_char (fst kv) && wf_node s (snd kv)) d
  | _ => false
  end.

(** A trie as [TrieManager] keeps it. *)
Definition wf_trie (v : pyval) : bool := wf_node AsList v.

(** ** Nodes and their ids *)

(** The node the word [p] leads to from [t], one edge per character. *)
Definition node_at (t : pyval) (p : string) : option pyval :=
  match TrieManager.walk t (chars p) with
  | Ok (Some n) => Some n
  | _ => None
  end.

(** [SENTINEL in node]. *)
Definition carries_ids (node : pyval) : bool :=
  match py_contains node (AStr SENTINEL) with
  | Ok b => b
  | Raise _ => false
  end.

(** The id collection of the node [p] leads to. *)
Definition ids_at (t : pyval) (p : string) : option pyval :=
  match node_at t p with
  | Some (PyDict d) => dict_get d SENTINEL
  | _ => None
  end.

Definition ids_or_empty (o : option pyval) : list pyval :=
  match o with
  | Some (PyList l) | Some (PySet l) => l
  | _ => []
  end.

Definition child_or_empty (o : option pyval) : pyval :=
  match o with
  | Some v => v
  | None => PyDict []
  end.

(** What lines 43-44 of trie_core.py, and line 30 of generate_trie.py, leave
    in the id collection. *)
Definition add_id (l : list pyval) (doc_id : atom) : list pyval :=
  if existsb (py_eq_atom doc_id) l then l else l ++ [py_of_atom doc_id].

(** ** Insertions and tokens *)

(** Build-time normalisation. *)
Definition clean (word : string) : string := strip (lower word).

Definition nonempty (s : string) : bool := negb (String.eqb s EmptyString).

(** The insertions a data frame gives rise to: every item of every cell that
    is present, with the id of its row. *)
Definition insertions (sep : string) (rows : list row) : list (string * atom) :=
  flat_map (fun r : row =>
              match snd r with
              | Some data_str =>
                  map (fun item => (item, fst r)) (split_from sep data_str 0 EmptyString)
              | None => []
              end) rows.

(** One insertion after the other, [add_word] being the insertion of a word. *)
Fixpoint add_all (add_word : pyval -> string -> atom -> result pyval)
    (trie : pyval) (log : list (string * atom)) : result pyval :=
  match log with
  | [] => Ok trie
  | (word, doc_id) :: log' =>
      trie ← add_word trie word doc_id;
      add_all add_word trie log'
  end.

(** Lines 58-60 of generate_trie.py for one ingredient. *)
Definition add_ingredient (trie : pyval) (ingredient : string) (doc_id : atom)
  : result pyval :=
  if negb (String.eqb (strip ingredient) EmptyString)
  then GenerateTrie.add_to_trie trie ingredient doc_id
  else Ok trie.

(** The tokens of a sequence of insertions: the nonempty normalised words. *)
Definition tokens (log : list (string * atom)) : list string :=
  List.filter nonempty (map (fun e => clean (fst e)) log).

(** The ids inserted under the token [p], in the order of the insertions. *)
Definition ids_of (p : string) (log : list (string * atom)) : list atom :=
  map snd (List.filter
             (fun e => nonempty (clean (fst e)) && String.eqb (clean (fst e)) p) log).

Definition atom_eqb (a b : atom) : bool :=
  match a, b with
  | AStr s, AStr s' => String.eqb s s'
  | AInt z, AInt z' => Z.eqb z z'
  | _, _ => false
  end.

(** A sequence without its repetitions, each element where it first stood. *)
Fixpoint first_seen (l : list atom) : list atom :=
  match l with
  | [] => []
  | x :: l' => x :: List.filter (fun y => negb (atom_eqb x y)) (first_seen l')
  end.

(** The id collection the insertions [log] leave at the token [p]. *)
Definition ids_after (s : id_store) (p : string) (log : list (string * atom))
  : option pyval :=
  match ids_of p log with
  | [] => None
  | l => Some (store s (map py_of_atom (first_seen l)))
  end.

(** ** Searches *)

(** The words [_dfs] collects below [node], in its order. *)
Fixpoint words (node : pyval) (current_word : string) : list string :=
  match node with
  | PyDict d =>
      (if dict_has d SENTINEL then [current_word] else []) ++
      flat_map (fun kv => if negb (String.eqb (fst kv) SENTINEL)
                          then words (snd kv) (current_word +:+ fst kv) else []) d
  | _ => []
  end.

(** The words a search for the string [p] finds in the trie [t]. *)
Definition matches (t : pyval) (p : string) : list string :=
  if String.eqb p EmptyString then []
  else match node_at t (lower p) with
       | Some n => words n (lower p)
       | None => []
       end.


(** ** Artifacts *)

(** The loops of the encoder over the items of a list and over the members of
    a dictionary, [enc] being the encoder of a value. *)
Section Encoder.

Variable enc : pyval -> list event.

Fixpoint elems_events (l : list pyval) (buf : string) : list event :=
  match l with
  | [] => [Chunk "]"]
  | value :: l' =>
      match scalar_text value with
      | Some t => [Chunk (buf +:+ t)]
      | None => Chunk buf :: enc value
      end ++ elems_events l' ","
  end.

Fixpoint members_events (d : list (string * pyval)) (first : bool) : list event :=
  match d with
  | [] => [Chunk "}"]
  | (key, value) :: d' =>
      (if first then [] else [Chunk ","]) ++
      [Chunk (encode_str key); Chunk ":"] ++
      match scalar_text value with
      | Some t => [Chunk t]
      | None => enc value
      end ++ members_events d' false
  end.

End Encoder.

(** The text a stream of events leaves in the file. *)
Definition text_of (evs : list event) : string := concat_text (fst (written evs)).

(** What follows an item in the text of a list: a comma or the bracket. *)
Definition closes_item (rest : string) : bool :=
  match rest with
  | String c _ => Ascii.eqb c "," || Ascii.eqb c "]"
  | EmptyString => false
  end.

(** The characters the text of an id starts with. *)
Definition atom_head (c : ascii) : bool :=
  is_digit c || Ascii.eqb c "-" || Ascii.eqb c dquote.

(** A bound on the depth of the calls the decoder makes for a value, and for
    the members of a dictionary. *)
Fixpoint size (v : pyval) : nat :=
  match v with
  | PyDict d => S (list_sum (map (fun kv => S (size (snd kv))) d))
  | PyList l | PyTuple l | PySet l => S (S (List.length l))
  | _ => 1
  end.

Definition members_size (d : list (string * pyval)) : nat :=
  list_sum (map (fun kv => S (size (snd kv))) d).

(** A value of a dictionary that the encoder writes, without failing, as a
    text that the decoder reads back. *)
Definition readable (v : pyval) : Prop :=
  scalar_text v = None /\
  snd (written (iterencode v)) = None /\
  (exists c u, text_of (iterencode v) = String c u /\ is_json_ws c = false) /\
  size v <= String.length (text_of (iterencode v)) /\
  forall rest fuel, size v <= fuel ->
    parse_value fuel (text_of (iterencode v) +:+ rest) = Some (v, rest).


(** ** Further vocabulary for the trie *)

(** A trie of generate_trie.py with every set read as the list of its
    elements in the order they came in. *)
Definition as_lists : pyval -> pyval := GenerateTrie.with_default (fun l => l).

(** The nonempty normalised items of a sequence of insertions, each with
    its id. *)
Definition entries (log : list (string * atom)) : list (string * atom) :=
  List.filter (fun e => nonempty (fst e)) (map (fun e => (clean (fst e), snd e)) log).

(** Some row has a cell. *)
Definition has_data (rows : list row) : bool :=
  existsb (fun r : row => match snd r with Some _ => true | None => false end) rows.


(** ** trie_core.py under the limits of the interpreter

    [TrieManager._dfs] above recurses as deep as the trie goes, and
    [TrieManager._load_trie] reads the artifact with a decoder that gives a
    value or [JSONDecodeError].  The interpreter does less: a call of [_dfs]
    that would nest deeper than the recursion limit raises [RecursionError],
    and [json.load] raises other exceptions than the two [_load_trie] catches
    ([UnicodeDecodeError] and the [ValueError] of an integer with too many
    digits, [RecursionError]).  The definitions of this module carry both.

    [room] is the number of calls of [_dfs] the interpreter lets nest where
    [search] calls it: the recursion limit less the frames already on the
    stack.  [json_load] is what [json.load(f)] does on the text of the file:
    the value it returns, or the exception it raises. *)

Module Interp.

(** Lines 114-120, one frame for each call. *)
Fixpoint _dfs (room : nat) (node : pyval) (current_word : string) (results : list pyval)
  : result (list pyval) :=
  match room with
  | O => Raise RecursionError
  | S room =>
      has ← py_contains node (AStr SENTINEL);
      let results := if (has : bool) then results ++ [PyStr current_word] else results in
      match node with
      | PyDict d =>
          (fix loop (d : list (string * pyval)) (results : list pyval)
             : result (list pyval) :=
             match d with
             | [] => Ok results
             | (char, child_node) :: d' =>
                 if negb (String.eqb char SENTINEL)
                 then results ← _dfs room child_node (current_word +:+ char) results;
                      loop d' results
                 else loop d' results
             end) d results
      | _ => Raise AttributeError
      end
  end.

(** Lines 91-112. *)
Definition search (room : nat) (self : TrieManager.manager) (prefix : pyval)
  : result pyval :=
  if negb (py_truthy prefix) then Ok (PyList [])
  else
    n ← py_len prefix;
    if (n <? 1)%nat then Ok (PyList [])
    else
      prefix ← py_lower prefix;
      found ← TrieManager.walk (TrieManager.trie_root self) (chars prefix);
      match found with
      | None => Ok (PyList [])
      | Some node => results ← _dfs room node prefix []; Ok (PyList results)
      end.

Section WithLibraries.

Variable parse_csv : csv_parser.
Variable json_load : string -> result pyval.

(** Lines 83-89.  [open] raises [FileNotFoundError] where there is no file;
    the [except] clause catches it and [JSONDecodeError], and nothing
    else. *)
Definition _load_trie (self : TrieManager.manager) (w : world)
  : result (TrieManager.manager * world) :=
  let loaded :=
    match files w !! TrieManager.output_json self with
    | Some f => json_load (content f)
    | None => Raise (FileNotFoundError (TrieManager.output_json self))
    end in
  match loaded with
  | Ok v => Ok (TrieManager.set_trie_root self v, w)
  | Raise (FileNotFoundError _) | Raise JSONDecodeError =>
      Ok (TrieManager.set_trie_root self (PyDict []),
          print w "Error: Could not load JSON trie.")
  | Raise e => Raise e
  end.

(** Lines 7-19. *)
Definition __init__ (w : world) (source_csv output_json id_col data_col separator : string)
  : result (TrieManager.manager * world) :=
  let self := TrieManager.Manager source_csv output_json id_col data_col separator
                (PyDict []) in
  '(self, w) ← TrieManager._generate_trie_if_needed parse_csv self w;
  _load_trie self w.

End WithLibraries.

End Interp.

(** ** Vocabulary of the limits *)

(** The number of nested calls of [_dfs] a node asks for: one for the node,
    and as many as its deepest child under a key other than the sentinel. *)
Fixpoint depth (v : pyval) : nat :=
  match v with
  | PyDict d =>
      S (list_max (map (fun kv => if String.eqb (fst kv) SENTINEL then 0
                                  else depth (snd kv)) d))
  | _ => 1
  end.

(** The search for the string [p] in the trie [t] reaches a node that asks
    for more calls than there is room for. *)
Definition too_deep (room : nat) (t : pyval) (p : string) : bool :=
  negb (String.eqb p EmptyString) &&
  match node_at t (lower p) with
  | Some n => (room <? depth n)%nat
  | None => false
  end.


(** A [json.load] that reads the texts of the scenarios: the decoder of this
    file, with [JSONDecodeError] for a text it does not read. *)
Definition scenario_json (text : string) : result pyval :=
  match json_loads text with
  | Some v => Ok v
  | None => Raise JSONDecodeError
  end.

(** The paths and columns of the scenario. *)
Definition scenario_init (parse_csv : csv_parser) (w : world) (separator : string)
  : result (TrieManager.manager * world) :=
  Interp.__init__ parse_csv scenario_json w
    "/data/search_db.csv" "/data/trie.json" "id" "ingredients" separator.

(** ** flow_layout.py: the layout

    Qt's value classes are records of Python ints; the sizes and sums the
    layout forms are taken to stay within the range of Qt's own ints.  A
    layout item is what the layout reads of it: its size hint, its minimum
    size and the dynamic properties of its widget, none of which a call of
    [setGeometry] on the item changes.  The calls of [item.setGeometry] the
    layout makes are listed in the order it makes them, each with the item
    and the rectangle it is given. *)

Module QSize.

#[local] Open Scope Z_scope.

Record t : Type := Make { width : Z; height : Z }.

(** [QSize()]: the invalid size. *)
Definition invalid : t := Make (-1) (-1).

Definition expandedTo (a b : t) : t :=
  Make (Z.max (width a) (width b)) (Z.max (height a) (height b)).

Definition plus (a b : t) : t :=
  Make (width a + width b) (height a + height b).

End QSize.

Module QRect.

(** [QRect(x, y, width, height)]. *)
Record t : Type := Make { x : Z; y : Z; width : Z; height : Z }.

(** [QRect(QPoint(x, y), size)]. *)
Definition at_point (px py : Z) (size : QSize.t) : t :=
  Make px py (QSize.width size) (QSize.height size).

End QRect.

Module QMargins.

Record t : Type := Make { left : Z; top : Z; right : Z; bottom : Z }.

End QMargins.

Module QWidget.

(** What the layout reads of a widget: its truth value and its dynamic
    properties, by name.  [bool(widget)] is [True] for most widgets; PyQt
    gives the classes that have a count (a combo box, a list widget) a
    length, and a widget of such a class is false while it is empty. *)
Record t : Type := Make { truth : bool; properties : list (string * pyval) }.

(** [widget.property(name)]: [None] for a property that is not set. *)
Definition property (widget : t) (name : string) : pyval :=
  match dict_get (properties widget) name with
  | Some v => v
  | None => PyNone
  end.

End QWidget.

Module QLayoutItem.

(** [widget] is [None] for an item that holds no widget (a spacer). *)
Record t : Type := Make {
  sizeHint : QSize.t;
  minimumSize : QSize.t;
  widget : option QWidget.t
}.

End QLayoutItem.

Module FlowLayout.

#[local] Open Scope Z_scope.

(** The attributes of lines 24-32, with what [QLayout] keeps of the calls of
    [setSpacing], [setContentsMargins] and [setGeometry]. *)
Record layout : Type := Layout {
  _item_list : list QLayoutItem.t;
  _line_debug_positions : list (Z * Z);
  grid_enabled : bool;
  grid_size : Z;
  grid_offset : Z;
  show_debug_lines : bool;
  spacing : Z;
  contentsMargins : QMargins.t;
  geometry : QRect.t
}.

Definition set_item_list (self : layout) (l : list QLayoutItem.t) : layout :=
  {| _item_list := l; _line_debug_positions := _line_debug_positions self;
     grid_enabled := grid_enabled self; grid_size := grid_size self;
     grid_offset := grid_offset self; show_debug_lines := show_debug_lines self;
     spacing := spacing self; contentsMargins := contentsMargins self;
     geometry := geometry self |}.

Definition set_line_debug_positions (self : layout) (l : list (Z * Z)) : layout :=
  {| _item_list := _item_list self; _line_debug_positions := l;
     grid_enabled := grid_enabled self; grid_size := grid_size self;
     grid_offset := grid_offset self; show_debug_lines := show_debug_lines self;
     spacing := spacing self; contentsMargins := contentsMargins self;
     geometry := geometry self |}.

Definition set_geometry (self : layout) (rect : QRect.t) : layout :=
  {| _item_list := _item_list self; _line_debug_positions := _line_debug_positions self;
     grid_enabled := grid_enabled self; grid_size := grid_size self;
     grid_offset := grid_offset self; show_debug_lines := show_debug_lines self;
     spacing := spacing self; contentsMargins := contentsMargins self;
     geometry := rect |}.

(** Lines 22-32.  The margins and the geometry a new layout has are Qt's. *)
Definition __init__ (margins : QMargins.t) (rect : QRect.t) : layout :=
  Layout [] [] false 20 0 false 10 margins rect.

(** Lines 40-41. *)
Definition addItem (self : layout) (item : QLayoutItem.t) : layout :=
  set_item_list self (_item_list self ++ [item]).

(** Lines 43-44. *)
Definition count (self : layout) : Z := Z.of_nat (List.length (_item_list self)).

(** Lines 46-49. *)
Definition itemAt (self : layout) (index : Z) : option QLayoutItem.t :=
  if (0 <=? index)%Z && (index <? Z.of_nat (List.length (_item_list self)))%Z
  then nth_error (_item_list self) (Z.to_nat index)
  else None.

(** Lines 51-54: the item taken, and the layout without it. *)
Definition takeAt (self : layout) (index : Z) : option QLayoutItem.t * layout :=
  if (0 <=? index)%Z && (index <? Z.of_nat (List.length (_item_list self)))%Z
  then (nth_error (_item_list self) (Z.to_nat index),
        set_item_list self (take (Z.to_nat index) (_item_list self)
                            ++ drop (S (Z.to_nat index)) (_item_list self)))
  else (None, self).

(** Lines 34-36: one round of the loop for each unit of [rounds]. *)
Fixpoint del_loop (rounds : nat) (self : layout) : layout :=
  match rounds with
  | O => self
  | S rounds' =>
      if negb (count self =? 0)%Z then del_loop rounds' (snd (takeAt self 0)) else self
  end.

(** Lines 34-36.  Each round takes one item away, so the loop is over after
    as many rounds as there are items. *)
Definition __del__ (self : layout) : layout :=
  del_loop (List.length (_item_list self)) self.

(** Lines 72-81. *)
Definition minimumSize (self : layout) : QSize.t :=
  let size :=
    fold_left (fun size item => QSize.expandedTo size (QLayoutItem.minimumSize item))
      (_item_list self) QSize.invalid in
  let m := contentsMargins self in
  QSize.plus size
    (QSize.Make (QMargins.left m + QMargins.right m) (QMargins.top m + QMargins.bottom m)).

(** Lines 69-70. *)
Definition sizeHint (self : layout) : QSize.t := minimumSize self.

(** Lines 85-91.  [isinstance(base_point, int)] holds of an [int] and of a
    [bool], and a [bool] counts as 0 or 1 in the sums and comparisons the
    result goes into. *)
Definition _get_alignment_point (item : QLayoutItem.t) (item_height : Z) : Z :=
  match QLayoutItem.widget item with
  | Some widget =>
      if QWidget.truth widget then
        match QWidget.property widget "base_point" with
        | PyInt base_point => base_point
        | PyBool base_point => if base_point then 1 else 0
        | _ => item_height / 2
        end
      else item_height / 2
  | None => item_height / 2
  end.

(** Lines 110-119: [(max_ascent, max_descent)] after the loop. *)
Fixpoint measure (current_items : list QLayoutItem.t) (max_ascent max_descent : Z)
  : Z * Z :=
  match current_items with
  | [] => (max_ascent, max_descent)
  | item :: current_items' =>
      let size := QLayoutItem.sizeHint item in
      let ascent := _get_alignment_point item (QSize.height size) in
      let descent := QSize.height size - ascent in
      measure current_items' (Z.max max_ascent ascent) (Z.max max_descent descent)
  end.

(** Lines 128-129: one round of the loop for each unit of [rounds]. *)
Fixpoint snap_loop (rounds : nat) (final_baseline_y max_ascent current_y grid_size : Z) : Z :=
  match rounds with
  | O => final_baseline_y
  | S rounds' =>
      if (final_baseline_y - max_ascent <? current_y)%Z
      then snap_loop rounds' (final_baseline_y + grid_size) max_ascent current_y grid_size
      else final_baseline_y
  end.

(** Lines 122-131.  A round of the loop of lines 128-129 raises the baseline
    by [grid_size], which is 1 at least there, so the loop is over after as
    many rounds as the baseline is short of [current_y + max_ascent]. *)
Definition snap (self : layout) (current_y max_ascent : Z) : Z :=
  let candidate_baseline_y := (current_y + max_ascent)%Z in
  if grid_enabled self && (0 <? grid_size self)%Z then
    let rel_y := (candidate_baseline_y - grid_offset self)%Z in
    let rel_y := if (rel_y <? 0)%Z then 0%Z else rel_y in
    let grid_index := ((rel_y + grid_size self - 1) / grid_size self)%Z in
    let final_baseline_y := (grid_index * grid_size self + grid_offset self)%Z in
    snap_loop (Z.to_nat (candidate_baseline_y - final_baseline_y))
      final_baseline_y max_ascent current_y (grid_size self)
  else candidate_baseline_y.

(** Lines 136-142: the calls of [item.setGeometry]. *)
Fixpoint place (current_items : list QLayoutItem.t)
    (current_x_cursor final_baseline_y spacing : Z) : list (QLayoutItem.t * QRect.t) :=
  match current_items with
  | [] => []
  | item :: current_items' =>
      let size := QLayoutItem.sizeHint item in
      let ascent := _get_alignment_point item (QSize.height size) in
      let item_y := (final_baseline_y - ascent)%Z in
      (item, QRect.at_point current_x_cursor item_y size)
      :: place current_items' (current_x_cursor + QSize.width size + spacing)
           final_baseline_y spacing
  end.

(** What a run of [_do_layout] has done so far: the layout, whose debug
    positions it changes, and the calls of [item.setGeometry] it has made. *)
Record run : Type := Run {
  this : layout;
  calls : list (QLayoutItem.t * QRect.t)
}.

(** Lines 104-144, with the variables of [_do_layout] the closure reads. *)
Definition process_line (rect : QRect.t) (effective_width spacing : Z)
    (current_items : list QLayoutItem.t) (current_y : Z) (is_dry_run : bool)
    (st : run) : Z * run :=
  match current_items with
  | [] => (current_y, st)
  | _ :: _ =>
      let '(max_ascent, max_descent) := measure current_items 0 0 in
      let final_baseline_y := snap (this st) current_y max_ascent in
      let st :=
        if negb is_dry_run
        then Run (set_line_debug_positions (this st)
                    (_line_debug_positions (this st) ++ [(final_baseline_y, effective_width)]))
                 (calls st ++ place current_items (QRect.x rect) final_baseline_y spacing)
        else st in
      ((final_baseline_y + max_descent) + spacing, st)%Z
  end.

(** Lines 153-155. *)
Definition force_break_of (item : QLayoutItem.t) : pyval :=
  match QLayoutItem.widget item with
  | Some widget =>
      if QWidget.truth widget then
        let v := QWidget.property widget "force_new_line" in
        if py_truthy v then v else PyBool false
      else PyBool false
  | None => PyBool false
  end.

(** Lines 149-169: the variables of the loop after it. *)
Fixpoint layout_loop (rect : QRect.t) (effective_width spacing : Z) (apply_geometry : bool)
    (items : list QLayoutItem.t)
    (line_items : list QLayoutItem.t) (current_x current_y_cursor : Z) (st : run)
  : list QLayoutItem.t * Z * Z * run :=
  match items with
  | [] => (line_items, current_x, current_y_cursor, st)
  | item :: items' =>
      let size := QLayoutItem.sizeHint item in
      let force_break := force_break_of item in
      let next_x := (current_x + QSize.width size)%Z in
      let '(line_items, next_x, current_y_cursor, st) :=
        if (0 <? List.length line_items)%nat
           && ((effective_width <? next_x)%Z || py_truthy force_break)
        then
          let '(current_y_cursor, st) :=
            process_line rect effective_width spacing line_items current_y_cursor
              (negb apply_geometry) st in
          ([], QSize.width size, current_y_cursor, st)
        else (line_items, next_x, current_y_cursor, st) in
      layout_loop rect effective_width spacing apply_geometry items'
        (line_items ++ [item]) (next_x + spacing) current_y_cursor st
  end.

(** Lines 93-176: the height, the layout afterwards and the calls made. *)
Definition _do_layout (self : layout) (rect : QRect.t) (apply_geometry : bool) : Z * run :=
  let y := QRect.y rect in
  let effective_width := QRect.width rect in
  let spacing := spacing self in
  let self := if apply_geometry then set_line_debug_positions self [] else self in
  let '(line_items, _, current_y_cursor, st) :=
    layout_loop rect effective_width spacing apply_geometry (_item_list self)
      [] 0 y (Run self []) in
  let '(current_y_cursor, st) :=
    match line_items with
    | [] => (current_y_cursor, st)
    | _ :: _ =>
        process_line rect effective_width spacing line_items current_y_cursor
          (negb apply_geometry) st
    end in
  ((current_y_cursor - QRect.y rect)%Z, st).

(** Lines 62-63. *)
Definition heightForWidth (self : layout) (width : Z) : Z :=
  fst (_do_layout self (QRect.Make 0 0 width 0) false).

(** Lines 65-67. *)
Definition setGeometry (self : layout) (rect : QRect.t) : run :=
  snd (_do_layout (set_geometry self rect) rect true).

(** Lines 178-184: the calls of [painter.drawLine]. *)
Definition paint_debug_visuals (self : layout) : list (Z * Z * Z * Z) :=
  if negb (show_debug_lines self) then []
  else map (fun '(y, w) => (0, y, w, y)%Z) (_line_debug_positions self).

End FlowLayout.

(** ** Vocabulary for the flow layout *)

(** The width of the size hint of an item. *)
Definition hint_width (item : QLayoutItem.t) : Z :=
  QSize.width (QLayoutItem.sizeHint item).

(** The alignment point of an item at the height of its size hint. *)
Definition ascent (item : QLayoutItem.t) : Z :=
  FlowLayout._get_alignment_point item (QSize.height (QLayoutItem.sizeHint item)).

(** The widget of the item asks for a new line. *)
Definition breaks (item : QLayoutItem.t) : bool :=
  py_truthy (FlowLayout.force_break_of item).

(** The room the items of a line take, each with the spacing after it. *)
Fixpoint offset (spacing : Z) (line : list QLayoutItem.t) : Z :=
  match line with
  | [] => 0%Z
  | item :: line' => (hint_width item + spacing + offset spacing line')%Z
  end.

(** The right and the bottom edge of a rectangle. *)
Definition right_edge (r : QRect.t) : Z := (QRect.x r + QRect.width r)%Z.
Definition bottom_edge (r : QRect.t) : Z := (QRect.y r + QRect.height r)%Z.

(** [R] holds of every element and the next one. *)
Fixpoint chain {A : Type} (R : A -> A -> Prop) (l : list A) : Prop :=
  match l with
  | a :: l' =>
      match l' with
      | b :: _ => R a b
      | [] => True
      end /\ chain R l'
  | [] => True
  end.

(** How a call of [setGeometry] follows the call before it: the item goes
    on in the line, or it starts a line because its widget asks for one or
    because it would end beyond the width. *)
Definition follows (rect : QRect.t) (spacing : Z)
    (ca cb : QLayoutItem.t * QRect.t) : Prop :=
  (breaks (fst cb) = false /\
   QRect.x (snd cb) = (right_edge (snd ca) + spacing)%Z /\
   (right_edge (snd cb) <= QRect.x rect + QRect.width rect)%Z /\
   (QRect.y (snd cb) + ascent (fst cb) = QRect.y (snd ca) + ascent (fst ca))%Z) \/
  (QRect.x (snd cb) = QRect.x rect /\
   (breaks (fst cb) = true \/
    (QRect.x rect + QRect.width rect
     < right_edge (snd ca) + spacing + QRect.width (snd cb))%Z)).

(** Two rectangles a spacing apart, the second to the right of the first or
    below it. *)
Definition apart (spacing : Z) (ca cb : QLayoutItem.t * QRect.t) : Prop :=
  (right_edge (snd ca) + spacing <= QRect.x (snd cb))%Z \/
  (bottom_edge (snd ca) + spacing <= QRect.y (snd cb))%Z.

(** The layouts agree on the grid. *)
Definition same_grid (a b : FlowLayout.layout) : Prop :=
  FlowLayout.grid_enabled a = FlowLayout.grid_enabled b /\
  FlowLayout.grid_size a = FlowLayout.grid_size b /\
  FlowLayout.grid_offset a = FlowLayout.grid_offset b.

(** What the run keeps true of the calls it has made and the baselines it
    has recorded. *)
Definition recorded (self0 : FlowLayout.layout) (eff : Z) (st : FlowLayout.run) : Prop :=
  FlowLayout.this st
  = FlowLayout.set_line_debug_positions self0 (FlowLayout._line_debug_positions (FlowLayout.this st)) /\
  (forall b w, In (b, w) (FlowLayout._line_debug_positions (FlowLayout.this st)) ->
     w = eff /\
     exists item r, In (item, r) (FlowLayout.calls st) /\ (QRect.y r + ascent item)%Z = b) /\
  (forall item r, In (item, r) (FlowLayout.calls st) ->
     QRect.width r = hint_width item /\
     QRect.height r = QSize.height (QLayoutItem.sizeHint item) /\
     In ((QRect.y r + ascent item)%Z, eff)
        (FlowLayout._line_debug_positions (FlowLayout.this st))).

(** The items of a line that goes on as the loop lets it: each but the
    first asks for no new line and ends within the width. *)
Definition goes_on_well (eff sp : Z) (line : list QLayoutItem.t) : Prop :=
  forall pre b post, line = pre ++ b :: post -> pre <> [] ->
    breaks b = false /\ (offset sp pre + hint_width b <= eff)%Z.

(** What holds of the calls made so far: each follows the one before it,
    the first is at the left edge, and each has the width of its item. *)
Definition laid_out (rect : QRect.t) (sp : Z) (cs : list (QLayoutItem.t * QRect.t)) : Prop :=
  chain (follows rect sp) cs /\
  (forall c, head cs = Some c -> QRect.x (snd c) = QRect.x rect) /\
  (forall item r, In (item, r) cs -> QRect.width r = hint_width item).

(** What holds of the line the loop is filling, after the calls [cs]: the
    cursor is the room its items take, it goes on well, and its first item
    did not go on in the line before it. *)
Definition pending (rect : QRect.t) (sp : Z) (cs : list (QLayoutItem.t * QRect.t))
    (line : list QLayoutItem.t) (cx : Z) : Prop :=
  cx = offset sp line /\
  goes_on_well (QRect.width rect) sp line /\
  (forall a ra b post, last cs = Some (a, ra) -> line = b :: post ->
     breaks b = true \/
     (QRect.x rect + QRect.width rect < right_edge ra + sp + hint_width b)%Z) /\
  (line = [] -> cs = []).

(** A layout of two items of 30 by 12 with the spacing of the constructor,
    and a rectangle of width 50, in which the two do not fit side by side. *)
Definition scenario_item : QLayoutItem.t :=
  QLayoutItem.Make (QSize.Make 30 12) (QSize.Make 5 5) None.

Definition scenario_layout : FlowLayout.layout :=
  FlowLayout.addItem
    (FlowLayout.addItem
       (FlowLayout.__init__ (QMargins.Make 0 0 0 0) (QRect.Make 0 0 0 0)) scenario_item)
    scenario_item.

Definition scenario_rect : QRect.t := QRect.Make 0 0 50 0.

(** A rectangle moved by [dx] and [dy], and a call with its rectangle
    moved. *)
Definition moved (dx dy : Z) (r : QRect.t) : QRect.t :=
  QRect.Make (QRect.x r + dx) (QRect.y r + dy) (QRect.width r) (QRect.height r).

Definition moved_call (dx dy : Z) (c : QLayoutItem.t * QRect.t) : QLayoutItem.t * QRect.t :=
  (fst c, moved dx dy (snd c)).

(** The second run is the first one moved by [dx] and [dy]: the layouts
    differ in the geometry and in the recorded baselines, which are [dy]
    further down, and the calls are the calls of the first, moved. *)
Definition moved_run (dx dy : Z) (st1 st2 : FlowLayout.run) : Prop :=
  same_grid (FlowLayout.this st1) (FlowLayout.this st2) /\
  FlowLayout._line_debug_positions (FlowLayout.this st2)
  = map (fun p => (fst p + dy, snd p)%Z) (FlowLayout._line_debug_positions (FlowLayout.this st1)) /\
  FlowLayout.calls st2 = map (moved_call dx dy) (FlowLayout.calls st1).


(** * Properties *)

(** ** The file system *)

Lemma run_ops_stdout w ops : stdout (run_ops w ops) = stdout w.
Proof.
  unfold run_ops. revert w. induction ops as [|op ops IH]; intros w; [reflexivity|].
  simpl. rewrite IH.
  destruct op as [path|path chunk]; simpl; [reflexivity|].
  destruct (files w !! path); reflexivity.
Qed.

Lemma run_ops_clock w ops : clock (run_ops w ops) = clock w.
Proof.
  unfold run_ops. revert w. induction ops as [|op ops IH]; intros w; [reflexivity|].
  simpl. rewrite IH.
  destruct op as [path|path chunk]; simpl; [reflexivity|].
  destruct (files w !! path); reflexivity.
Qed.


Lemma append_cons (x : ascii) (a b : string) : String x a +:+ b = String x (a +:+ b).
Proof. reflexivity. Qed.

Lemma append_assoc (a b c : string) : (a +:+ b) +:+ c = a +:+ (b +:+ c).
Proof. induction a as [|x a IH]; [reflexivity|]. now rewrite !append_cons, IH. Qed.

Lemma append_empty_r (a : string) : a +:+ EmptyString = a.
Proof. induction a as [|x a IH]; [reflexivity|]. now rewrite append_cons, IH. Qed.

Lemma run_writes path chunks : forall w c,
  files w !! path = Some (File (clock w) c) ->
  files (run_ops w (map (OpWrite path) chunks)) !! path
  = Some (File (clock w) (c +:+ concat_text chunks)) /\
  (forall p, p <> path ->
     files (run_ops w (map (OpWrite path) chunks)) !! p = files w !! p).
Proof.
  unfold run_ops.
  induction chunks as [|chunk chunks IH]; intros w c H; simpl.
  - rewrite append_empty_r. auto.
  - rewrite H.
    set (w1 := {| files := _; clock := clock w; stdout := stdout w |}).
    destruct (IH w1 (c +:+ chunk)) as [IH1 IH2].
    { subst w1. simpl. apply lookup_insert_eq. }
    split.
    + rewrite IH1, append_assoc. reflexivity.
    + intros p Hp. rewrite (IH2 p Hp). subst w1. simpl.
      now apply lookup_insert_ne.
Qed.

Lemma run_dump path chunks w :
  files (run_ops w (OpOpenW path :: map (OpWrite path) chunks)) !! path
  = Some (File (clock w) (concat_text chunks)) /\
  (forall p, p <> path ->
     files (run_ops w (OpOpenW path :: map (OpWrite path) chunks)) !! p = files w !! p).
Proof.
  change (run_ops w (OpOpenW path :: map (OpWrite path) chunks))
    with (run_ops (apply_op w (OpOpenW path)) (map (OpWrite path) chunks)).
  destruct (run_writes path chunks (apply_op w (OpOpenW path)) EmptyString) as [H1 H2].
  { simpl. apply lookup_insert_eq. }
  split; [exact H1|].
  intros p Hp. rewrite (H2 p Hp). simpl. now apply lookup_insert_ne.
Qed.

(** What a dump that completes leaves: the text of the value in the file at
    the path, dated at the time of the run, and every other file as it
    was. *)
Lemma json_dump_ok w path obj w' :
  json_dump w path obj = Ok w' ->
  files w' !! path = Some (File (clock w) (text_of (iterencode obj))) /\
  stdout w' = stdout w /\ clock w' = clock w /\
  forall p, p <> path -> files w' !! p = files w !! p.
Proof.
  unfold json_dump, dump_ops, text_of.
  destruct (written (iterencode obj)) as [ts [e|]]; [discriminate|].
  cbn [fst snd]. intros [= <-].
  destruct (run_dump path ts w) as [H1 H2].
  split; [exact H1|]. split; [|split; [|exact H2]].
  - exact (run_ops_stdout w (OpOpenW path :: map (OpWrite path) ts)).
  - exact (run_ops_clock w (OpOpenW path :: map (OpWrite path) ts)).
Qed.

(** ** The freshness check *)












(** ** Persisting the trie *)

(** C5 (as the code has it).  The dump writes in place: its first operation
    empties the file at the output path, each later one appends a chunk, so
    that after [S k] operations the file holds the first [k] chunks of the
    new text; when the dump completes the file holds the whole text and no
    other file has been touched. *)
Theorem dump_writes_in_place (w : world) (path : string) (obj : pyval) :
  interrupted w path obj 0 = w /\
  (forall k, artifact (interrupted w path obj (S k)) path
             = Some (concat_text (take k (fst (written (iterencode obj)))))) /\
  (forall new, json_dumps obj = Ok new ->
     exists w', json_dump w path obj = Ok w' /\
       artifact w' path = Some new /\
       forall p, p <> path -> files w' !! p = files w !! p).
Proof.
  split; [reflexivity|]. split.
  - intros k. unfold interrupted, artifact, dump_ops.
    rewrite firstn_cons, firstn_map.
    destruct (run_dump path (take k (fst (written (iterencode obj)))) w) as [H _].
    rewrite H. reflexivity.
  - intros new Hnew. unfold json_dumps in Hnew. unfold json_dump, artifact, dump_ops.
    destruct (written (iterencode obj)) as [ts [e|]]; [discriminate|].
    injection Hnew as <-. cbn [fst snd].
    destruct (run_dump path ts w) as [H1 H2].
    eexists. split; [reflexivity|]. split; [|exact H2].
    rewrite H1. reflexivity.
Qed.

Lemma scenario_trie_dumps : exists new, json_dumps scenario_trie = Ok new.
Proof. eexists. vm_compute. reflexivity. Qed.

Lemma dump_writes_in_place_witness :
  exists w', json_dump (world_with "/data/trie.json" old_text) "/data/trie.json" scenario_trie
             = Ok w' /\
    Ok <$> artifact w' "/data/trie.json" = Some (json_dumps scenario_trie).
Proof.
  destruct (dump_writes_in_place (world_with "/data/trie.json" old_text)
              "/data/trie.json" scenario_trie) as (_ & _ & H).
  destruct scenario_trie_dumps as [new E].
  destruct (H new E) as (w' & H1 & H2 & _).
  exists w'. split; [exact H1|]. rewrite H2, E. reflexivity.
Defined.

(** C5, counterexample.  A valid artifact is on disk and a new trie is being
    dumped over it.  Interrupted after the first operation the artifact is
    the empty file; interrupted after the fourth it is an opening fragment of
    the new text.  Neither decodes, and neither is the old text. *)
Lemma dump_interrupted_loses_artifact :
  let path := "/data/trie.json" in
  let w := world_with path old_text in
  json_loads old_text = Some old_trie /\
  artifact w path = Some old_text /\
  artifact (interrupted w path scenario_trie 1) path = Some EmptyString /\
  json_loads EmptyString = None /\
  (exists half, artifact (interrupted w path scenario_trie 4) path = Some half /\
     half <> old_text /\ Ok half <> json_dumps scenario_trie /\
     String.length half = 5 /\ json_loads half = None).
Proof.
  split; [vm_compute; reflexivity|].
  split; [vm_compute; reflexivity|].
  split; [vm_compute; reflexivity|].
  split; [vm_compute; reflexivity|].
  eexists; split; [vm_compute; reflexivity|].
  split; [vm_compute; discriminate|].
  split; [vm_compute; discriminate|].
  split; vm_compute; reflexivity.
Qed.

(** ** Loading the artifact *)

(** [TrieManager._load_trie] is the load under a [json.load] that gives a
    value or raises [JSONDecodeError]. *)
Lemma load_trie_scenario_json self w :
  Interp._load_trie scenario_json self w = TrieManager._load_trie self w.
Proof.
  unfold Interp._load_trie, TrieManager._load_trie, scenario_json.
  destruct (files w !! TrieManager.output_json self) as [f|]; [|reflexivity].
  destruct (json_loads (content f)); reflexivity.
Qed.



(** C4 (as the code has it).  The load has no error of its own for a bad
    artifact.  With no file at the output path, and with a text on which
    [json.load] raises [JSONDecodeError], the manager gets the empty trie
    and one line goes to the standard output, the same line in both cases.
    Any other exception of [json.load] leaves [_load_trie] as it is.  A
    value [json.load] returns is taken as the trie, whatever its shape.  So
    [JSONDecodeError] and [FileNotFoundError] never leave the load, and a
    load that returns leaves the files as they were. *)
Theorem load_falls_back_to_empty
    (json_load : string -> result pyval) (self : TrieManager.manager) (w : world) :
  let path := TrieManager.output_json self in
  let fallback := Ok (TrieManager.set_trie_root self (PyDict []),
                      print w "Error: Could not load JSON trie.") in
  (artifact w path = None -> Interp._load_trie json_load self w = fallback) /\
  (forall text, artifact w path = Some text ->
     json_load text = Raise JSONDecodeError ->
     Interp._load_trie json_load self w = fallback) /\
  (forall text v, artifact w path = Some text ->
     json_load text = Ok v ->
     Interp._load_trie json_load self w = Ok (TrieManager.set_trie_root self v, w)) /\
  (forall text e, artifact w path = Some text ->
     json_load text = Raise e ->
     e <> JSONDecodeError -> (forall f, e <> FileNotFoundError f) ->
     Interp._load_trie json_load self w = Raise e) /\
  Interp._load_trie json_load self w <> Raise JSONDecodeError /\
  (forall f, Interp._load_trie json_load self w <> Raise (FileNotFoundError f)) /\
  (forall self' w', Interp._load_trie json_load self w = Ok (self', w') ->
     files w' = files w /\
     ((exists text v, artifact w path = Some text /\ json_load text = Ok v /\
                      self' = TrieManager.set_trie_root self v /\ w' = w) \/
      (self' = TrieManager.set_trie_root self (PyDict []) /\
       w' = print w "Error: Could not load JSON trie."))).
Proof.
  intros path fallback. subst path fallback. unfold artifact, Interp._load_trie.
  destruct (files w !! TrieManager.output_json self) as [f|]; cbn [fmap option_fmap option_map].
  - split; [discriminate|].
    split; [intros text [= <-] E; now rewrite E|].
    split; [intros text v [= <-] E; now rewrite E|].
    split.
    { intros text e [= <-] E He Hf. rewrite E.
      destruct e; try reflexivity; [now contradiction (Hf filename)|now contradiction He]. }
    destruct (json_load (content f)) as [v|e] eqn:E.
    + split; [discriminate|]. split; [discriminate|].
      intros self' w' [= <- <-]. split; [reflexivity|]. left. now exists (content f), v.
    + destruct e; (split; [discriminate|]); (split; [discriminate|]);
        try discriminate;
        intros self' w' [= <- <-]; (split; [reflexivity|]); now right.
  - split; [reflexivity|]. split; [discriminate|]. split; [discriminate|].
    split; [discriminate|]. split; [discriminate|]. split; [discriminate|].
    intros self' w' [= <- <-]. split; [reflexivity|]. now right.
Qed.

(** C4, counterexample.  [json.load] raises [JSONDecodeError] on a truncated
    artifact, which then loads as the empty trie, with the outcome of a
    missing artifact; an array, and an object with a two-character key over
    a number, load as they are.  None of these loads raises. *)
Lemma load_accepts_corrupt_artifact :
  let path := "/data/trie.json" in
  let self := TrieManager.Manager "/data/search_db.csv" path "id" "ingredients" ";"
                (PyDict []) in
  scenario_json truncated_text = Raise JSONDecodeError /\
  Interp._load_trie scenario_json self (world_with path truncated_text)
  = Ok (self, print (world_with path truncated_text) "Error: Could not load JSON trie.") /\
  ~ raises (Interp._load_trie scenario_json self (world_with path truncated_text)) /\
  Interp._load_trie scenario_json self empty_world
  = Ok (self, print empty_world "Error: Could not load JSON trie.") /\
  scenario_json "[1,2]" = Ok (PyList [PyInt 1; PyInt 2]) /\
  Interp._load_trie scenario_json self (world_with path "[1,2]")
  = Ok (TrieManager.set_trie_root self (PyList [PyInt 1; PyInt 2]),
        world_with path "[1,2]") /\
  json_dumps (PyDict [("ab", PyInt 3)]) = Ok two_char_key_text /\
  scenario_json two_char_key_text = Ok (PyDict [("ab", PyInt 3)]) /\
  Interp._load_trie scenario_json self (world_with path two_char_key_text)
  = Ok (TrieManager.set_trie_root self (PyDict [("ab", PyInt 3)]),
        world_with path two_char_key_text).
Proof.
  split; [vm_compute; reflexivity|].
  split; [vm_compute; reflexivity|].
  split; [vm_compute; tauto|].
  split; [vm_compute; reflexivity|].
  split; [vm_compute; reflexivity|].
  split; [vm_compute; reflexivity|].
  split; [vm_compute; reflexivity|].
  split; vm_compute; reflexivity.
Qed.

(** ** Construction of the manager *)





(** ** Dictionaries *)

Lemma dict_get_set_eq d k v : dict_get (dict_set d k v) k = Some v.
Proof.
  induction d as [|[k' v'] d IH]; simpl.
  - now rewrite String.eqb_refl.
  - destruct (String.eqb k' k) eqn:E; simpl; rewrite E; [reflexivity|exact IH].
Qed.

Lemma dict_get_set_ne d k k' v : k <> k' -> dict_get (dict_set d k v) k' = dict_get d k'.
Proof.
  intros Hne. induction d as [|[k0 v0] d IH]; simpl.
  - apply String.eqb_neq in Hne. now rewrite Hne.
  - destruct (String.eqb k0 k) eqn:E; simpl.
    + apply String.eqb_eq in E. subst k0.
      apply String.eqb_neq in Hne. now rewrite Hne.
    + now rewrite IH.
Qed.

Lemma dict_set_set d k v v' : dict_set (dict_set d k v) k v' = dict_set d k v'.
Proof.
  induction d as [|[k0 v0] d IH]; simpl.
  - now rewrite String.eqb_refl.
  - destruct (String.eqb k0 k) eqn:E; simpl; rewrite E; [reflexivity|now rewrite IH].
Qed.

Lemma dict_set_same d k v : dict_get d k = Some v -> dict_set d k v = d.
Proof.
  induction d as [|[k0 v0] d IH]; simpl; [discriminate|].
  destruct (String.eqb k0 k) eqn:E.
  - now intros [= ->].
  - intros H. now rewrite IH.
Qed.

Lemma dict_has_get d k : dict_has d k = true <-> exists v, dict_get d k = Some v.
Proof.
  unfold dict_has. destruct (dict_get d k) as [v|]; split; eauto; try discriminate.
  intros [v [=]].
Qed.

Lemma dict_get_In d k v : dict_get d k = Some v -> In (k, v) d.
Proof.
  induction d as [|[k0 v0] d IH]; simpl; [discriminate|].
  destruct (String.eqb k0 k) eqn:E.
  - apply String.eqb_eq in E. subst k0. intros [= ->]. now left.
  - intros H. right. now apply IH.
Qed.

Lemma existsb_eqb_In (k : string) (l : list string) :
  existsb (String.eqb k) l = true <-> In k l.
Proof.
  rewrite existsb_exists. split.
  - intros (x & Hx & E). apply String.eqb_eq in E. now subst x.
  - intros H. exists k. split; [exact H|apply String.eqb_refl].
Qed.

Lemma In_dict_get d k v : distinct (map fst d) = true -> In (k, v) d -> dict_get d k = Some v.
Proof.
  induction d as [|[k0 v0] d IH]; simpl; [tauto|].
  rewrite andb_true_iff, negb_true_iff. intros [Hk Hd] [H|H].
  - injection H as -> ->. now rewrite String.eqb_refl.
  - destruct (String.eqb k0 k) eqn:E.
    + apply String.eqb_eq in E. subst k0. exfalso.
      assert (Hin : In k (map fst d)) by (apply (in_map fst) in H; exact H).
      apply existsb_eqb_In in Hin. congruence.
    + now apply IH.
Qed.

Lemma dict_set_keys d k v :
  map fst (dict_set d k v) = if dict_has d k then map fst d else map fst d ++ [k].
Proof.
  unfold dict_has. induction d as [|[k0 v0] d IH]; simpl; [reflexivity|].
  destruct (String.eqb k0 k) eqn:E; simpl; [reflexivity|].
  rewrite IH. destruct (dict_get d k); reflexivity.
Qed.

Lemma dict_get_None_keys d k : dict_get d k = None -> ~ In k (map fst d).
Proof.
  induction d as [|[k0 v0] d IH]; simpl; [tauto|].
  destruct (String.eqb k0 k) eqn:E; [discriminate|].
  apply String.eqb_neq in E. intros H [H'|H']; [congruence|]. now apply IH.
Qed.

Lemma distinct_snoc l k : distinct l = true -> ~ In k l -> distinct (l ++ [k]) = true.
Proof.
  induction l as [|x l IH]; simpl; [reflexivity|].
  rewrite !andb_true_iff, !negb_true_iff. intros [Hx Hl] Hk. split.
  - rewrite existsb_app, Hx. simpl. rewrite orb_false_r.
    apply String.eqb_neq. intros ->. apply Hk. now left.
  - apply IH; [exact Hl|]. intros H. apply Hk. now right.
Qed.

Lemma dict_set_distinct d k v :
  distinct (map fst d) = true -> distinct (map fst (dict_set d k v)) = true.
Proof.
  intros H. rewrite dict_set_keys. unfold dict_has.
  destruct (dict_get d k) eqn:E; [exact H|].
  apply distinct_snoc; [exact H|]. now apply dict_get_None_keys.
Qed.

Lemma dict_set_forallb (P : string * pyval -> bool) d k v :
  forallb P d = true -> P (k, v) = true -> forallb P (dict_set d k v) = true.
Proof.
  intros Hd Hkv. induction d as [|[k0 v0] d IH]; simpl in *.
  - now rewrite Hkv.
  - apply andb_true_iff in Hd as [H0 Hd].
    destruct (String.eqb k0 k) eqn:E; simpl.
    + apply String.eqb_eq in E. subst k0. now rewrite Hkv, Hd.
    + now rewrite H0, IH.
Qed.

(** ** Well-formed tries *)

Lemma char_is_char (a : ascii) : is_char (String a EmptyString) = true.
Proof. reflexivity. Qed.

Lemma char_not_sentinel (a : ascii) : String.eqb (String a EmptyString) SENTINEL = false.
Proof. unfold SENTINEL. simpl. destruct (Ascii.eqb a "_"); reflexivity. Qed.

Lemma is_char_not_sentinel k : is_char k = true -> String.eqb k SENTINEL = false.
Proof.
  destruct k as [|a [|b k]]; try discriminate. intros _. apply char_not_sentinel.
Qed.

Lemma wf_empty s : wf_node s (PyDict []) = true.
Proof. reflexivity. Qed.

Lemma wf_is_dict s v : wf_node s v = true -> exists d, v = PyDict d.
Proof. destruct v; try discriminate. eauto. Qed.

Lemma wf_dict_distinct s d : wf_node s (PyDict d) = true -> distinct (map fst d) = true.
Proof. simpl. rewrite andb_true_iff. tauto. Qed.

Lemma wf_dict_In s d k v :
  wf_node s (PyDict d) = true -> In (k, v) d ->
  if String.eqb k SENTINEL then is_ids s v = true
  else is_char k = true /\ wf_node s v = true.
Proof.
  simpl. rewrite andb_true_iff. intros [_ H] Hin.
  rewrite forallb_forall in H. specialize (H _ Hin). simpl in H.
  destruct (String.eqb k SENTINEL); [exact H|]. now apply andb_true_iff in H.
Qed.

Lemma wf_dict_child s d a v :
  wf_node s (PyDict d) = true -> dict_get d (String a EmptyString) = Some v ->
  wf_node s v = true.
Proof.
  intros Hwf Hget. apply dict_get_In in Hget.
  pose proof (wf_dict_In _ _ _ _ Hwf Hget) as H.
  rewrite char_not_sentinel in H. tauto.
Qed.

Lemma wf_dict_ids s d v :
  wf_node s (PyDict d) = true -> dict_get d SENTINEL = Some v -> is_ids s v = true.
Proof.
  intros Hwf Hget. apply dict_get_In in Hget.
  pose proof (wf_dict_In _ _ _ _ Hwf Hget) as H. now rewrite String.eqb_refl in H.
Qed.

Lemma wf_set_child s d a v :
  wf_node s (PyDict d) = true -> wf_node s v = true ->
  wf_node s (PyDict (dict_set d (String a EmptyString) v)) = true.
Proof.
  simpl. rewrite !andb_true_iff. intros [Hd Hall] Hv. split.
  - now apply dict_set_distinct.
  - apply dict_set_forallb; [exact Hall|]. simpl fst. simpl snd.
    now rewrite char_not_sentinel, Hv.
Qed.

Lemma wf_set_ids s d v :
  wf_node s (PyDict d) = true -> is_ids s v = true ->
  wf_node s (PyDict (dict_set d SENTINEL v)) = true.
Proof.
  simpl. rewrite !andb_true_iff. intros [Hd Hall] Hv. split.
  - now apply dict_set_distinct.
  - apply dict_set_forallb; [exact Hall|]. simpl fst. simpl snd.
    now rewrite String.eqb_refl.
Qed.

Lemma wf_keys_ok s v : wf_node s v = true -> keys_ok v = true.
Proof.
  induction v as [| | | |l _|l _|l _|d IH] using pyval_ind; try discriminate.
  simpl. rewrite andb_true_iff. intros [_ H].
  rewrite forallb_forall in *. rewrite List.Forall_forall in IH.
  intros [k v] Hin. specialize (H _ Hin). specialize (IH _ Hin). simpl in *.
  destruct (String.eqb k SENTINEL) eqn:E; simpl.
  - destruct s, v; try discriminate; simpl in H; simpl;
      rewrite forallb_forall in *; intros x Hx; specialize (H _ Hx);
      destruct x; try discriminate; reflexivity.
  - apply andb_true_iff in H as [H1 H2]. rewrite H1. simpl. now apply IH.
Qed.

(** ** The builders on well-formed tries *)

Lemma ids_or_empty_store s d v :
  wf_node s (PyDict d) = true -> dict_get d SENTINEL = Some v ->
  v = store s (ids_or_empty (Some v)) /\ forallb is_atom (ids_or_empty (Some v)) = true.
Proof.
  intros Hwf E. pose proof (wf_dict_ids _ _ _ Hwf E) as Hv.
  destruct s, v; try discriminate; split; try reflexivity; exact Hv.
Qed.

Lemma add_ids_dict d doc_id :
  wf_node AsList (PyDict d) = true ->
  TrieManager.add_ids (PyDict d) doc_id
  = Ok (PyDict (dict_set d SENTINEL
                  (store AsList (add_id (ids_or_empty (dict_get d SENTINEL)) doc_id)))).
Proof.
  intros Hwf. unfold TrieManager.add_ids. simpl. unfold dict_has.
  destruct (dict_get d SENTINEL) as [v|] eqn:E; simpl.
  - rewrite E. simpl. destruct (ids_or_empty_store _ _ _ Hwf E) as [Hv _].
    destruct v as [| | | |l| | |]; try discriminate. simpl.
    unfold add_id. destruct (existsb (py_eq_atom doc_id) l) eqn:Ee; simpl.
    + now rewrite dict_set_same.
    + reflexivity.
  - rewrite dict_get_set_eq. simpl. unfold add_id. simpl.
    now rewrite dict_set_set.
Qed.

Lemma gen_add_ids_dict d doc_id :
  wf_node AsSet (PyDict d) = true ->
  GenerateTrie.add_ids (PyDict d) doc_id
  = Ok (PyDict (dict_set d SENTINEL
                  (store AsSet (add_id (ids_or_empty (dict_get d SENTINEL)) doc_id)))).
Proof.
  intros Hwf. unfold GenerateTrie.add_ids. simpl. unfold dict_has.
  destruct (dict_get d SENTINEL) as [v|] eqn:E; simpl.
  - rewrite E. simpl. destruct (ids_or_empty_store _ _ _ Hwf E) as [Hv _].
    destruct v as [| | | | | |l|]; try discriminate. simpl.
    unfold add_id. destruct (existsb (py_eq_atom doc_id) l) eqn:Ee; reflexivity.
  - rewrite dict_get_set_eq. simpl. unfold add_id. simpl.
    now rewrite dict_set_set.
Qed.

Lemma add_chars_dict d c cs doc_id :
  TrieManager.add_chars (PyDict d) (c :: cs) doc_id
  = child' ← TrieManager.add_chars (child_or_empty (dict_get d c)) cs doc_id;
    Ok (PyDict (dict_set d c child')).
Proof.
  simpl. unfold dict_has. destruct (dict_get d c) as [v|] eqn:E; simpl.
  - rewrite E. simpl. reflexivity.
  - rewrite dict_get_set_eq. simpl.
    destruct (TrieManager.add_chars (PyDict []) cs doc_id); simpl; [|reflexivity].
    now rewrite dict_set_set.
Qed.

Lemma gen_add_chars_dict d c cs doc_id :
  GenerateTrie.add_chars (PyDict d) (c :: cs) doc_id
  = child' ← GenerateTrie.add_chars (child_or_empty (dict_get d c)) cs doc_id;
    Ok (PyDict (dict_set d c child')).
Proof.
  simpl. unfold dict_has. destruct (dict_get d c) as [v|] eqn:E; simpl.
  - rewrite E. simpl. reflexivity.
  - rewrite dict_get_set_eq. simpl.
    destruct (GenerateTrie.add_chars (PyDict []) cs doc_id); simpl; [|reflexivity].
    now rewrite dict_set_set.
Qed.

Lemma walk_dict d c cs :
  TrieManager.walk (PyDict d) (c :: cs)
  = match dict_get d c with
    | Some child => TrieManager.walk child cs
    | None => Ok None
    end.
Proof.
  simpl. unfold dict_has. destruct (dict_get d c); reflexivity.
Qed.

Lemma node_at_empty t : node_at t EmptyString = Some t.
Proof. reflexivity. Qed.

Lemma node_at_dict d a p :
  node_at (PyDict d) (String a p)
  = match dict_get d (String a EmptyString) with
    | Some child => node_at child p
    | None => None
    end.
Proof.
  unfold node_at. cbn [chars]. rewrite walk_dict.
  destruct (dict_get d (String a EmptyString)); reflexivity.
Qed.

Lemma node_at_wf s t p n : wf_node s t = true -> node_at t p = Some n -> wf_node s n = true.
Proof.
  revert t. induction p as [|a p IH]; intros t Hwf.
  - rewrite node_at_empty. now intros [= <-].
  - destruct (wf_is_dict _ _ Hwf) as [d ->]. rewrite node_at_dict.
    destruct (dict_get d (String a EmptyString)) as [child|] eqn:E; [|discriminate].
    apply IH. now apply (wf_dict_child s d a).
Qed.

Lemma walk_wf s t p : wf_node s t = true -> TrieManager.walk t (chars p) = Ok (node_at t p).
Proof.
  revert t. induction p as [|a p IH]; intros t Hwf; [reflexivity|].
  destruct (wf_is_dict _ _ Hwf) as [d ->]. rewrite node_at_dict. cbn [chars].
  rewrite walk_dict.
  destruct (dict_get d (String a EmptyString)) as [child|] eqn:E; [|reflexivity].
  apply IH. now apply (wf_dict_child s d a).
Qed.

Lemma node_at_app t p q :
  node_at t (p +:+ q) = match node_at t p with
                        | Some n => node_at n q
                        | None => None
                        end.
Proof.
  unfold node_at. revert t. induction p as [|a p IH]; intros t; [reflexivity|].
  rewrite append_cons. cbn [chars TrieManager.walk].
  destruct (py_contains t (AStr (String a EmptyString))) as [[|]|e]; simpl; try reflexivity.
  destruct (py_getitem t (String a EmptyString)) as [child|e]; simpl; [|reflexivity].
  apply IH.
Qed.

Lemma ids_at_root d : ids_at (PyDict d) EmptyString = dict_get d SENTINEL.
Proof. reflexivity. Qed.

Lemma ids_at_dict d a p :
  ids_at (PyDict d) (String a p)
  = match dict_get d (String a EmptyString) with
    | Some child => ids_at child p
    | None => None
    end.
Proof.
  unfold ids_at. rewrite node_at_dict.
  destruct (dict_get d (String a EmptyString)); reflexivity.
Qed.

Lemma node_at_nil p n : node_at (PyDict []) p = Some n -> p = EmptyString.
Proof. destruct p as [|a p]; [reflexivity|]. rewrite node_at_dict. discriminate. Qed.

Lemma ids_at_nil p : ids_at (PyDict []) p = None.
Proof. destruct p as [|a p]; [reflexivity|]. now rewrite ids_at_dict. Qed.

Lemma ids_at_child_or_empty o p :
  ids_at (child_or_empty o) p = match o with
                                | Some child => ids_at child p
                                | None => None
                                end.
Proof. destruct o; [reflexivity|apply ids_at_nil]. Qed.

Lemma char_key_inj (a b : ascii) : String a EmptyString = String b EmptyString -> a = b.
Proof. now intros [= ->]. Qed.

Lemma sentinel_not_char (a : ascii) : SENTINEL <> String a EmptyString.
Proof. discriminate. Qed.

Lemma is_prefix_empty w : is_prefix EmptyString w = true.
Proof. destruct w; reflexivity. Qed.

Lemma add_id_atoms l doc_id :
  forallb is_atom l = true -> forallb is_atom (add_id l doc_id) = true.
Proof.
  intros H. unfold add_id. destruct (existsb _ l); [exact H|].
  rewrite forallb_app, H. destruct doc_id; reflexivity.
Qed.

Lemma ids_or_empty_atoms s d :
  wf_node s (PyDict d) = true ->
  forallb is_atom (ids_or_empty (dict_get d SENTINEL)) = true.
Proof.
  intros Hwf. destruct (dict_get d SENTINEL) as [v|] eqn:E; [|reflexivity].
  now destruct (ids_or_empty_store _ _ _ Hwf E).
Qed.

Lemma is_ids_store s l : is_ids s (store s l) = forallb is_atom l.
Proof. destruct s; reflexivity. Qed.

Lemma ids_or_empty_Some_store s l : ids_or_empty (Some (store s l)) = l.
Proof. destruct s; reflexivity. Qed.

(** The two builders differ in how a node keeps its ids and in nothing else:
    what follows holds of any pair of functions that behave on well-formed
    nodes as lines 34-44 of trie_core.py and 24-30 of generate_trie.py do. *)
Section Insertion.

Variable s : id_store.
Variable add_chars : pyval -> list string -> atom -> result pyval.

Hypothesis add_chars_nil : forall d doc_id,
  wf_node s (PyDict d) = true ->
  add_chars (PyDict d) [] doc_id
  = Ok (PyDict (dict_set d SENTINEL
                  (store s (add_id (ids_or_empty (dict_get d SENTINEL)) doc_id)))).

Hypothesis add_chars_cons : forall d c cs doc_id,
  add_chars (PyDict d) (c :: cs) doc_id
  = child' ← add_chars (child_or_empty (dict_get d c)) cs doc_id;
    Ok (PyDict (dict_set d c child')).

(** One insertion: the trie stays well formed, the word's node gains the id
    unless it has it, every other id collection is as before, and the nodes
    are those there were and those on the word's path. *)
Lemma add_chars_spec w : forall t doc_id,
  wf_node s t = true ->
  exists t',
    add_chars t (chars w) doc_id = Ok t' /\
    wf_node s t' = true /\
    ids_at t' w = Some (store s (add_id (ids_or_empty (ids_at t w)) doc_id)) /\
    (forall p, p <> w -> ids_at t' p = ids_at t p) /\
    (forall p, is_Some (node_at t' p) <-> is_Some (node_at t p) \/ is_prefix p w = true).
Proof.
  induction w as [|a w IH]; intros t doc_id Hwf;
    destruct (wf_is_dict _ _ Hwf) as [d ->].
  - cbn [chars]. rewrite (add_chars_nil _ _ Hwf).
    eexists. split; [reflexivity|]. split; [|split; [|split]].
    + apply wf_set_ids; [exact Hwf|]. rewrite is_ids_store. apply add_id_atoms.
      now apply (ids_or_empty_atoms s).
    + rewrite !ids_at_root. now rewrite dict_get_set_eq.
    + intros [|b p] Hp; [congruence|]. rewrite !ids_at_dict.
      rewrite dict_get_set_ne; [reflexivity|apply sentinel_not_char].
    + intros [|b p].
      * rewrite !node_at_empty. split; intros _; [left|]; eexists; reflexivity.
      * rewrite !node_at_dict.
        rewrite dict_get_set_ne by apply sentinel_not_char. simpl.
        split; [now left|]. intros [H|H]; [exact H|discriminate H].
  - cbn [chars]. rewrite add_chars_cons.
    set (c := String a EmptyString).
    assert (Hchild : wf_node s (child_or_empty (dict_get d c)) = true).
    { destruct (dict_get d c) as [v|] eqn:E; [|reflexivity].
      now apply (wf_dict_child s d a). }
    destruct (IH _ doc_id Hchild) as (child' & Hadd & Hwf' & Hids & Hother & Hreach).
    rewrite Hadd. simpl. eexists. split; [reflexivity|]. split; [|split; [|split]].
    + now apply wf_set_child.
    + rewrite !ids_at_dict. fold c. rewrite dict_get_set_eq, Hids.
      now rewrite ids_at_child_or_empty.
    + intros [|b p] Hp.
      * rewrite !ids_at_root. apply dict_get_set_ne. subst c. discriminate.
      * rewrite !ids_at_dict. destruct (ascii_dec a b) as [<-|Hab].
        -- fold c. rewrite dict_get_set_eq. rewrite Hother by congruence.
           now rewrite ids_at_child_or_empty.
        -- rewrite dict_get_set_ne; [reflexivity|]. subst c. congruence.
    + intros [|b p].
      * rewrite !node_at_empty. split; intros _; [left|]; eexists; reflexivity.
      * rewrite !node_at_dict. cbn [is_prefix]. destruct (ascii_dec a b) as [<-|Hab].
        -- fold c. rewrite dict_get_set_eq, Ascii.eqb_refl. simpl. rewrite Hreach.
           destruct (dict_get d c) as [v|] eqn:E; simpl; [reflexivity|].
           split; [|intros [[? H]|H]; [discriminate H|now right]].
           intros [[n Hn]|H]; [|now right].
           right. apply node_at_nil in Hn. subst p. apply is_prefix_empty.
        -- rewrite dict_get_set_ne by (subst c; congruence).
           assert (Ascii.eqb b a = false) as -> by (apply Ascii.eqb_neq; congruence).
           simpl. split; [now left|]. intros [H|H]; [exact H|discriminate H].
Qed.

End Insertion.

(** ** Sequences without repetitions *)

Lemma atom_eqb_eq x y : atom_eqb x y = true <-> x = y.
Proof.
  destruct x as [s|z], y as [s'|z']; simpl; split; try discriminate.
  - intros H. apply String.eqb_eq in H. now subst.
  - intros [= ->]. apply String.eqb_refl.
  - intros H. apply Z.eqb_eq in H. now subst.
  - intros [= ->]. apply Z.eqb_refl.
Qed.

Lemma atom_eqb_refl x : atom_eqb x x = true.
Proof. now apply atom_eqb_eq. Qed.

Lemma existsb_atom_eqb x l : existsb (atom_eqb x) l = true <-> In x l.
Proof.
  rewrite existsb_exists. split.
  - intros (y & Hy & E). apply atom_eqb_eq in E. now subst.
  - intros H. exists x. split; [exact H|apply atom_eqb_refl].
Qed.

Lemma py_eq_atom_of_atom x y : py_eq_atom x (py_of_atom y) = atom_eqb x y.
Proof. destruct x, y; reflexivity. Qed.

Lemma existsb_py_eq_atom x l :
  existsb (py_eq_atom x) (map py_of_atom l) = existsb (atom_eqb x) l.
Proof.
  induction l as [|y l IH]; simpl; [reflexivity|].
  now rewrite py_eq_atom_of_atom, IH.
Qed.

Lemma first_seen_In x l : In x (first_seen l) <-> In x l.
Proof.
  induction l as [|y l IH]; simpl; [tauto|].
  rewrite filter_In, IH, negb_true_iff. split.
  - tauto.
  - intros [->|H]; [now left|].
    destruct (atom_eqb y x) eqn:E; [left; now apply atom_eqb_eq|right; tauto].
Qed.

Lemma first_seen_NoDup l : List.NoDup (first_seen l).
Proof.
  induction l as [|y l IH]; simpl; constructor.
  - rewrite filter_In, atom_eqb_refl. simpl. intros [_ H]. discriminate H.
  - now apply List.NoDup_filter.
Qed.

Lemma existsb_first_seen x l :
  existsb (atom_eqb x) (first_seen l) = existsb (atom_eqb x) l.
Proof.
  apply eq_true_iff_eq. rewrite !existsb_atom_eqb. apply first_seen_In.
Qed.

Lemma first_seen_snoc l x :
  first_seen (l ++ [x])
  = if existsb (atom_eqb x) l then first_seen l else first_seen l ++ [x].
Proof.
  induction l as [|y l IH]; simpl; [reflexivity|]. rewrite IH.
  destruct (atom_eqb x y) eqn:Exy; simpl.
  - apply atom_eqb_eq in Exy. subst y.
    destruct (existsb (atom_eqb x) l); [reflexivity|].
    rewrite List.filter_app. simpl. rewrite atom_eqb_refl. simpl.
    now rewrite app_nil_r.
  - destruct (existsb (atom_eqb x) l); [reflexivity|].
    rewrite List.filter_app. simpl.
    assert (atom_eqb y x = false) as ->.
    { destruct (atom_eqb y x) eqn:E; [|reflexivity].
      apply atom_eqb_eq in E. subst y. now rewrite atom_eqb_refl in Exy. }
    reflexivity.
Qed.

Lemma add_id_first_seen l x :
  add_id (map py_of_atom (first_seen l)) x = map py_of_atom (first_seen (l ++ [x])).
Proof.
  unfold add_id. rewrite existsb_py_eq_atom, existsb_first_seen, first_seen_snoc.
  destruct (existsb (atom_eqb x) l); [reflexivity|].
  now rewrite map_app.
Qed.

(** ** Sequences of insertions *)

Lemma tokens_snoc log e :
  tokens (log ++ [e])
  = tokens log ++ (if nonempty (clean (fst e)) then [clean (fst e)] else []).
Proof.
  unfold tokens. rewrite map_app, List.filter_app. simpl.
  destruct (nonempty (clean (fst e))); reflexivity.
Qed.

Lemma ids_of_snoc p log e :
  ids_of p (log ++ [e])
  = ids_of p log ++
    (if nonempty (clean (fst e)) && String.eqb (clean (fst e)) p then [snd e] else []).
Proof.
  unfold ids_of. rewrite List.filter_app, map_app. simpl.
  destruct (nonempty (clean (fst e)) && String.eqb (clean (fst e)) p); reflexivity.
Qed.

Lemma ids_of_tokens p log : ids_of p log <> [] <-> In p (tokens log).
Proof.
  unfold ids_of, tokens. rewrite filter_In, in_map_iff. split.
  - intros H. destruct (List.filter _ log) as [|e l] eqn:E; [now contradiction H|].
    assert (Hin : In e (List.filter
      (fun e => nonempty (clean (fst e)) && String.eqb (clean (fst e)) p) log))
      by (rewrite E; now left).
    apply filter_In in Hin as [Hin Hc]. apply andb_true_iff in Hc as [Hne Heq].
    apply String.eqb_eq in Heq. subst p. split; [|exact Hne]. now exists e.
  - intros [(e & He & Hin) Hne] H. apply map_eq_nil in H.
    assert (Hf : In e (List.filter
      (fun e => nonempty (clean (fst e)) && String.eqb (clean (fst e)) p) log)).
    { apply filter_In. split; [exact Hin|]. subst p.
      now rewrite Hne, String.eqb_refl. }
    rewrite H in Hf. destruct Hf.
Qed.

Lemma ids_after_snoc s p log e :
  ids_after s p (log ++ [e])
  = if nonempty (clean (fst e)) && String.eqb (clean (fst e)) p
    then Some (store s (add_id (ids_or_empty (ids_after s p log)) (snd e)))
    else ids_after s p log.
Proof.
  unfold ids_after. rewrite ids_of_snoc.
  generalize (ids_of p log) as l. intros l.
  destruct (nonempty (clean (fst e)) && String.eqb (clean (fst e)) p).
  - destruct l as [|a l]; [reflexivity|].
    rewrite ids_or_empty_Some_store, add_id_first_seen. reflexivity.
  - now rewrite app_nil_r.
Qed.

Lemma add_all_app add_word t l1 l2 :
  add_all add_word t (l1 ++ l2) = t1 ← add_all add_word t l1; add_all add_word t1 l2.
Proof.
  revert t. induction l1 as [|[word doc_id] l1 IH]; intros t; simpl; [reflexivity|].
  destruct (add_word t word doc_id) as [t'|e]; simpl; [apply IH|reflexivity].
Qed.

Section Log.

Variable s : id_store.
Variable add_chars : pyval -> list string -> atom -> result pyval.
Variable add_word : pyval -> string -> atom -> result pyval.

Hypothesis add_chars_nil : forall d doc_id,
  wf_node s (PyDict d) = true ->
  add_chars (PyDict d) [] doc_id
  = Ok (PyDict (dict_set d SENTINEL
                  (store s (add_id (ids_or_empty (dict_get d SENTINEL)) doc_id)))).

Hypothesis add_chars_cons : forall d c cs doc_id,
  add_chars (PyDict d) (c :: cs) doc_id
  = child' ← add_chars (child_or_empty (dict_get d c)) cs doc_id;
    Ok (PyDict (dict_set d c child')).

Hypothesis add_word_eq : forall t word doc_id,
  add_word t word doc_id
  = if nonempty (clean word) then add_chars t (chars (clean word)) doc_id else Ok t.

Lemma add_word_spec t word doc_id :
  wf_node s t = true ->
  exists t',
    add_word t word doc_id = Ok t' /\
    wf_node s t' = true /\
    (forall p, ids_at t' p
               = if nonempty (clean word) && String.eqb (clean word) p
                 then Some (store s (add_id (ids_or_empty (ids_at t p)) doc_id))
                 else ids_at t p) /\
    (forall p, is_Some (node_at t' p)
               <-> is_Some (node_at t p) \/
                   (nonempty (clean word) = true /\ is_prefix p (clean word) = true)).
Proof.
  intros Hwf. rewrite add_word_eq. destruct (nonempty (clean word)) eqn:Hne.
  - destruct (add_chars_spec s add_chars add_chars_nil add_chars_cons
                (clean word) t doc_id Hwf) as (t' & Hadd & Hwf' & Hids & Hother & Hreach).
    exists t'. split; [exact Hadd|]. split; [exact Hwf'|]. split.
    + intros p. simpl. destruct (String.eqb (clean word) p) eqn:E.
      * apply String.eqb_eq in E. subst p. exact Hids.
      * apply String.eqb_neq in E. apply Hother. congruence.
    + intros p. rewrite Hreach. split; intros [H|H]; auto. right. tauto.
  - exists t. split; [reflexivity|]. split; [exact Hwf|]. split; [reflexivity|].
    intros p. split; [now left|]. intros [H|[H _]]; [exact H|discriminate H].
Qed.

(** The trie a sequence of insertions builds from the empty dictionary. *)
Lemma add_all_spec log :
  exists t,
    add_all add_word (PyDict []) log = Ok t /\
    wf_node s t = true /\
    (forall p, ids_at t p = ids_after s p log) /\
    (forall p, is_Some (node_at t p)
               <-> p = EmptyString \/
                   exists tok, In tok (tokens log) /\ is_prefix p tok = true).
Proof.
  induction log as [|[word doc_id] log IH] using rev_ind.
  - exists (PyDict []). split; [reflexivity|]. split; [reflexivity|]. split.
    + intros p. apply ids_at_nil.
    + intros p. split.
      * intros [n Hn]. left. now apply node_at_nil in Hn.
      * intros [->|(tok & [] & _)]. eexists. reflexivity.
  - destruct IH as (t & Hall & Hwf & Hids & Hreach).
    destruct (add_word_spec t word doc_id Hwf) as (t' & Hadd & Hwf' & Hids' & Hreach').
    exists t'. split; [|split; [exact Hwf'|split]].
    + rewrite add_all_app, Hall. simpl. now rewrite Hadd.
    + intros p. rewrite Hids', ids_after_snoc, Hids. reflexivity.
    + intros p. rewrite Hreach', Hreach, tokens_snoc. simpl. split.
      * intros [[H|(tok & Hin & Hp)]|[Hne Hp]]; [now left| |].
        -- right. exists tok. split; [|exact Hp]. apply in_or_app. now left.
        -- right. exists (clean word). split; [|exact Hp].
           apply in_or_app. right. rewrite Hne. now left.
      * intros [H|(tok & Hin & Hp)]; [now left; left|].
        apply in_app_or in Hin as [Hin|Hin].
        -- left. right. now exists tok.
        -- destruct (nonempty (clean word)) eqn:Hne; [|destruct Hin].
           destruct Hin as [<-|[]]. right. split; [reflexivity|exact Hp].
Qed.

End Log.

(** ** Normalisation *)

Lemma is_space_lower c : is_space (lower_char c) = is_space c.
Proof. destruct c as [[] [] [] [] [] [] [] []]; reflexivity. Qed.

Lemma lstrip_lower s : lstrip (lower s) = lower (lstrip s).
Proof.
  induction s as [|c s IH]; simpl; [reflexivity|].
  rewrite is_space_lower. destruct (is_space c); [exact IH|reflexivity].
Qed.

Lemma rstrip_lower s : rstrip (lower s) = lower (rstrip s).
Proof.
  induction s as [|c s IH]; simpl; [reflexivity|].
  rewrite IH, is_space_lower.
  destruct (rstrip s); simpl; [destruct (is_space c)|]; reflexivity.
Qed.

Lemma strip_lower s : strip (lower s) = lower (strip s).
Proof. unfold strip. now rewrite lstrip_lower, rstrip_lower. Qed.

Lemma lower_empty s : String.eqb (lower s) EmptyString = String.eqb s EmptyString.
Proof. destruct s; reflexivity. Qed.

Lemma clean_empty word :
  String.eqb (clean word) EmptyString = String.eqb (strip word) EmptyString.
Proof. unfold clean. now rewrite strip_lower, lower_empty. Qed.

(** ** The two builders as sequences of insertions *)

Lemma add_to_trie_eq t word doc_id :
  TrieManager._add_to_trie t word doc_id
  = if nonempty (clean word) then TrieManager.add_chars t (chars (clean word)) doc_id
    else Ok t.
Proof.
  unfold TrieManager._add_to_trie, nonempty, clean.
  destruct (String.eqb (strip (lower word)) EmptyString); reflexivity.
Qed.

Lemma add_ingredient_eq t word doc_id :
  add_ingredient t word doc_id
  = if nonempty (clean word) then GenerateTrie.add_chars t (chars (clean word)) doc_id
    else Ok t.
Proof.
  unfold add_ingredient, GenerateTrie.add_to_trie, nonempty.
  rewrite clean_empty. destruct (String.eqb (strip word) EmptyString); reflexivity.
Qed.

Lemma add_items_add_all t items doc_id :
  TrieManager.add_items t items doc_id
  = add_all TrieManager._add_to_trie t (map (fun item => (item, doc_id)) items).
Proof.
  revert t. induction items as [|item items IH]; intros t; simpl; [reflexivity|].
  destruct (TrieManager._add_to_trie t item doc_id); simpl; [apply IH|reflexivity].
Qed.

Lemma add_ingredients_add_all t items doc_id :
  GenerateTrie.add_ingredients t items doc_id
  = add_all add_ingredient t (map (fun item => (item, doc_id)) items).
Proof.
  revert t. induction items as [|item items IH]; intros t; simpl; [reflexivity|].
  assert (E : add_ingredient t item doc_id
              = if negb (String.eqb (strip item) EmptyString)
                then GenerateTrie.add_to_trie t item doc_id else Ok t) by reflexivity.
  rewrite E.
  destruct (negb (String.eqb (strip item) EmptyString)); simpl; [|apply IH].
  destruct (GenerateTrie.add_to_trie t item doc_id); simpl; [apply IH|reflexivity].
Qed.

Lemma py_split_nonempty s sep :
  sep <> EmptyString -> py_split s sep = Ok (split_from sep s 0 EmptyString).
Proof. destruct sep; [congruence|reflexivity]. Qed.

Lemma add_rows_add_all sep t rows :
  sep <> EmptyString ->
  TrieManager.add_rows sep t rows
  = add_all TrieManager._add_to_trie t (insertions sep rows).
Proof.
  intros Hsep. revert t.
  induction rows as [|[doc_id [data_str|]] rows IH]; intros t; simpl; [reflexivity| |apply IH].
  rewrite (py_split_nonempty _ _ Hsep). simpl.
  rewrite add_all_app, add_items_add_all.
  destruct (add_all _ t _); simpl; [apply IH|reflexivity].
Qed.

Lemma gen_add_rows_add_all t rows :
  GenerateTrie.add_rows t rows
  = add_all add_ingredient t (insertions GenerateTrie.SEPARATOR rows).
Proof.
  revert t.
  induction rows as [|[doc_id [data_str|]] rows IH]; intros t; simpl; [reflexivity| |apply IH].
  rewrite add_all_app, add_ingredients_add_all.
  destruct (add_all _ t _); simpl; [apply IH|reflexivity].
Qed.

Lemma build_add_all sep rows :
  sep <> EmptyString ->
  TrieManager.build sep rows
  = add_all TrieManager._add_to_trie (PyDict []) (insertions sep rows).
Proof. apply add_rows_add_all. Qed.

Lemma gen_build_add_all rows :
  GenerateTrie.build rows
  = add_all add_ingredient (PyDict []) (insertions GenerateTrie.SEPARATOR rows).
Proof. apply gen_add_rows_add_all. Qed.

(** The trie [TrieManager] builds. *)
Lemma trie_spec log :
  exists t,
    add_all TrieManager._add_to_trie (PyDict []) log = Ok t /\
    wf_trie t = true /\
    (forall p, ids_at t p = ids_after AsList p log) /\
    (forall p, is_Some (node_at t p)
               <-> p = EmptyString \/
                   exists tok, In tok (tokens log) /\ is_prefix p tok = true).
Proof.
  apply (add_all_spec AsList TrieManager.add_chars).
  - intros d doc_id Hwf. now apply add_ids_dict.
  - apply add_chars_dict.
  - apply add_to_trie_eq.
Qed.

(** The trie generate_trie.py builds. *)
Lemma gen_trie_spec log :
  exists t,
    add_all add_ingredient (PyDict []) log = Ok t /\
    wf_node AsSet t = true /\
    (forall p, ids_at t p = ids_after AsSet p log) /\
    (forall p, is_Some (node_at t p)
               <-> p = EmptyString \/
                   exists tok, In tok (tokens log) /\ is_prefix p tok = true).
Proof.
  apply (add_all_spec AsSet GenerateTrie.add_chars).
  - intros d doc_id Hwf. now apply gen_add_ids_dict.
  - apply gen_add_chars_dict.
  - apply add_ingredient_eq.
Qed.

Lemma carries_ids_at s t p n :
  wf_node s t = true -> node_at t p = Some n ->
  carries_ids n = true <-> is_Some (ids_at t p).
Proof.
  intros Hwf Hn. pose proof (node_at_wf _ _ _ _ Hwf Hn) as Hwfn.
  destruct (wf_is_dict _ _ Hwfn) as [d ->].
  unfold ids_at. rewrite Hn. unfold carries_ids. simpl. unfold dict_has.
  destruct (dict_get d SENTINEL); split; intros H; try reflexivity; try discriminate.
  - eexists; reflexivity.
  - destruct H as [? [=]].
Qed.

Lemma ids_after_Some s p log :
  is_Some (ids_after s p log) <-> In p (tokens log).
Proof.
  rewrite <- ids_of_tokens. unfold ids_after.
  destruct (ids_of p log); split; intros H; try congruence.
  - destruct H as [? [=]].
  - eexists; reflexivity.
Qed.

(** ** The invariants of the builder *)

(** C9.  Whatever words and ids [_add_to_trie] is given, starting from the
    empty dictionary, it does not fail, and the trie it builds is well
    formed: every key of every dictionary is the sentinel or one character
    long; the sentinel is seven characters long, so it is no edge; and the
    node a word leads to carries the sentinel key exactly when the word is
    one of the tokens inserted.  [build], the loop of lines 64-73, is such a
    sequence of calls. *)
Theorem builder_keys_and_terminals (log : list (string * atom)) :
  exists t,
    add_all TrieManager._add_to_trie (PyDict []) log = Ok t /\
    wf_trie t = true /\
    keys_ok t = true /\
    String.length SENTINEL = 7 /\
    (forall k, is_char k = true -> k <> SENTINEL) /\
    (forall p n, node_at t p = Some n ->
       (carries_ids n = true <-> In p (tokens log))) /\
    (forall p, In p (tokens log) -> is_Some (node_at t p)) /\
    (forall sep rows, log = insertions sep rows -> sep <> EmptyString ->
       TrieManager.build sep rows = Ok t).
Proof.
  destruct (trie_spec log) as (t & Hall & Hwf & Hids & Hreach).
  exists t. split; [exact Hall|]. split; [exact Hwf|].
  split; [now apply (wf_keys_ok AsList)|].
  split; [reflexivity|]. split; [|split; [|split]].
  - intros k Hk ->. discriminate Hk.
  - intros p n Hn. rewrite (carries_ids_at _ _ _ _ Hwf Hn), Hids.
    apply ids_after_Some.
  - intros p Hp. apply Hreach. right. exists p. split; [exact Hp|].
    clear. induction p as [|a p IH]; simpl; [reflexivity|].
    now rewrite Ascii.eqb_refl.
  - intros sep rows -> Hsep. now rewrite build_add_all.
Qed.

(** ** The query *)

Lemma dfs_words s node : forall current_word results,
  wf_node s node = true ->
  TrieManager._dfs node current_word results
  = Ok (results ++ map PyStr (words node current_word)).
Proof.
  induction node as [| | | |l _|l _|l _|d IH] using pyval_ind;
    intros cur results Hwf; try discriminate Hwf.
  cbn [TrieManager._dfs words py_contains]. simpl mbind.
  set (has := dict_has d SENTINEL).
  assert (Hent : forall kv, In kv d ->
            String.eqb (fst kv) SENTINEL = false -> wf_node s (snd kv) = true).
  { intros [k v] Hin E. pose proof (wf_dict_In _ _ _ _ Hwf Hin) as H.
    simpl in E. rewrite E in H. tauto. }
  clear Hwf. rewrite map_app, app_assoc.
  assert ((if has then results ++ [PyStr cur] else results)
          = results ++ map PyStr (if has then [cur] else [])) as ->.
  { destruct has; simpl; [reflexivity|now rewrite app_nil_r]. }
  generalize (results ++ map PyStr (if has then [cur] else [])).
  clear has. intros acc. revert acc.
  induction d as [|[k v] d IHd]; intros acc; simpl.
  - now rewrite app_nil_r.
  - apply List.Forall_cons_iff in IH as [IHv IHrest].
    destruct (String.eqb k SENTINEL) eqn:E; simpl.
    + apply IHd; [exact IHrest|]. intros kv Hin. apply Hent. now right.
    + simpl in IHv. rewrite IHv by (apply (Hent (k, v)); [now left|exact E]).
      simpl. rewrite IHd; [|exact IHrest|intros kv Hin; apply Hent; now right].
      now rewrite map_app, app_assoc.
Qed.

Lemma lower_app p q : lower (p +:+ q) = lower p +:+ lower q.
Proof.
  induction p as [|a p IH]; [reflexivity|].
  rewrite append_cons. simpl. rewrite IH. reflexivity.
Qed.

Lemma is_prefix_app p q : is_prefix p (p +:+ q) = true.
Proof.
  induction p as [|a p IH]; [apply is_prefix_empty|].
  rewrite append_cons. simpl. now rewrite Ascii.eqb_refl.
Qed.

Lemma is_prefix_split p w : is_prefix p w = true -> exists q, w = p +:+ q.
Proof.
  revert w. induction p as [|a p IH]; intros w H.
  - exists w. reflexivity.
  - destruct w as [|b w]; [discriminate H|]. simpl in H.
    apply andb_true_iff in H as [Hab Hp]. apply Ascii.eqb_eq in Hab. subst b.
    destruct (IH _ Hp) as [q ->]. exists q. reflexivity.
Qed.

Lemma ids_at_app t p q n : node_at t p = Some n -> ids_at t (p +:+ q) = ids_at n q.
Proof. intros H. unfold ids_at. now rewrite node_at_app, H. Qed.

(** The words below a node are the current word extended by the paths that
    end at a node with ids. *)
Lemma words_spec s node : forall current_word w,
  wf_node s node = true ->
  In w (words node current_word)
  <-> exists q, w = current_word +:+ q /\ is_Some (ids_at node q).
Proof.
  induction node as [| | | |l _|l _|l _|d IH] using pyval_ind;
    intros cur w Hwf; try discriminate Hwf.
  cbn [words]. rewrite in_app_iff, in_flat_map. rewrite List.Forall_forall in IH.
  split.
  - intros [H|([k v] & Hin & H)].
    + exists EmptyString. rewrite ids_at_root, append_empty_r.
      unfold dict_has in H. destruct (dict_get d SENTINEL); [|destruct H].
      destruct H as [<-|[]]. split; [reflexivity|eexists; reflexivity].
    + simpl in H. pose proof (wf_dict_In _ _ _ _ Hwf Hin) as Hkv.
      destruct (String.eqb k SENTINEL); [destruct H|]. destruct Hkv as [Hk Hv].
      apply (IH _ Hin) in H as (q & -> & Hq); [|exact Hv].
      destruct k as [|a [|b k]]; try discriminate Hk.
      exists (String a q). split; [now rewrite append_assoc|].
      rewrite ids_at_dict.
      rewrite (In_dict_get _ _ _ (wf_dict_distinct _ _ Hwf) Hin). exact Hq.
  - intros (q & -> & Hq). destruct q as [|a q].
    + left. rewrite ids_at_root in Hq. unfold dict_has.
      destruct (dict_get d SENTINEL); [|now destruct Hq as [? [=]]].
      rewrite append_empty_r. now left.
    + right. rewrite ids_at_dict in Hq.
      destruct (dict_get d (String a EmptyString)) as [child|] eqn:E;
        [|now destruct Hq as [? [=]]].
      exists (String a EmptyString, child). split; [now apply dict_get_In|].
      cbn [fst snd]. rewrite char_not_sentinel. cbn [negb].
      apply (IH _ (dict_get_In _ _ _ E)).
      * now apply (wf_dict_child s d a).
      * exists q. split; [now rewrite append_assoc|exact Hq].
Qed.

Lemma nonempty_length p :
  String.eqb p EmptyString = false -> Nat.ltb (String.length p) 1 = false.
Proof. destruct p; [discriminate|reflexivity]. Qed.

(** With no limit on the recursion a search for a string in a well-formed
    trie returns the words below the node the prefix leads to. *)
Lemma search_matches self p :
  wf_trie (TrieManager.trie_root self) = true ->
  TrieManager.search self (PyStr p)
  = Ok (PyList (map PyStr (matches (TrieManager.trie_root self) p))).
Proof.
  intros Hwf. unfold TrieManager.search, matches. cbn [py_truthy py_len py_lower].
  destruct (String.eqb p EmptyString) eqn:E; [reflexivity|].
  cbn [negb mbind result_bind]. rewrite (nonempty_length _ E).
  rewrite (walk_wf AsList _ _ Hwf). cbn [mbind result_bind].
  destruct (node_at (TrieManager.trie_root self) (lower p)) as [n|] eqn:En; [|reflexivity].
  rewrite (dfs_words AsList) by exact (node_at_wf _ _ _ _ Hwf En). reflexivity.
Qed.

Lemma matches_spec log t :
  add_all TrieManager._add_to_trie (PyDict []) log = Ok t ->
  forall p w,
    In w (matches t p)
    <-> p <> EmptyString /\ In w (tokens log) /\ is_prefix (lower p) w = true.
Proof.
  intros Hall p w.
  destruct (trie_spec log) as (t' & Hall' & Hwf & Hids & Hreach).
  rewrite Hall in Hall'. injection Hall' as <-.
  unfold matches. destruct (String.eqb p EmptyString) eqn:E.
  { apply String.eqb_eq in E. split; [intros []|]. intros [H _]. congruence. }
  apply String.eqb_neq in E. split.
  - destruct (node_at t (lower p)) as [n|] eqn:En; [|intros []].
    intros H. apply (words_spec AsList) in H as (q & -> & Hq);
      [|exact (node_at_wf _ _ _ _ Hwf En)].
    split; [exact E|]. split; [|apply is_prefix_app].
    rewrite <- (ids_at_app _ _ q _ En), Hids in Hq. now apply ids_after_Some in Hq.
  - intros (_ & Htok & Hpre). apply is_prefix_split in Hpre as [q ->].
    apply (ids_after_Some AsList) in Htok. rewrite <- Hids in Htok.
    assert (Hn : is_Some (node_at t (lower p))).
    { unfold ids_at in Htok. rewrite node_at_app in Htok.
      destruct (node_at t (lower p)); [eexists; reflexivity|now destruct Htok as [? [=]]]. }
    destruct Hn as [n Hn]. rewrite Hn.
    apply (words_spec AsList); [exact (node_at_wf _ _ _ _ Hwf Hn)|].
    exists q. split; [reflexivity|]. now rewrite <- (ids_at_app _ _ q _ Hn).
Qed.

(** ** The artifact decodes to the trie it was dumped from *)

Lemma parse_string_escape_char c tail :
  parse_string (escape_char c +:+ tail)
  = '(t, rest) ← parse_string tail; Some (String c t, rest).
Proof. destruct c as [[] [] [] [] [] [] [] []]; reflexivity. Qed.

Lemma parse_string_escape s rest :
  parse_string (escape s +:+ String dquote rest) = Some (s, rest).
Proof.
  induction s as [|c s IH]; [reflexivity|].
  cbn [escape]. rewrite append_assoc, parse_string_escape_char, IH. reflexivity.
Qed.

Lemma to_uint_normal p : Decimal.unorm (Pos.to_uint p) = Pos.to_uint p.
Proof.
  rewrite <- DecimalPos.Unsigned.to_of, DecimalPos.Unsigned.of_to. reflexivity.
Qed.

Lemma to_uint_no_leading_zero p d : Pos.to_uint p <> Decimal.D0 d.
Proof.
  intros E. pose proof (to_uint_normal p) as H. rewrite E in H.
  unfold Decimal.unorm in H.
  destruct (Decimal.nzhead (Decimal.D0 d)) eqn:En; try discriminate H.
  - injection H as <-. now apply (DecimalPos.Unsigned.to_uint_nonzero p).
  - now apply DecimalFacts.nzhead_nonzero in En.
Qed.

Lemma take_digits_uint d rest :
  closes_item rest = true ->
  take_digits (NilEmpty.string_of_uint d +:+ rest) = (NilEmpty.string_of_uint d, rest).
Proof.
  intros Hrest. induction d; cbn [NilEmpty.string_of_uint];
    try (rewrite append_cons; cbn [take_digits]; rewrite IHd; reflexivity).
  destruct rest as [|c rest]; [discriminate Hrest|].
  destruct c as [[] [] [] [] [] [] [] []]; try discriminate Hrest; reflexivity.
Qed.

Lemma parse_digits_uint d rest :
  closes_item rest = true -> d <> Decimal.Nil -> (forall d', d <> Decimal.D0 d') ->
  parse_digits (NilEmpty.string_of_uint d +:+ rest) = Some (Z.of_uint d, rest).
Proof.
  intros Hrest Hnil Hzero. unfold parse_digits.
  rewrite (take_digits_uint _ _ Hrest).
  assert (Hint : NilZero.int_of_string (NilEmpty.string_of_uint d) = Some (Decimal.Pos d)).
  { pose proof (NilEmpty.usu d) as H.
    destruct d; try congruence; cbn [NilEmpty.string_of_uint] in *;
      unfold NilZero.int_of_string, NilZero.uint_of_string;
      cbn [Ascii.eqb Bool.eqb]; rewrite H; reflexivity. }
  destruct rest as [|c rest]; [discriminate Hrest|].
  destruct c as [[] [] [] [] [] [] [] []]; try discriminate Hrest;
    destruct d; try congruence; try (now contradiction (Hzero d));
    cbn [NilEmpty.string_of_uint] in *; rewrite Hint; reflexivity.
Qed.

Lemma parse_int_text z rest :
  closes_item rest = true -> parse_int (int_text z +:+ rest) = Some (z, rest).
Proof.
  intros Hrest. unfold int_text.
  destruct z as [|p|p]; cbn [Z.to_int NilZero.string_of_int].
  - destruct rest as [|c rest]; [discriminate Hrest|].
    destruct c as [[] [] [] [] [] [] [] []]; try discriminate Hrest; reflexivity.
  - pose proof (DecimalPos.Unsigned.to_uint_nonnil p) as Hnil.
    pose proof (to_uint_no_leading_zero p) as Hzero.
    pose proof (DecimalZ.of_to (Z.pos p)) as Hof. cbn [Z.to_int Z.of_int] in Hof.
    pose proof (parse_digits_uint _ _ Hrest Hnil Hzero) as H. rewrite Hof in H.
    unfold NilZero.string_of_uint, parse_int.
    destruct (Pos.to_uint p); try congruence; exact H.
  - pose proof (DecimalPos.Unsigned.to_uint_nonnil p) as Hnil.
    pose proof (to_uint_no_leading_zero p) as Hzero.
    pose proof (DecimalZ.of_to (Z.pos p)) as Hof. cbn [Z.to_int Z.of_int] in Hof.
    pose proof (parse_digits_uint _ _ Hrest Hnil Hzero) as H. rewrite Hof in H.
    rewrite append_cons. unfold parse_int.
    assert (Hs : NilZero.string_of_uint (Pos.to_uint p)
                 = NilEmpty.string_of_uint (Pos.to_uint p)).
    { unfold NilZero.string_of_uint. destruct (Pos.to_uint p); congruence. }
    rewrite Hs, H. reflexivity.
Qed.

Lemma iterencode_list x l :
  iterencode (PyList (x :: l)) = elems_events iterencode (x :: l) "[".
Proof. reflexivity. Qed.

Lemma iterencode_dict kv d :
  iterencode (PyDict (kv :: d)) = Chunk "{" :: members_events iterencode (kv :: d) true.
Proof. reflexivity. Qed.

Lemma written_app e1 e2 :
  snd (written e1) = None ->
  written (e1 ++ e2) = (fst (written e1) ++ fst (written e2), snd (written e2)).
Proof.
  induction e1 as [|[t|e] e1 IH]; simpl.
  - intros _. now destruct (written e2).
  - destruct (written e1) as [ts o] eqn:E1. simpl. intros H.
    rewrite (IH H). reflexivity.
  - discriminate.
Qed.

Lemma concat_text_app l1 l2 : concat_text (l1 ++ l2) = concat_text l1 +:+ concat_text l2.
Proof.
  induction l1 as [|t l1 IH]; simpl; [reflexivity|]. now rewrite IH, append_assoc.
Qed.

Lemma text_of_app e1 e2 :
  snd (written e1) = None -> text_of (e1 ++ e2) = text_of e1 +:+ text_of e2.
Proof.
  intros H. unfold text_of. rewrite (written_app _ _ H). apply concat_text_app.
Qed.

Lemma pure_app e1 e2 :
  snd (written e1) = None -> snd (written e2) = None -> snd (written (e1 ++ e2)) = None.
Proof. intros H1 H2. now rewrite (written_app _ _ H1). Qed.

Lemma text_of_chunk t evs : text_of (Chunk t :: evs) = t +:+ text_of evs.
Proof. unfold text_of. simpl. now destruct (written evs). Qed.

Lemma pure_chunk t evs : snd (written (Chunk t :: evs)) = snd (written evs).
Proof. simpl. now destruct (written evs). Qed.

Lemma int_text_head z :
  exists c s, int_text z = String c s /\ (is_digit c || Ascii.eqb c "-") = true.
Proof.
  unfold int_text. destruct z as [|p|p]; cbn [Z.to_int NilZero.string_of_int].
  - eexists _, _. split; reflexivity.
  - pose proof (DecimalPos.Unsigned.to_uint_nonnil p) as Hnil.
    unfold NilZero.string_of_uint.
    destruct (Pos.to_uint p); try congruence; eexists _, _; split; reflexivity.
  - eexists _, _. split; reflexivity.
Qed.

Lemma parse_value_number fuel c s :
  (is_digit c || Ascii.eqb c "-") = true ->
  parse_value (S fuel) (String c s)
  = '(z, rest) ← parse_int (String c s); Some (PyInt z, rest).
Proof.
  destruct c as [[] [] [] [] [] [] [] []]; intros H; try discriminate H; reflexivity.
Qed.

Lemma number_not_ws c : (is_digit c || Ascii.eqb c "-") = true -> is_json_ws c = false.
Proof.
  destruct c as [[] [] [] [] [] [] [] []]; intros H; try discriminate H; reflexivity.
Qed.

Lemma skip_ws_head c s : is_json_ws c = false -> skip_ws (String c s) = String c s.
Proof. intros H. simpl. now rewrite H. Qed.

Lemma parse_value_str fuel s rest :
  parse_value (S fuel) (encode_str s +:+ rest) = Some (PyStr s, rest).
Proof.
  unfold encode_str. rewrite append_cons, append_assoc, append_cons.
  change (EmptyString +:+ rest) with rest.
  cbn [parse_value]. change (Ascii.eqb dquote dquote) with true. cbn iota.
  now rewrite parse_string_escape.
Qed.

(** An id is written as a text that starts with a digit, a minus sign or a
    quote, and reads back as the id. *)
Lemma atom_text x :
  is_atom x = true ->
  exists t c s, scalar_text x = Some t /\ t = String c s /\ atom_head c = true.
Proof.
  intros Hx. destruct x as [| |z|s0| | | |]; try discriminate Hx.
  - destruct (int_text_head z) as (c & s & E & Hc).
    exists (int_text z), c, s. split; [reflexivity|]. split; [exact E|].
    unfold atom_head. now rewrite Hc.
  - exists (encode_str s0), dquote, (escape s0 +:+ String dquote EmptyString).
    split; [reflexivity|]. split; reflexivity.
Qed.

Lemma atom_head_not_ws c : atom_head c = true -> is_json_ws c = false.
Proof.
  destruct c as [[] [] [] [] [] [] [] []]; intros H; try discriminate H; reflexivity.
Qed.

Lemma parse_value_open_list fuel c u :
  atom_head c = true ->
  parse_value (S fuel) (String "[" (String c u)) = parse_elements fuel (String c u) [].
Proof.
  destruct c as [[] [] [] [] [] [] [] []]; intros H; try discriminate H; reflexivity.
Qed.

Lemma parse_atom x t rest fuel :
  is_atom x = true -> scalar_text x = Some t -> closes_item rest = true ->
  1 <= fuel ->
  parse_value fuel (t +:+ rest) = Some (x, rest).
Proof.
  intros Hx Ht Hrest Hfuel. destruct fuel as [|fuel]; [lia|].
  destruct x as [| |z|s0| | | |]; try discriminate Hx;
    injection Ht as <-.
  - destruct (int_text_head z) as (c & s & E & Hc).
    rewrite E, append_cons, (parse_value_number _ _ _ Hc).
    rewrite <- append_cons, <- E, (parse_int_text _ _ Hrest). reflexivity.
  - apply parse_value_str.
Qed.

Lemma elems_events_atoms l buf :
  forallb is_atom l = true ->
  snd (written (elems_events iterencode l buf)) = None.
Proof.
  revert buf. induction l as [|x l IH]; intros buf H; [reflexivity|].
  simpl in H. apply andb_true_iff in H as [Hx Hl]. cbn [elems_events].
  destruct x; try discriminate Hx; cbn [scalar_text app];
    rewrite pure_chunk; now apply IH.
Qed.

Lemma closes_item_elems l rest :
  closes_item (text_of (elems_events iterencode l ",") +:+ rest) = true.
Proof.
  destruct l as [|x l]; [reflexivity|]. cbn [elems_events].
  destruct (scalar_text x); cbn [app]; rewrite text_of_chunk; reflexivity.
Qed.

(** The items of a list of ids read back, [acc] being the items read so far. *)
Lemma parse_elements_atoms l : forall x t acc rest fuel,
  forallb is_atom (x :: l) = true ->
  scalar_text x = Some t ->
  List.length l + 2 <= fuel ->
  parse_elements fuel (t +:+ text_of (elems_events iterencode l ",") +:+ rest) acc
  = Some (PyList (acc ++ x :: l), rest).
Proof.
  induction l as [|y l IH]; intros x t acc rest fuel Hatoms Ht Hfuel;
    cbn [forallb] in Hatoms; apply andb_true_iff in Hatoms as [Hx Hatoms];
    (destruct fuel as [|fuel]; [simpl in Hfuel; lia|]).
  - cbn [elems_events]. rewrite text_of_chunk. change (text_of []) with EmptyString.
    rewrite append_empty_r. cbn [parse_elements].
    change ("]" +:+ rest) with (String "]" rest).
    rewrite (parse_atom x t _ fuel Hx Ht) by (try reflexivity; simpl in Hfuel; lia).
    reflexivity.
  - pose proof Hatoms as Hatoms'.
    cbn [forallb] in Hatoms'. apply andb_true_iff in Hatoms' as [Hy _].
    destruct (atom_text y Hy) as (ty & c & s & Hty & Ey & Hws).
    apply atom_head_not_ws in Hws.
    cbn [elems_events]. rewrite Hty. cbn [app]. rewrite text_of_chunk.
    rewrite !append_assoc. change ("," +:+ ?u) with (String "," u).
    cbn [parse_elements].
    rewrite (parse_atom x t _ fuel Hx Ht) by (try reflexivity; simpl in Hfuel; lia).
    cbn [mbind option_bind].
    cbn [skip_ws is_json_ws]. change (is_json_ws ",") with false. cbn iota.
    assert (Hskip : skip_ws (ty +:+ text_of (elems_events iterencode l ",") +:+ rest)
                    = ty +:+ text_of (elems_events iterencode l ",") +:+ rest).
    { rewrite Ey, append_cons. now apply skip_ws_head. }
    rewrite Hskip, (IH y ty (acc ++ [x]) rest fuel Hatoms Hty);
      [|simpl in Hfuel |- *; lia].
    now rewrite <- app_assoc.
Qed.

Lemma parse_id_list l rest fuel :
  forallb is_atom l = true ->
  List.length l + 2 <= fuel ->
  snd (written (iterencode (PyList l))) = None /\
  parse_value fuel (text_of (iterencode (PyList l)) +:+ rest) = Some (PyList l, rest).
Proof.
  intros Hatoms Hfuel. destruct l as [|x l].
  - split; [reflexivity|]. destruct fuel as [|fuel]; [simpl in Hfuel; lia|]. reflexivity.
  - rewrite iterencode_list. split; [now apply elems_events_atoms|].
    pose proof Hatoms as Hatoms'.
    cbn [forallb] in Hatoms'. apply andb_true_iff in Hatoms' as [Hx _].
    destruct (atom_text x Hx) as (t & c & s & Ht & E & Hc).
    cbn [elems_events]. rewrite Ht. cbn [app]. rewrite text_of_chunk, !append_assoc.
    change ("[" +:+ ?u) with (String "[" u).
    destruct fuel as [|fuel]; [simpl in Hfuel; lia|].
    pose proof (parse_elements_atoms l x t [] rest fuel Hatoms Ht) as H.
    rewrite E, append_cons in H |- *.
    rewrite (parse_value_open_list _ _ _ Hc). apply H. simpl in Hfuel. lia.
Qed.

Lemma length_append (a b : string) :
  String.length (a +:+ b) = String.length a + String.length b.
Proof.
  induction a as [|x a IH]; [reflexivity|]. rewrite append_cons. simpl. now rewrite IH.
Qed.

Lemma elems_events_length l : forall buf,
  forallb is_atom l = true ->
  List.length l + 1 <= String.length (text_of (elems_events iterencode l buf)).
Proof.
  induction l as [|x l IH]; intros buf Hatoms; [simpl; lia|].
  cbn [forallb] in Hatoms. apply andb_true_iff in Hatoms as [Hx Hatoms].
  destruct (atom_text x Hx) as (t & c & s & Ht & E & _).
  cbn [elems_events]. rewrite Ht. cbn [app].
  rewrite text_of_chunk, !length_append. specialize (IH "," Hatoms).
  rewrite E. simpl. lia.
Qed.

Lemma readable_ids l : forallb is_atom l = true -> readable (PyList l).
Proof.
  intros Hatoms. split; [reflexivity|]. split; [|split; [|split]].
  - now destruct (parse_id_list l EmptyString (List.length l + 2) Hatoms).
  - destruct l as [|x l]; [eexists _, _; split; reflexivity|].
    rewrite iterencode_list. cbn [elems_events].
    destruct (scalar_text x); cbn [app]; rewrite text_of_chunk;
      eexists _, _; split; reflexivity.
  - destruct l as [|x l]; [simpl; lia|]. rewrite iterencode_list.
    pose proof Hatoms as Hatoms'.
    cbn [forallb] in Hatoms'. apply andb_true_iff in Hatoms' as [Hx Hl].
    destruct (atom_text x Hx) as (t & c & s & Ht & E & _).
    cbn [elems_events]. rewrite Ht. cbn [app].
    rewrite text_of_chunk, !length_append.
    pose proof (elems_events_length l "," Hl). rewrite E. simpl. lia.
  - intros rest fuel Hfuel. apply parse_id_list; [exact Hatoms|].
    simpl in Hfuel. lia.
Qed.

Lemma dict_get_fresh acc k : ~ In k (map fst acc) -> dict_get acc k = None.
Proof.
  induction acc as [|[k0 v0] acc IH]; simpl; [reflexivity|]. intros H.
  destruct (String.eqb k0 k) eqn:E.
  - apply String.eqb_eq in E. tauto.
  - apply IH. tauto.
Qed.

Lemma dict_set_fresh acc k v : ~ In k (map fst acc) -> dict_set acc k v = acc ++ [(k, v)].
Proof.
  induction acc as [|[k0 v0] acc IH]; simpl; [reflexivity|]. intros H.
  destruct (String.eqb k0 k) eqn:E.
  - apply String.eqb_eq in E. tauto.
  - rewrite IH; tauto.
Qed.

Lemma distinct_middle l1 k l2 : distinct (l1 ++ k :: l2) = true -> ~ In k l1.
Proof.
  induction l1 as [|x l1 IH]; simpl; [tauto|].
  rewrite andb_true_iff, negb_true_iff. intros [Hx Hd] [->|H].
  - rewrite existsb_app in Hx. simpl in Hx.
    rewrite String.eqb_refl, orb_true_r in Hx. discriminate Hx.
  - now apply IH.
Qed.

Lemma append_empty_l (a : string) : EmptyString +:+ a = a.
Proof. reflexivity. Qed.

Lemma members_events_text k v d first :
  readable v ->
  text_of (members_events iterencode ((k, v) :: d) first)
  = (if first then EmptyString else ",") +:+ encode_str k +:+ ":"
    +:+ text_of (iterencode v) +:+ text_of (members_events iterencode d false).
Proof.
  intros (Hs & Hpure & _). cbn [members_events]. rewrite Hs.
  destruct first; cbn [app]; rewrite !text_of_chunk, (text_of_app _ _ Hpure);
    reflexivity.
Qed.

Lemma members_events_pure d : forall first,
  Forall (fun kv => readable (snd kv)) d ->
  snd (written (members_events iterencode d first)) = None.
Proof.
  induction d as [|[k v] d IH]; intros first Hd; [reflexivity|].
  apply List.Forall_cons_iff in Hd as [(Hs & Hpure & _) Hd]. simpl in Hs, Hpure.
  cbn [members_events]. rewrite Hs.
  destruct first; cbn [app]; rewrite !pure_chunk; apply pure_app; auto.
Qed.

Lemma members_tail_head d rest :
  exists u, text_of (members_events iterencode d false) +:+ rest = String "}" rest /\ d = []
            \/ (text_of (members_events iterencode d false) +:+ rest = String "," u /\ d <> []).
Proof.
  destruct d as [|[k v] d].
  - exists EmptyString. left. split; reflexivity.
  - eexists. right. split; [|discriminate]. cbn [members_events app].
    rewrite text_of_chunk. rewrite append_assoc. reflexivity.
Qed.

(** The members of a dictionary read back, [acc] being those read so far. *)
Lemma parse_members_readable d : forall k v acc rest fuel,
  readable v ->
  Forall (fun kv => readable (snd kv)) d ->
  distinct (map fst acc ++ k :: map fst d) = true ->
  members_size ((k, v) :: d) <= fuel ->
  parse_members fuel
    (encode_str k +:+ ":" +:+ text_of (iterencode v)
     +:+ text_of (members_events iterencode d false) +:+ rest) acc
  = Some (PyDict (acc ++ (k, v) :: d), rest).
Proof.
  induction d as [|[k' v'] d IH]; intros k v acc rest fuel Hv Hd Hkeys Hfuel;
    (destruct fuel as [|fuel]; [unfold members_size in Hfuel; simpl in Hfuel; lia|]);
    pose proof Hv as (_ & _ & (c & u & Ehead & Hws) & _ & Hparse);
    unfold encode_str at 1; rewrite !append_cons; cbn [parse_members];
    change (Ascii.eqb dquote dquote) with true; cbn iota;
    rewrite !append_assoc, !append_cons;
    change (EmptyString +:+ ?x) with x;
    rewrite parse_string_escape; cbn [mbind option_bind];
    cbn [skip_ws]; change (is_json_ws ":") with false; cbn iota;
    rewrite ?append_empty_l;
    rewrite Ehead, append_cons, (skip_ws_head _ _ Hws), <- append_cons, <- Ehead.
  - rewrite Hparse by (unfold members_size in Hfuel; simpl in Hfuel; lia).
    cbn [mbind option_bind]. cbn [members_events]. rewrite text_of_chunk.
    change (text_of []) with EmptyString. rewrite append_empty_r.
    change ("}" +:+ rest) with (String "}" rest).
    cbn [skip_ws]. change (is_json_ws "}") with false. cbn iota.
    rewrite dict_set_fresh by (apply (distinct_middle _ _ _ Hkeys)). reflexivity.
  - rewrite Hparse by (unfold members_size in Hfuel; simpl in Hfuel; lia).
    cbn [mbind option_bind].
    apply List.Forall_cons_iff in Hd as [Hv' Hd]. simpl in Hv'.
    rewrite (members_events_text _ _ _ _ Hv').
    pose proof (IH k' v' (acc ++ [(k, v)]) rest fuel Hv' Hd) as H.
    unfold encode_str in H |- *.
    repeat (progress (rewrite ?append_assoc, ?append_cons, ?append_empty_l in H)).
    repeat (progress (rewrite ?append_assoc, ?append_cons, ?append_empty_l)).
    cbn [skip_ws]. change (is_json_ws ",") with false. cbn iota.
    rewrite (skip_ws_head dquote) by reflexivity.
    rewrite dict_set_fresh by (apply (distinct_middle _ _ _ Hkeys)).
    rewrite H.
    + now rewrite <- app_assoc.
    + rewrite map_app, <- app_assoc. exact Hkeys.
    + unfold members_size in *. simpl in Hfuel |- *. lia.
Qed.

Lemma members_events_length d : forall first,
  Forall (fun kv => readable (snd kv)) d ->
  members_size d + 1 <= String.length (text_of (members_events iterencode d first)).
Proof.
  induction d as [|[k v] d IH]; intros first Hd; [simpl; lia|].
  apply List.Forall_cons_iff in Hd as [Hv Hd]. simpl in Hv.
  rewrite (members_events_text _ _ _ _ Hv), !length_append.
  destruct Hv as (_ & _ & _ & Hlen & _). specialize (IH false Hd).
  unfold members_size in *. simpl. lia.
Qed.

Lemma readable_dict d :
  distinct (map fst d) = true ->
  Forall (fun kv => readable (snd kv)) d ->
  readable (PyDict d).
Proof.
  intros Hkeys Hd. destruct d as [|[k v] d].
  - split; [reflexivity|]. split; [reflexivity|]. split; [|split].
    + eexists _, _. split; reflexivity.
    + simpl. lia.
    + intros rest [|fuel] Hfuel; [simpl in Hfuel; lia|]. reflexivity.
  - pose proof Hd as Hd'. apply List.Forall_cons_iff in Hd' as [Hv Hrest]. simpl in Hv.
    split; [reflexivity|]. rewrite iterencode_dict. split; [|split; [|split]].
    + rewrite pure_chunk. now apply members_events_pure.
    + rewrite text_of_chunk. eexists _, _. split; reflexivity.
    + rewrite text_of_chunk, length_append.
      pose proof (members_events_length _ true Hd) as H.
      unfold members_size in H. simpl in H |- *. lia.
    + intros rest [|fuel] Hfuel; [simpl in Hfuel; lia|].
      rewrite text_of_chunk, (members_events_text _ _ _ _ Hv).
      pose proof (parse_members_readable d k v [] rest fuel Hv Hrest Hkeys) as H.
      unfold encode_str in H |- *.
      repeat (progress (rewrite ?append_assoc, ?append_cons, ?append_empty_l in H)).
    repeat (progress (rewrite ?append_assoc, ?append_cons, ?append_empty_l)).
      cbn [parse_value]. rewrite (skip_ws_head dquote) by reflexivity.
      change dquote with "034"%char in H |- *. cbn iota.
      apply H. unfold members_size. simpl in Hfuel |- *. lia.
Qed.

(** A well-formed trie is written and read back. *)
Lemma wf_readable v : wf_trie v = true -> readable v.
Proof.
  unfold wf_trie.
  induction v as [| | | |l _|l _|l _|d IH] using pyval_ind; intros Hwf;
    try discriminate Hwf.
  apply readable_dict; [now apply (wf_dict_distinct AsList)|].
  rewrite List.Forall_forall in *. intros [k v] Hin.
  pose proof (wf_dict_In _ _ _ _ Hwf Hin) as H. simpl.
  destruct (String.eqb k SENTINEL).
  - destruct v; try discriminate H. now apply readable_ids.
  - apply (IH _ Hin). tauto.
Qed.

Lemma skip_ws_empty : skip_ws EmptyString = EmptyString.
Proof. reflexivity. Qed.

(** The dump of a well-formed trie does not fail, and its text decodes to
    the trie. *)
Lemma dumps_loads v :
  wf_trie v = true ->
  json_dumps v = Ok (text_of (iterencode v)) /\
  json_loads (text_of (iterencode v)) = Some v.
Proof.
  intros Hwf. destruct (wf_readable v Hwf) as (_ & Hpure & (c & u & E & Hws) & Hlen & Hparse).
  split.
  - unfold json_dumps, text_of. destruct (written (iterencode v)) as [ts o].
    simpl in Hpure. now subst o.
  - unfold json_loads. rewrite E, (skip_ws_head _ _ Hws), <- E.
    pose proof (Hparse EmptyString (S (String.length (text_of (iterencode v))))) as H.
    rewrite append_empty_r in H. rewrite H by lia. reflexivity.
Qed.

(** ** The query under the recursion limit *)

Lemma lower_char_idem c : lower_char (lower_char c) = lower_char c.
Proof. destruct c as [[] [] [] [] [] [] [] []]; reflexivity. Qed.

Lemma lower_idem p : lower (lower p) = lower p.
Proof.
  induction p as [|c p IH]; simpl; [reflexivity|]. now rewrite lower_char_idem, IH.
Qed.

Lemma lower_length p : String.length (lower p) = String.length p.
Proof. induction p as [|c p IH]; simpl; [reflexivity|]. now rewrite IH. Qed.

Lemma list_max_gt (l : list nat) (r : nat) :
  r < list_max l <-> exists x, In x l /\ r < x.
Proof.
  induction l as [|y l IH]; cbn [list_max fold_right].
  - split; [lia|]. intros (x & [] & _).
  - fold (list_max l). rewrite Nat.max_lt_iff, IH. split.
    + intros [H|(x & Hin & H)]; [exists y; split; [now left|exact H]|].
      exists x. split; [now right|exact H].
    + intros (x & [<-|Hin] & H); [now left|]. right. now exists x.
Qed.

Lemma ltb_max (r a b : nat) : (r <? Nat.max a b)%nat = (r <? a)%nat || (r <? b)%nat.
Proof.
  destruct (r <? a)%nat eqn:Ea, (r <? b)%nat eqn:Eb; cbn [orb];
    rewrite ?Nat.ltb_lt, ?Nat.ltb_ge in *; lia.
Qed.

(** With room for the depth of the node, [_dfs] returns what it returns
    without a limit; with less, it raises [RecursionError]. *)
Lemma interp_dfs s node : forall room current_word results,
  wf_node s node = true ->
  Interp._dfs room node current_word results
  = if (room <? depth node)%nat then Raise RecursionError
    else Ok (results ++ map PyStr (words node current_word)).
Proof.
  induction node as [| | | |l _|l _|l _|d IH] using pyval_ind;
    intros room cur results Hwf; try discriminate Hwf.
  destruct room as [|room]; [reflexivity|].
  cbn [Interp._dfs words py_contains depth]. simpl mbind.
  change (S room <? S ?m)%nat with (room <? m)%nat.
  set (has := dict_has d SENTINEL).
  assert (Hent : forall kv, In kv d ->
            String.eqb (fst kv) SENTINEL = false -> wf_node s (snd kv) = true).
  { intros [k v] Hin E. pose proof (wf_dict_In _ _ _ _ Hwf Hin) as H.
    simpl in E. rewrite E in H. tauto. }
  clear Hwf. rewrite map_app, app_assoc.
  assert ((if has then results ++ [PyStr cur] else results)
          = results ++ map PyStr (if has then [cur] else [])) as ->.
  { destruct has; simpl; [reflexivity|now rewrite app_nil_r]. }
  generalize (results ++ map PyStr (if has then [cur] else [])).
  clear has. intros acc. revert acc.
  induction d as [|[k v] d IHd]; intros acc.
  - cbn. now rewrite app_nil_r.
  - apply List.Forall_cons_iff in IH as [IHv IHrest].
    cbn [map list_max fold_right flat_map fst snd]. fold (list_max
      (map (fun kv => if String.eqb (fst kv) SENTINEL then 0 else depth (snd kv)) d)).
    destruct (String.eqb k SENTINEL) eqn:E; cbn [negb].
    + rewrite Nat.max_0_l. cbn [app].
      apply IHd; [exact IHrest|]. intros kv Hin. apply Hent. now right.
    + rewrite ltb_max. simpl in IHv.
      rewrite IHv by (apply (Hent (k, v)); [now left|exact E]).
      destruct (room <? depth v)%nat; [reflexivity|]. cbn [orb].
      simpl mbind. rewrite IHd; [|exact IHrest|intros kv Hin; apply Hent; now right].
      now rewrite map_app, app_assoc.
Qed.

(** A search for a string in a well-formed trie: [RecursionError] where the
    node the prefix leads to is deeper than there is room for, the words
    below that node otherwise. *)
Lemma interp_search_matches room self p :
  wf_trie (TrieManager.trie_root self) = true ->
  Interp.search room self (PyStr p)
  = if too_deep room (TrieManager.trie_root self) p then Raise RecursionError
    else Ok (PyList (map PyStr (matches (TrieManager.trie_root self) p))).
Proof.
  intros Hwf. unfold Interp.search, matches, too_deep. cbn [py_truthy py_len py_lower].
  destruct (String.eqb p EmptyString) eqn:E; [reflexivity|].
  cbn [negb mbind result_bind andb]. rewrite (nonempty_length _ E).
  rewrite (walk_wf AsList _ _ Hwf). cbn [mbind result_bind].
  destruct (node_at (TrieManager.trie_root self) (lower p)) as [n|] eqn:En; [|reflexivity].
  rewrite (interp_dfs AsList) by exact (node_at_wf _ _ _ _ Hwf En).
  destruct (room <? depth n)%nat; reflexivity.
Qed.

(** Without a limit the query is the query with room to spare: whatever the
    values, a call that does not end in [RecursionError] ends as the call
    without a limit does. *)
Lemma interp_dfs_agrees room : forall node current_word results,
  Interp._dfs room node current_word results <> Raise RecursionError ->
  Interp._dfs room node current_word results
  = TrieManager._dfs node current_word results.
Proof.
  induction room as [|room IH]; intros node cur results H; [now contradiction H|].
  destruct node as [|b|z|s|l|l|l|d]; try reflexivity.
  cbn [Interp._dfs TrieManager._dfs py_contains] in *. simpl mbind in *.
  revert H. generalize (if dict_has d SENTINEL then results ++ [PyStr cur] else results).
  induction d as [|[k v] d IHd]; intros acc H; [reflexivity|].
  destruct (negb (String.eqb k SENTINEL)); [|now apply IHd].
  destruct (Interp._dfs room v (cur +:+ k) acc) as [acc'|e] eqn:Ev.
  - rewrite <- (IH v), Ev by (rewrite Ev; discriminate). simpl mbind in *.
    now apply IHd.
  - rewrite <- (IH v), Ev by (rewrite Ev; intros [= ->]; now apply H). reflexivity.
Qed.

Lemma interp_search_agrees room self prefix :
  Interp.search room self prefix <> Raise RecursionError ->
  Interp.search room self prefix = TrieManager.search self prefix.
Proof.
  unfold Interp.search, TrieManager.search.
  destruct (negb (py_truthy prefix)); [reflexivity|].
  destruct (py_len prefix) as [n|e]; [|reflexivity]. simpl mbind.
  destruct (n <? 1)%nat; [reflexivity|].
  destruct (py_lower prefix) as [p|e]; [|reflexivity]. simpl mbind.
  destruct (TrieManager.walk _ _) as [[node|]|e]; try reflexivity. simpl mbind.
  intros H. rewrite interp_dfs_agrees; [reflexivity|].
  intros E. rewrite E in H. now apply H.
Qed.

(** A node is deeper than [room] when a path of [room] characters or more
    starts from it. *)
Lemma depth_paths s node : forall room,
  wf_node s node = true ->
  room < depth node
  <-> exists q, room <= String.length q /\ is_Some (node_at node q).
Proof.
  induction node as [| | | |l _|l _|l _|d IH] using pyval_ind;
    intros room Hwf; try discriminate Hwf.
  rewrite List.Forall_forall in IH. cbn [depth].
  destruct room as [|room].
  { split; [|lia]. intros _. exists EmptyString. split; [simpl; lia|].
    rewrite node_at_empty. eexists; reflexivity. }
  rewrite <- Nat.succ_lt_mono, list_max_gt. split.
  - intros (x & Hin & Hx). apply in_map_iff in Hin as ([k v] & <- & Hin).
    cbn [fst snd] in Hx. pose proof (wf_dict_In _ _ _ _ Hwf Hin) as Hkv.
    destruct (String.eqb k SENTINEL); [lia|]. destruct Hkv as [Hk Hv].
    apply (IH _ Hin) in Hx as (q & Hq & Hn); [|exact Hv].
    destruct k as [|a [|b k]]; try discriminate Hk.
    exists (String a q). split; [simpl; lia|]. rewrite node_at_dict.
    now rewrite (In_dict_get _ _ _ (wf_dict_distinct _ _ Hwf) Hin).
  - intros (q & Hq & Hn). destruct q as [|a q]; [simpl in Hq; lia|].
    rewrite node_at_dict in Hn.
    destruct (dict_get d (String a EmptyString)) as [child|] eqn:E;
      [|now destruct Hn as [? [=]]].
    exists (depth child). split.
    + apply in_map_iff. exists (String a EmptyString, child).
      cbn [fst snd]. rewrite char_not_sentinel. split; [reflexivity|].
      now apply dict_get_In.
    + apply (IH _ (dict_get_In _ _ _ E)); [now apply (wf_dict_child s d a)|].
      exists q. split; [simpl in Hq; lia|exact Hn].
Qed.

Lemma too_deep_paths room t p :
  wf_trie t = true ->
  too_deep room t p = true
  <-> p <> EmptyString /\
      exists q, room <= String.length q /\ is_Some (node_at t (lower p +:+ q)).
Proof.
  intros Hwf. unfold too_deep. rewrite andb_true_iff, negb_true_iff, String.eqb_neq.
  apply and_iff_compat_l.
  destruct (node_at t (lower p)) as [n|] eqn:En.
  - rewrite Nat.ltb_lt, (depth_paths AsList) by exact (node_at_wf _ _ _ _ Hwf En).
    split; intros (q & Hq & Hn); exists q; (split; [exact Hq|]).
    + now rewrite node_at_app, En.
    + now rewrite node_at_app, En in Hn.
  - split; [discriminate|]. intros (q & _ & Hn).
    rewrite node_at_app, En in Hn. now destruct Hn as [? [=]].
Qed.

Lemma is_prefix_refl w : is_prefix w w = true.
Proof. induction w as [|a w IH]; simpl; [reflexivity|]. now rewrite Ascii.eqb_refl. Qed.

Lemma is_prefix_app_l p q w : is_prefix (p +:+ q) w = true -> is_prefix p w = true.
Proof.
  intros H. apply is_prefix_split in H as [r ->]. rewrite append_assoc.
  apply is_prefix_app.
Qed.

(** In a trie built from a sequence of insertions, a search is too deep
    when a token that starts with the lower-cased prefix is [room]
    characters longer than the prefix, or more. *)
Lemma too_deep_tokens log t room p :
  add_all TrieManager._add_to_trie (PyDict []) log = Ok t ->
  too_deep room t p = true
  <-> p <> EmptyString /\
      exists tok, In tok (tokens log) /\ is_prefix (lower p) tok = true /\
                  String.length p + room <= String.length tok.
Proof.
  intros Hall.
  destruct (trie_spec log) as (t' & Hall' & Hwf & _ & Hreach).
  rewrite Hall in Hall'. injection Hall' as <-.
  rewrite (too_deep_paths _ _ _ Hwf). split.
  - intros (Hp & q & Hq & Hn). split; [exact Hp|].
    apply Hreach in Hn as [Hn|(tok & Htok & Hpre)].
    + exfalso. apply (f_equal String.length) in Hn.
      rewrite length_append, lower_length in Hn. simpl in Hn.
      destruct p; [now apply Hp|simpl in Hn; lia].
    + exists tok. split; [exact Htok|]. split; [now apply (is_prefix_app_l _ q)|].
      apply is_prefix_split in Hpre as [r ->].
      rewrite !length_append, lower_length. lia.
  - intros (Hp & tok & Htok & Hpre & Hlen). split; [exact Hp|].
    apply is_prefix_split in Hpre as [q ->].
    exists q. split.
    + rewrite length_append, lower_length in Hlen. lia.
    + apply Hreach. right. exists (lower p +:+ q). split; [exact Htok|apply is_prefix_refl].
Qed.

Lemma append_inv_head (a b c : string) : a +:+ b = a +:+ c -> b = c.
Proof.
  induction a as [|x a IH]; [now rewrite !append_empty_l|].
  rewrite !append_cons. intros [= H]. now apply IH.
Qed.

Lemma distinct_NoDup (l : list string) : distinct l = true -> List.NoDup l.
Proof.
  induction l as [|x l IH]; [constructor|]. cbn [distinct].
  intros H. apply andb_true_iff in H as [H1 H2]. constructor; [|now apply IH].
  intros Hin. apply existsb_eqb_In in Hin. now rewrite Hin in H1.
Qed.

Lemma NoDup_flat_map {A B K : Type} (f : A -> list B) (key : A -> K) (l : list A) :
  List.NoDup (map key l) ->
  (forall a, In a l -> List.NoDup (f a)) ->
  (forall a b x, In a l -> In b l -> In x (f a) -> In x (f b) -> key a = key b) ->
  List.NoDup (flat_map f l).
Proof.
  induction l as [|a l IH]; intros Hkeys Hall Hkey; [constructor|].
  cbn [flat_map map] in *. apply List.NoDup_cons_iff in Hkeys as [Hnot Hkeys].
  apply List.NoDup_app.
  - apply Hall. now left.
  - apply IH; [exact Hkeys| |].
    + intros b Hb. apply Hall. now right.
    + intros b c x Hb Hc. apply Hkey; now right.
  - intros x Hx Hx'. apply in_flat_map in Hx' as (b & Hb & Hxb).
    apply Hnot. rewrite (Hkey a b x); [now apply in_map|now left|now right|exact Hx|exact Hxb].
Qed.

(** The words below a node come without repetition. *)
Lemma words_NoDup s node : forall current_word,
  wf_node s node = true -> List.NoDup (words node current_word).
Proof.
  induction node as [| | | |l _|l _|l _|d IH] using pyval_ind;
    intros cur Hwf; try discriminate Hwf.
  cbn [words]. rewrite List.Forall_forall in IH.
  assert (Hshape : forall kv x,
             In kv d ->
             In x (if negb (String.eqb (fst kv) SENTINEL)
                   then words (snd kv) (cur +:+ fst kv) else []) ->
             exists a q, fst kv = String a EmptyString /\ x = cur +:+ String a q).
  { intros [k v] x Hin Hx. cbn [fst snd] in *.
    pose proof (wf_dict_In _ _ _ _ Hwf Hin) as Hkv.
    destruct (String.eqb k SENTINEL); [destruct Hx|]. destruct Hkv as [Hk Hv].
    cbn [negb] in Hx. apply (words_spec s) in Hx as (q & -> & _); [|exact Hv].
    destruct k as [|a [|b k]]; try discriminate Hk.
    exists a, q. split; [reflexivity|]. now rewrite append_assoc. }
  apply List.NoDup_app.
  - destruct (dict_has d SENTINEL); [|constructor].
    constructor; [intros []|constructor].
  - apply (NoDup_flat_map _ fst).
    + apply distinct_NoDup. exact (wf_dict_distinct _ _ Hwf).
    + intros [k v] Hin. cbn [fst snd].
      pose proof (wf_dict_In _ _ _ _ Hwf Hin) as Hkv.
      destruct (String.eqb k SENTINEL); [constructor|]. cbn [negb].
      apply (IH _ Hin). apply Hkv.
    + intros kv kv' x Hin Hin' Hx Hx'.
      destruct (Hshape _ _ Hin Hx) as (a & q & -> & ->).
      destruct (Hshape _ _ Hin' Hx') as (b & q' & -> & E).
      apply append_inv_head in E. now injection E as -> _.
  - intros x Hx Hx'. apply in_flat_map in Hx' as (kv & Hin & Hx').
    destruct (Hshape _ _ Hin Hx') as (a & q & _ & ->).
    destruct (dict_has d SENTINEL); [|destruct Hx]. destruct Hx as [Hx|[]].
    apply (f_equal String.length) in Hx. rewrite length_append in Hx. simpl in Hx. lia.
Qed.

(** A search of a well-formed trie finds the words that start with the
    lower-cased prefix and end at a node with ids. *)
Lemma matches_ids t p w :
  wf_trie t = true ->
  In w (matches t p)
  <-> p <> EmptyString /\ is_prefix (lower p) w = true /\ is_Some (ids_at t w).
Proof.
  intros Hwf. unfold matches. destruct (String.eqb p EmptyString) eqn:E.
  { apply String.eqb_eq in E. split; [intros []|]. intros [H _]. congruence. }
  apply String.eqb_neq in E.
  destruct (node_at t (lower p)) as [n|] eqn:En.
  - rewrite (words_spec AsList) by exact (node_at_wf _ _ _ _ Hwf En). split.
    + intros (q & -> & Hq). split; [exact E|]. split; [apply is_prefix_app|].
      now rewrite (ids_at_app _ _ q _ En).
    + intros (_ & Hpre & Hids). apply is_prefix_split in Hpre as [q ->].
      exists q. split; [reflexivity|]. now rewrite <- (ids_at_app _ _ q _ En).
  - split; [intros []|]. intros (_ & Hpre & Hids).
    apply is_prefix_split in Hpre as [q ->].
    unfold ids_at in Hids. rewrite node_at_app, En in Hids. now destruct Hids.
Qed.

Lemma matches_NoDup t p : wf_trie t = true -> List.NoDup (matches t p).
Proof.
  intros Hwf. unfold matches. destruct (String.eqb p EmptyString); [constructor|].
  destruct (node_at t (lower p)) as [n|] eqn:En; [|constructor].
  apply (words_NoDup AsList). exact (node_at_wf _ _ _ _ Hwf En).
Qed.

Lemma is_prefix_trans p q w :
  is_prefix p q = true -> is_prefix q w = true -> is_prefix p w = true.
Proof.
  intros H1 H2. apply is_prefix_split in H1 as [r ->]. now apply (is_prefix_app_l _ r).
Qed.

(** What a search for a longer prefix finds, a search for a shorter one
    finds as well. *)
Lemma matches_longer t p p' w :
  wf_trie t = true -> p <> EmptyString ->
  is_prefix (lower p) (lower p') = true ->
  In w (matches t p') -> In w (matches t p).
Proof.
  intros Hwf Hp Hpre. rewrite !matches_ids by exact Hwf.
  intros (_ & Hpre' & Hids). split; [exact Hp|]. split; [|exact Hids].
  now apply (is_prefix_trans _ (lower p')).
Qed.

(** And where the longer prefix leads too deep, so does the shorter one. *)
Lemma too_deep_longer room t p p' :
  wf_trie t = true -> p <> EmptyString ->
  is_prefix (lower p) (lower p') = true ->
  too_deep room t p' = true -> too_deep room t p = true.
Proof.
  intros Hwf Hp Hpre. rewrite !too_deep_paths by exact Hwf.
  intros (_ & q & Hq & Hn). split; [exact Hp|].
  apply is_prefix_split in Hpre as [r Hr]. rewrite Hr, append_assoc in Hn.
  exists (r +:+ q). split; [rewrite length_append; lia|exact Hn].
Qed.

(** More room never turns a search that returns into one that raises. *)
Lemma too_deep_room room room' t p :
  room <= room' -> too_deep room t p = false -> too_deep room' t p = false.
Proof.
  intros Hle. unfold too_deep. destruct (negb (String.eqb p EmptyString)); [|reflexivity].
  cbn [andb]. destruct (node_at t (lower p)) as [n|]; [|reflexivity].
  rewrite !Nat.ltb_ge. lia.
Qed.

Lemma too_deep_empty room t : too_deep room t EmptyString = false.
Proof. reflexivity. Qed.

(** C1 (as the code has it).  A search for a string in a well-formed trie
    returns a list of words, in the order of the depth-first traversal, and
    no document ids, unless the node the lower-cased prefix leads to lies
    above a path of as many characters as the interpreter lets calls of
    [_dfs] nest, or more: then the search raises [RecursionError].  In the
    trie built from a sequence of insertions the words are the tokens that
    start with the lower-cased prefix, none when the prefix is empty, and
    the search raises when such a token is longer than the prefix by the
    room there is, or more.  On the trie built from the rows of the
    scenario, with room for four calls the searches for tom, on and z
    return tomato, onion and nothing; with room for three the search for
    tom raises. *)
Theorem search_returns_words_in_order :
  (forall room self p,
     wf_trie (TrieManager.trie_root self) = true ->
     Interp.search room self (PyStr p)
     = if too_deep room (TrieManager.trie_root self) p then Raise RecursionError
       else Ok (PyList (map PyStr (matches (TrieManager.trie_root self) p)))) /\
  (forall room t p,
     wf_trie t = true ->
     too_deep room t p = true
     <-> p <> EmptyString /\
         exists q, room <= String.length q /\ is_Some (node_at t (lower p +:+ q))) /\
  (forall log, exists t,
     add_all TrieManager._add_to_trie (PyDict []) log = Ok t /\
     wf_trie t = true /\
     (forall sep rows, log = insertions sep rows -> sep <> EmptyString ->
        TrieManager.build sep rows = Ok t) /\
     (forall p w,
        In w (matches t p)
        <-> p <> EmptyString /\ In w (tokens log) /\ is_prefix (lower p) w = true) /\
     (forall room p,
        too_deep room t p = true
        <-> p <> EmptyString /\
            exists tok, In tok (tokens log) /\ is_prefix (lower p) tok = true /\
                        String.length p + room <= String.length tok)) /\
  TrieManager.build ";" scenario_rows = Ok (TrieManager.trie_root scenario_manager) /\
  (forall room, 4 <= room ->
     Interp.search room scenario_manager (PyStr "tom") = Ok (PyList [PyStr "tomato"]) /\
     Interp.search room scenario_manager (PyStr "on") = Ok (PyList [PyStr "onion"])) /\
  (forall room, Interp.search room scenario_manager (PyStr "z") = Ok (PyList [])) /\
  Interp.search 3 scenario_manager (PyStr "tom") = Raise RecursionError.
Proof.
  split; [exact interp_search_matches|]. split; [exact too_deep_paths|].
  split; [|split; [|split; [|split]]].
  - intros log. destruct (trie_spec log) as (t & Hall & Hwf & _).
    exists t. split; [exact Hall|]. split; [exact Hwf|]. split; [|split].
    + intros sep rows -> Hsep. now rewrite build_add_all.
    + now apply matches_spec.
    + intros room p. now apply too_deep_tokens.
  - vm_compute. reflexivity.
  - intros room Hroom.
    split; (rewrite interp_search_matches by reflexivity);
      (rewrite (too_deep_room 4 room _ _ Hroom) by (vm_compute; reflexivity));
      vm_compute; reflexivity.
  - intros room. rewrite interp_search_matches by reflexivity.
    rewrite (too_deep_room 0 room) by (try lia; vm_compute; reflexivity).
    vm_compute. reflexivity.
  - vm_compute. reflexivity.
Qed.

(** C1, counterexample.  In the scenario the search for tom returns the word
    alone, not the pair of the word and its document ids. *)
Lemma search_returns_no_document_ids :
  TrieManager.build ";" scenario_rows = Ok (TrieManager.trie_root scenario_manager) /\
  TrieManager.search scenario_manager (PyStr "tom") = Ok (PyList [PyStr "tomato"]) /\
  TrieManager.search scenario_manager (PyStr "tom")
  <> Ok (PyList [PyTuple [PyStr "tomato"; PyList [PyInt 1; PyInt 2]]]) /\
  TrieManager.search scenario_manager (PyStr "on")
  <> Ok (PyList [PyTuple [PyStr "onion"; PyList [PyInt 1; PyInt 3]]]).
Proof.
  split; [vm_compute; reflexivity|].
  split; [vm_compute; reflexivity|].
  split; vm_compute; discriminate.
Qed.

(** C2.  The query lower-cases the prefix, so a search does not depend on
    the case of the prefix; it does not trim it.  In the scenario the prefix
    TOM between blanks, which build-time normalisation turns into tom, finds
    nothing, while tom finds tomato. *)
Theorem search_lowers_but_does_not_strip :
  (forall self p,
     TrieManager.search self (PyStr (lower p)) = TrieManager.search self (PyStr p)) /\
  clean "  TOM  " = "tom" /\
  TrieManager.search scenario_manager (PyStr "Tom") = Ok (PyList [PyStr "tomato"]) /\
  TrieManager.search scenario_manager (PyStr "tom") = Ok (PyList [PyStr "tomato"]) /\
  TrieManager.search scenario_manager (PyStr "  TOM  ") = Ok (PyList []).
Proof.
  split.
  - intros self p. unfold TrieManager.search. cbn [py_truthy py_len py_lower].
    rewrite lower_empty, lower_length, lower_idem. reflexivity.
  - split; [vm_compute; reflexivity|].
    split; [vm_compute; reflexivity|].
    split; vm_compute; reflexivity.
Qed.






(** C8 (as the code has it).  In a well-formed trie, for a nonempty
    prefix [p] and a string [p'] whose lower-cased form starts with the
    lower-cased [p]: if the search for [p] returns, the search for [p']
    returns as well, and what it returns is among what the search for [p]
    returns.  Over the characters of this file lower-casing goes character
    by character, and [p] extended by a character is such a [p']. *)
Theorem search_extension_is_subset
    (room : nat) (self : TrieManager.manager) (p : string) :
  wf_trie (TrieManager.trie_root self) = true ->
  p <> EmptyString ->
  (forall p' l1,
     is_prefix (lower p) (lower p') = true ->
     Interp.search room self (PyStr p) = Ok (PyList l1) ->
     exists l2,
       Interp.search room self (PyStr p') = Ok (PyList l2) /\
       forall x, In x l2 -> In x l1) /\
  (forall c, is_prefix (lower p) (lower (p +:+ String c EmptyString)) = true) /\
  (forall c l1,
     Interp.search room self (PyStr p) = Ok (PyList l1) ->
     exists l2,
       Interp.search room self (PyStr (p +:+ String c EmptyString)) = Ok (PyList l2) /\
       forall x, In x l2 -> In x l1) /\
  (Interp.search room self (PyStr p) = Raise RecursionError \/
   exists l1, Interp.search room self (PyStr p) = Ok (PyList l1)).
Proof.
  intros Hwf Hp.
  assert (Hgen : forall p' l1,
             is_prefix (lower p) (lower p') = true ->
             Interp.search room self (PyStr p) = Ok (PyList l1) ->
             exists l2,
               Interp.search room self (PyStr p') = Ok (PyList l2) /\
               forall x, In x l2 -> In x l1).
  { intros p' l1 Hpre. rewrite !(interp_search_matches _ _ _ Hwf).
    destruct (too_deep room _ p) eqn:Ed; [discriminate|]. intros [= <-].
    destruct (too_deep room _ p') eqn:Ed'.
    - apply (too_deep_longer _ _ p) in Ed'; [congruence|exact Hwf|exact Hp|exact Hpre].
    - eexists. split; [reflexivity|]. intros x Hx.
      apply in_map_iff in Hx as (w & <- & Hw). apply in_map.
      now apply (matches_longer _ p p'). }
  assert (Hchar : forall c, is_prefix (lower p) (lower (p +:+ String c EmptyString)) = true).
  { intros c. rewrite lower_app. apply is_prefix_app. }
  split; [exact Hgen|]. split; [exact Hchar|]. split.
  - intros c l1. apply Hgen, Hchar.
  - rewrite (interp_search_matches _ _ _ Hwf).
    destruct (too_deep room _ p); [now left|right; now eexists].
Qed.

Lemma search_extension_is_subset_witness :
  exists l2,
    Interp.search 5 scenario_manager (PyStr "tom") = Ok (PyList l2) /\
    forall x, In x l2 -> In x [PyStr "tomato"].
Proof.
  assert (Hwf : wf_trie (TrieManager.trie_root scenario_manager) = true)
    by (vm_compute; reflexivity).
  assert (Hp : "to" <> EmptyString) by discriminate.
  destruct (search_extension_is_subset 5 scenario_manager "to" Hwf Hp) as (_ & _ & H & _).
  apply (H "m"%char). vm_compute. reflexivity.
Defined.

(** C8, counterexample.  In the scenario the search for the empty prefix
    returns nothing, and the search for its extension by t returns tomato. *)
Lemma search_empty_prefix_not_monotone :
  TrieManager.search scenario_manager (PyStr EmptyString) = Ok (PyList []) /\
  TrieManager.search scenario_manager (PyStr (EmptyString +:+ "t"))
  = Ok (PyList [PyStr "tomato"]) /\
  ~ (forall x, In x [PyStr "tomato"] -> In x (@nil pyval)).
Proof.
  split; [vm_compute; reflexivity|]. split; [vm_compute; reflexivity|].
  intros H. exact (H (PyStr "tomato") (or_introl eq_refl)).
Qed.

(** ** The id collections *)

Lemma dict_get_map (f : pyval -> pyval) d k :
  dict_get (map (fun kv => (fst kv, f (snd kv))) d) k = option_map f (dict_get d k).
Proof.
  induction d as [|[k0 v0] d IH]; simpl; [reflexivity|].
  destruct (String.eqb k0 k); [reflexivity|exact IH].
Qed.

Lemma with_default_dict set_order d :
  GenerateTrie.with_default set_order (PyDict d)
  = PyDict (map (fun kv => (fst kv, GenerateTrie.with_default set_order (snd kv))) d).
Proof. reflexivity. Qed.

Lemma node_at_with_default set_order s p : forall g,
  wf_node s g = true ->
  node_at (GenerateTrie.with_default set_order g) p
  = option_map (GenerateTrie.with_default set_order) (node_at g p).
Proof.
  induction p as [|a p IH]; intros g Hwf; [reflexivity|].
  destruct (wf_is_dict _ _ Hwf) as [d ->].
  rewrite with_default_dict, !node_at_dict, dict_get_map.
  destruct (dict_get d (String a EmptyString)) as [child|] eqn:E; [|reflexivity].
  apply IH. now apply (wf_dict_child s d a).
Qed.

Lemma ids_at_with_default set_order s g p :
  wf_node s g = true ->
  ids_at (GenerateTrie.with_default set_order g) p
  = option_map (GenerateTrie.with_default set_order) (ids_at g p).
Proof.
  intros Hwf. unfold ids_at. rewrite (node_at_with_default _ s) by exact Hwf.
  destruct (node_at g p) as [n|] eqn:En; [|reflexivity].
  destruct (wf_is_dict _ _ (node_at_wf _ _ _ _ Hwf En)) as [d ->].
  cbn [option_map]. rewrite with_default_dict. apply dict_get_map.
Qed.

Lemma py_of_atom_inj x y : py_of_atom x = py_of_atom y -> x = y.
Proof. destruct x, y; simpl; congruence. Qed.

Lemma NoDup_map_py_of_atom l : List.NoDup l -> List.NoDup (map py_of_atom l).
Proof.
  induction 1 as [|x l Hx Hl IH]; simpl; constructor; [|exact IH].
  intros H. apply in_map_iff in H as (y & E & Hy).
  apply py_of_atom_inj in E. now subst y.
Qed.

Lemma ids_after_token s p log :
  In p (tokens log) ->
  ids_after s p log = Some (store s (map py_of_atom (first_seen (ids_of p log)))).
Proof.
  intros H. apply ids_of_tokens in H. unfold ids_after.
  destruct (ids_of p log); [congruence|reflexivity].
Qed.

Lemma insert_sorted_perm x l : Permutation (insert_sorted x l) (x :: l).
Proof.
  induction l as [|y l IH]; simpl; [reflexivity|].
  destruct (int_le x y); [reflexivity|].
  rewrite IH. apply perm_swap.
Qed.

Lemma ascending_perm l : Permutation (ascending l) l.
Proof.
  induction l as [|x l IH]; simpl; [reflexivity|].
  rewrite insert_sorted_perm. now constructor.
Qed.

Lemma with_default_wf set_order g :
  (forall l, Permutation (set_order l) l) ->
  wf_node AsSet g = true -> wf_trie (GenerateTrie.with_default set_order g) = true.
Proof.
  intros Hperm. unfold wf_trie.
  induction g as [| | | |l _|l _|l _|d IH] using pyval_ind; intros Hwf;
    try discriminate Hwf.
  rewrite with_default_dict. cbn [wf_node] in Hwf |- *.
  apply andb_true_iff in Hwf as [Hkeys Hent].
  assert (map fst (map (fun kv => (fst kv, GenerateTrie.with_default set_order (snd kv))) d)
          = map fst d) as -> by (rewrite map_map; reflexivity).
  rewrite Hkeys. cbn [andb].
  rewrite forallb_forall in *. rewrite List.Forall_forall in IH.
  intros kv Hin. apply in_map_iff in Hin as ([k v] & <- & Hin). cbn [fst snd].
  specialize (Hent _ Hin). specialize (IH _ Hin). cbn [fst snd] in Hent, IH.
  destruct (String.eqb k SENTINEL).
  - destruct v; try discriminate Hent. cbn in Hent |- *.
    rewrite forallb_forall in *. intros x Hx. apply Hent.
    now apply (Permutation_in _ (Hperm l)).
  - apply andb_true_iff in Hent as [Hk Hv]. rewrite Hk. now apply IH.
Qed.

(** C6 (as the code has it).  In the trie [TrieManager] builds from a
    sequence of insertions, the node of a token holds the list of the ids
    inserted under it, without repetition, each where it was first seen.
    In the trie generate_trie.py builds from the same insertions the node
    holds these ids as a set; the tree handed to the encoder lists them in
    the order the set is iterated in, each id once, in an order that is the
    interpreter's.  A dump that completes leaves in the artifact the text
    of the trie, respectively of that tree; read as JSON, by the decoder of
    this file, the text is the trie, respectively the tree. *)
Theorem ids_deduplicated_in_both_builders (log : list (string * atom)) :
  exists t g,
    add_all TrieManager._add_to_trie (PyDict []) log = Ok t /\
    add_all add_ingredient (PyDict []) log = Ok g /\
    (forall sep rows, log = insertions sep rows -> sep <> EmptyString ->
       TrieManager.build sep rows = Ok t) /\
    (forall rows, log = insertions GenerateTrie.SEPARATOR rows ->
       GenerateTrie.build rows = Ok g) /\
    (forall w path w',
       json_dump w path t = Ok w' ->
       artifact w' path = Some (text_of (iterencode t)) /\
       json_loads (text_of (iterencode t)) = Some t) /\
    (forall set_order, (forall l, Permutation (set_order l) l) ->
       forall w path w',
         json_dump w path (GenerateTrie.with_default set_order g) = Ok w' ->
         artifact w' path
         = Some (text_of (iterencode (GenerateTrie.with_default set_order g))) /\
         json_loads (text_of (iterencode (GenerateTrie.with_default set_order g)))
         = Some (GenerateTrie.with_default set_order g)) /\
    forall p, In p (tokens log) ->
      let ids := first_seen (ids_of p log) in
      List.NoDup ids /\
      (forall x, In x ids <-> In x (ids_of p log)) /\
      ids_at t p = Some (PyList (map py_of_atom ids)) /\
      ids_at g p = Some (PySet (map py_of_atom ids)) /\
      forall set_order,
        ids_at (GenerateTrie.with_default set_order g) p
        = Some (PyList (set_order (map py_of_atom ids))) /\
        (Permutation (set_order (map py_of_atom ids)) (map py_of_atom ids) ->
         List.NoDup (set_order (map py_of_atom ids)) /\
         forall x, In x (set_order (map py_of_atom ids)) <-> In x (map py_of_atom ids)).
Proof.
  destruct (trie_spec log) as (t & Hall & Hwf & Hids & _).
  destruct (gen_trie_spec log) as (g & Hgall & Hgwf & Hgids & _).
  exists t, g. split; [exact Hall|]. split; [exact Hgall|].
  split; [|split; [|split; [|split]]].
  - intros sep rows -> Hsep. now rewrite build_add_all.
  - intros rows ->. now rewrite gen_build_add_all.
  - intros w path w' Hdump. destruct (dumps_loads t Hwf) as [_ Hl].
    destruct (json_dump_ok _ _ _ _ Hdump) as (Hfile & _).
    split; [|exact Hl]. unfold artifact. now rewrite Hfile.
  - intros set_order Hperm w path w' Hdump.
    destruct (dumps_loads _ (with_default_wf set_order g Hperm Hgwf)) as [_ Hl].
    destruct (json_dump_ok _ _ _ _ Hdump) as (Hfile & _).
    split; [|exact Hl]. unfold artifact. now rewrite Hfile.
  - intros p Hp ids. split; [apply first_seen_NoDup|].
    split; [intros x; apply first_seen_In|].
    split; [now rewrite Hids, (ids_after_token AsList)|].
    split; [now rewrite Hgids, (ids_after_token AsSet)|].
    intros set_order. split.
    + rewrite (ids_at_with_default _ AsSet) by exact Hgwf.
      now rewrite Hgids, (ids_after_token AsSet).
    + intros Hperm. split.
      * apply (Permutation_NoDup (Permutation_sym Hperm)).
        apply NoDup_map_py_of_atom, first_seen_NoDup.
      * intros x. split; apply Permutation_in; [exact Hperm|now symmetry].
Qed.

(** C6, counterexample.  Two rows carry the ingredient a, the row with id 3
    before the row with id 1.  [TrieManager] keeps the ids as 3, 1.
    generate_trie.py, under an interpreter that walks a set of numbers in
    ascending order, hands them to the encoder as 1, 3, and so they stand in
    the artifact. *)
Lemma set_ids_lose_first_seen_order :
  first_seen (ids_of "a" (insertions ";" two_rows)) = [AInt 3; AInt 1] /\
  (t ← TrieManager.build ";" two_rows; Ok (ids_at t "a"))
  = Ok (Some (PyList [PyInt 3; PyInt 1])) /\
  (forall l, Permutation (ascending l) l) /\
  (g ← GenerateTrie.build two_rows; Ok (ids_at g "a"))
  = Ok (Some (PySet [PyInt 3; PyInt 1])) /\
  (g ← GenerateTrie.build two_rows;
   Ok (ids_at (GenerateTrie.with_default ascending g) "a"))
  = Ok (Some (PyList [PyInt 1; PyInt 3])) /\
  (w' ← GenerateTrie.generate_ingredients_trie ascending (fun _ _ _ => Ok two_rows)
          two_rows_world;
   Ok (text ← artifact w' GenerateTrie.OUTPUT_FILE; json_loads text))
  = Ok (Some (PyDict [("a", PyDict [(SENTINEL, PyList [PyInt 1; PyInt 3])])])).
Proof.
  split; [vm_compute; reflexivity|].
  split; [vm_compute; reflexivity|].
  split; [exact ascending_perm|].
  split; [vm_compute; reflexivity|].
  split; vm_compute; reflexivity.
Qed.

(** * Further properties of the trie *)

(** ** Inserting twice *)

Lemma add_id_twice l x : add_id (add_id l x) x = add_id l x.
Proof.
  unfold add_id. destruct (existsb (py_eq_atom x) l) eqn:E.
  - now rewrite E.
  - rewrite existsb_app. simpl.
    rewrite py_eq_atom_of_atom, atom_eqb_refl, orb_true_r. reflexivity.
Qed.

Section Twice.

Variable s : id_store.
Variable add_chars : pyval -> list string -> atom -> result pyval.

Hypothesis add_chars_nil : forall d doc_id,
  wf_node s (PyDict d) = true ->
  add_chars (PyDict d) [] doc_id
  = Ok (PyDict (dict_set d SENTINEL
                  (store s (add_id (ids_or_empty (dict_get d SENTINEL)) doc_id)))).

Hypothesis add_chars_cons : forall d c cs doc_id,
  add_chars (PyDict d) (c :: cs) doc_id
  = child' ← add_chars (child_or_empty (dict_get d c)) cs doc_id;
    Ok (PyDict (dict_set d c child')).

Lemma add_chars_twice w : forall t doc_id,
  wf_node s t = true ->
  exists t',
    add_chars t (chars w) doc_id = Ok t' /\
    wf_node s t' = true /\
    add_chars t' (chars w) doc_id = Ok t'.
Proof.
  induction w as [|a w IH]; intros t doc_id Hwf;
    destruct (wf_is_dict _ _ Hwf) as [d ->].
  - cbn [chars]. rewrite (add_chars_nil _ _ Hwf).
    assert (Hwf' : wf_node s (PyDict (dict_set d SENTINEL
                     (store s (add_id (ids_or_empty (dict_get d SENTINEL)) doc_id)))) = true).
    { apply wf_set_ids; [exact Hwf|]. rewrite is_ids_store. apply add_id_atoms.
      now apply (ids_or_empty_atoms s). }
    eexists. split; [reflexivity|]. split; [exact Hwf'|].
    rewrite (add_chars_nil _ _ Hwf').
    rewrite dict_get_set_eq, ids_or_empty_Some_store, add_id_twice, dict_set_set.
    reflexivity.
  - cbn [chars]. rewrite add_chars_cons.
    set (c := String a EmptyString).
    assert (Hchild : wf_node s (child_or_empty (dict_get d c)) = true).
    { destruct (dict_get d c) as [v|] eqn:E; [|reflexivity].
      now apply (wf_dict_child s d a). }
    destruct (IH _ doc_id Hchild) as (child' & Hadd & Hwf' & Hagain).
    rewrite Hadd. cbn [mbind result_bind].
    eexists. split; [reflexivity|]. split; [now apply wf_set_child|].
    rewrite add_chars_cons, dict_get_set_eq. cbn [child_or_empty].
    rewrite Hagain. cbn [mbind result_bind]. now rewrite dict_set_set.
Qed.

End Twice.

(** X1.  Inserting the same word with the same id a second time changes
    nothing, in either builder: the second call returns the trie the first
    one left. *)
Theorem insertion_is_idempotent (word : string) (doc_id : atom) :
  (forall t, wf_trie t = true ->
     exists t', TrieManager._add_to_trie t word doc_id = Ok t' /\
                wf_trie t' = true /\
                TrieManager._add_to_trie t' word doc_id = Ok t') /\
  (forall g, wf_node AsSet g = true ->
     exists g', GenerateTrie.add_to_trie g word doc_id = Ok g' /\
                wf_node AsSet g' = true /\
                GenerateTrie.add_to_trie g' word doc_id = Ok g').
Proof.
  split.
  - intros t Hwf. unfold TrieManager._add_to_trie.
    destruct (String.eqb (strip (lower word)) EmptyString).
    + exists t. now split; [|split].
    + apply (add_chars_twice AsList TrieManager.add_chars); [| |exact Hwf].
      * intros d x H. now apply add_ids_dict.
      * apply add_chars_dict.
  - intros g Hwf. unfold GenerateTrie.add_to_trie.
    apply (add_chars_twice AsSet GenerateTrie.add_chars); [| |exact Hwf].
    + intros d x H. now apply gen_add_ids_dict.
    + apply gen_add_chars_dict.
Qed.

Lemma insertion_is_idempotent_witness :
  wf_trie old_trie = true /\
  exists t', TrieManager._add_to_trie old_trie " Ab" (AInt 3) = Ok t' /\
             TrieManager._add_to_trie t' " Ab" (AInt 3) = Ok t'.
Proof.
  split; [reflexivity|].
  destruct (insertion_is_idempotent " Ab" (AInt 3)) as [H _].
  destruct (H old_trie eq_refl) as (t' & H1 & _ & H2). now exists t'.
Defined.

(** ** What a search finds *)

(** X2.  On a well-formed trie a search for a string raises
    [RecursionError] when a path of as many characters as there is room for
    calls of [_dfs], or more, starts with the lower-cased prefix; otherwise
    it returns, each once, the words that start with the lower-cased prefix
    and whose node carries ids; for the empty string it returns nothing. *)
Theorem search_finds_each_word_once (room : nat) (self : TrieManager.manager) (p : string)
    (Hwf : wf_trie (TrieManager.trie_root self) = true) :
  let t := TrieManager.trie_root self in
  (too_deep room t p = true
   <-> p <> EmptyString /\
       exists q, room <= String.length q /\ is_Some (node_at t (lower p +:+ q))) /\
  (too_deep room t p = true -> Interp.search room self (PyStr p) = Raise RecursionError) /\
  (too_deep room t p = false ->
   exists ws,
     Interp.search room self (PyStr p) = Ok (PyList (map PyStr ws)) /\
     List.NoDup ws /\
     forall w, In w ws
               <-> p <> EmptyString /\ is_prefix (lower p) w = true /\
                   is_Some (ids_at t w)) /\
  Interp.search room self (PyStr EmptyString) = Ok (PyList []).
Proof.
  intros t. subst t. split; [now apply too_deep_paths|].
  rewrite (interp_search_matches _ _ _ Hwf). split; [now intros ->|]. split.
  - intros ->. exists (matches (TrieManager.trie_root self) p).
    split; [reflexivity|]. split; [now apply matches_NoDup|].
    intros w. now apply matches_ids.
  - reflexivity.
Qed.

Lemma search_finds_each_word_once_witness :
  exists ws,
    Interp.search 5 scenario_manager (PyStr "O") = Ok (PyList (map PyStr ws)) /\
    List.NoDup ws /\ In "onion" ws.
Proof.
  destruct (search_finds_each_word_once 5 scenario_manager "O" eq_refl) as (_ & _ & H & _).
  destruct (H eq_refl) as (ws & H1 & H2 & H3).
  exists ws. split; [exact H1|]. split; [exact H2|].
  apply H3. split; [discriminate|]. split; [reflexivity|]. vm_compute. eexists. reflexivity.
Defined.

(** X3.  Inserting a word adds that word, normalised, to what the searches
    find and changes nothing else.  After the insertion a search raises
    [RecursionError] where it did before and where the lower-cased prefix
    starts the normalised word and the word is longer than the prefix by the
    room there is for calls of [_dfs], or more; otherwise it returns what
    the search before the insertion returns and, where the lower-cased
    prefix starts the normalised word and neither is empty, that word. *)
Theorem insertion_adds_one_word
    (room : nat) (self : TrieManager.manager) (word : string) (doc_id : atom)
    (Hwf : wf_trie (TrieManager.trie_root self) = true) :
  exists t',
    TrieManager._add_to_trie (TrieManager.trie_root self) word doc_id = Ok t' /\
    wf_trie t' = true /\
    forall p,
      (too_deep room t' p = true
       <-> too_deep room (TrieManager.trie_root self) p = true \/
           (p <> EmptyString /\ is_prefix (lower p) (strip (lower word)) = true /\
            String.length p + room <= String.length (strip (lower word)))) /\
      (too_deep room t' p = true ->
       Interp.search room (TrieManager.set_trie_root self t') (PyStr p)
       = Raise RecursionError) /\
      (too_deep room t' p = false ->
       exists before after,
         Interp.search room self (PyStr p) = Ok (PyList (map PyStr before)) /\
         Interp.search room (TrieManager.set_trie_root self t') (PyStr p)
         = Ok (PyList (map PyStr after)) /\
         forall w, In w after
                   <-> In w before \/
                       (w = strip (lower word) /\ w <> EmptyString /\
                        p <> EmptyString /\ is_prefix (lower p) w = true)).
Proof.
  destruct (add_word_spec AsList TrieManager.add_chars TrieManager._add_to_trie
              (fun d x H => add_ids_dict d x H) add_chars_dict add_to_trie_eq
              (TrieManager.trie_root self) word doc_id Hwf)
    as (t' & Hadd & Hwf' & Hids & Hreach).
  exists t'. split; [exact Hadd|]. split; [exact Hwf'|]. intros p.
  fold (clean word) in *.
  assert (Hdeep : too_deep room t' p = true
                  <-> too_deep room (TrieManager.trie_root self) p = true \/
                      (p <> EmptyString /\ is_prefix (lower p) (clean word) = true /\
                       String.length p + room <= String.length (clean word))).
  { rewrite !too_deep_paths by assumption. split.
    - intros (Hp & q & Hq & Hn). apply Hreach in Hn as [Hn|[_ Hpre]].
      + left. split; [exact Hp|]. now exists q.
      + right. split; [exact Hp|]. split; [now apply (is_prefix_app_l _ q)|].
        apply is_prefix_split in Hpre as [r ->].
        rewrite !length_append, lower_length. lia.
    - intros [(Hp & q & Hq & Hn)|(Hp & Hpre & Hlen)]; (split; [exact Hp|]).
      + exists q. split; [exact Hq|]. apply Hreach. now left.
      + apply is_prefix_split in Hpre as [q Hq]. exists q. split.
        * rewrite Hq, length_append, lower_length in Hlen. lia.
        * apply Hreach. right. rewrite <- Hq. split; [|apply is_prefix_refl].
          unfold nonempty. destruct (clean word); [|reflexivity].
          destruct p; [now contradiction Hp|discriminate Hq]. }
  split; [exact Hdeep|].
  rewrite (interp_search_matches room (TrieManager.set_trie_root self t') p Hwf').
  cbn [TrieManager.trie_root TrieManager.set_trie_root].
  split; [now intros ->|]. intros Hd. rewrite Hd.
  assert (Hd0 : too_deep room (TrieManager.trie_root self) p = false).
  { destruct (too_deep room (TrieManager.trie_root self) p) eqn:E; [|reflexivity].
    rewrite <- Hd. symmetry. apply Hdeep. now left. }
  exists (matches (TrieManager.trie_root self) p), (matches t' p).
  rewrite (interp_search_matches _ _ _ Hwf), Hd0.
  split; [reflexivity|]. split; [reflexivity|].
  intros w. rewrite !matches_ids by assumption. rewrite Hids.
  unfold nonempty. destruct (String.eqb (clean word) EmptyString) eqn:Ee; cbn [negb andb].
  - apply String.eqb_eq in Ee. split; [now left|].
    intros [H|(-> & Hne & _)]; [exact H|]. congruence.
  - apply String.eqb_neq in Ee. destruct (String.eqb (clean word) w) eqn:Ew.
    + apply String.eqb_eq in Ew. subst w. split.
      * intros (Hp & Hpre & _). right. now repeat split.
      * intros [(Hp & Hpre & _)|(_ & _ & Hp & Hpre)];
          (split; [exact Hp|split; [exact Hpre|eexists; reflexivity]]).
    + apply String.eqb_neq in Ew. split; [now left|].
      intros [H|(-> & _)]; [exact H|]. congruence.
Qed.

Lemma insertion_adds_one_word_witness :
  exists t',
    TrieManager._add_to_trie (TrieManager.trie_root scenario_manager) " Tofu" (AInt 9) = Ok t' /\
    exists after,
      Interp.search 5 (TrieManager.set_trie_root scenario_manager t') (PyStr "to")
      = Ok (PyList (map PyStr after)) /\ In "tofu" after /\ In "tomato" after.
Proof.
  destruct (insertion_adds_one_word 5 scenario_manager " Tofu" (AInt 9) eq_refl)
    as (t' & Hadd & _ & H).
  exists t'. split; [exact Hadd|].
  destruct (H "to") as (Hdeep & _ & Hret).
  assert (Hd : too_deep 5 t' "to" = false).
  { apply not_true_is_false. intros E.
    apply Hdeep in E as [E|(_ & _ & E)]; [vm_compute in E; discriminate E|].
    vm_compute in E. lia. }
  destruct (Hret Hd) as (before & after & Hb & Ha & Hw).
  exists after. split; [exact Ha|].
  vm_compute in Hb. injection Hb as Hb.
  split; apply Hw.
  - right. vm_compute. repeat split; discriminate.
  - left. destruct before as [|b [|? ?]]; try discriminate Hb.
    injection Hb as <-. now left.
Defined.

(** ** The order of the rows *)

Lemma tokens_In w log :
  In w (tokens log) <-> exists e, In e log /\ clean (fst e) = w /\ nonempty w = true.
Proof.
  unfold tokens. rewrite filter_In, in_map_iff. split.
  - intros [(e & <- & Hin) Hne]. now exists e.
  - intros (e & Hin & <- & Hne). split; [now exists e|exact Hne].
Qed.

Lemma tokens_perm log log' w :
  Permutation log log' -> In w (tokens log) <-> In w (tokens log').
Proof.
  intros Hperm. rewrite !tokens_In.
  split; intros (e & Hin & H); exists e; (split; [|exact H]).
  - now apply (Permutation_in _ Hperm).
  - now apply (Permutation_in _ (Permutation_sym Hperm)).
Qed.

Lemma insertions_perm sep rows rows' :
  Permutation rows rows' -> Permutation (insertions sep rows) (insertions sep rows').
Proof. intros H. unfold insertions. now apply Permutation_flat_map. Qed.

(** X4.  The order of the rows of the source does not change what a search
    finds, only the order it lists the words in: of two sources with the
    same rows in different orders, the searches in the two tries both raise
    [RecursionError], where a token that starts with the lower-cased prefix
    is longer than the prefix by the room there is for calls of [_dfs] or
    more, or both return, and then the same words. *)
Theorem search_ignores_row_order (room : nat) (sep : string) (rows rows' : list row)
    (Hsep : sep <> EmptyString) (Hperm : Permutation rows rows') :
  exists t t',
    TrieManager.build sep rows = Ok t /\
    TrieManager.build sep rows' = Ok t' /\
    forall self p,
      let long :=
        p <> EmptyString /\
        exists tok, In tok (tokens (insertions sep rows)) /\
                    is_prefix (lower p) tok = true /\
                    String.length p + room <= String.length tok in
      (long ->
       Interp.search room (TrieManager.set_trie_root self t) (PyStr p)
       = Raise RecursionError /\
       Interp.search room (TrieManager.set_trie_root self t') (PyStr p)
       = Raise RecursionError) /\
      (~ long ->
       exists ws ws',
         Interp.search room (TrieManager.set_trie_root self t) (PyStr p)
         = Ok (PyList (map PyStr ws)) /\
         Interp.search room (TrieManager.set_trie_root self t') (PyStr p)
         = Ok (PyList (map PyStr ws')) /\
         Permutation ws ws').
Proof.
  destruct (trie_spec (insertions sep rows)) as (t & Hall & Hwf & _).
  destruct (trie_spec (insertions sep rows')) as (t' & Hall' & Hwf' & _).
  exists t, t'. rewrite !build_add_all by exact Hsep.
  split; [exact Hall|]. split; [exact Hall'|]. intros self p long.
  pose proof (too_deep_tokens _ _ room p Hall) as Hd.
  pose proof (too_deep_tokens _ _ room p Hall') as Hd'.
  assert (Hsame : too_deep room t' p = true <-> long).
  { rewrite Hd'. subst long. apply and_iff_compat_l.
    split; intros (tok & Htok & H); exists tok; (split; [|exact H]);
      now apply (tokens_perm _ _ tok (insertions_perm sep _ _ Hperm)). }
  rewrite (interp_search_matches room (TrieManager.set_trie_root self t) p Hwf).
  rewrite (interp_search_matches room (TrieManager.set_trie_root self t') p Hwf').
  cbn [TrieManager.trie_root TrieManager.set_trie_root]. split.
  - intros Hlong. apply Hsame in Hlong as Hl'. apply Hd in Hlong. now rewrite Hlong, Hl'.
  - intros Hnot.
    assert (too_deep room t p = false) as ->
      by (apply not_true_is_false; intros E; apply Hnot, Hd, E).
    assert (too_deep room t' p = false) as ->
      by (apply not_true_is_false; intros E; apply Hnot, Hsame, E).
    exists (matches t p), (matches t' p).
    split; [reflexivity|]. split; [reflexivity|].
    apply Stdlib.Sorting.Permutation.NoDup_Permutation;
      [now apply matches_NoDup|now apply matches_NoDup|].
    intros w. rewrite (matches_spec _ _ Hall), (matches_spec _ _ Hall').
    now rewrite (tokens_perm _ _ w (insertions_perm sep _ _ Hperm)).
Qed.

Lemma search_ignores_row_order_witness :
  exists t t',
    TrieManager.build ";" scenario_rows = Ok t /\
    TrieManager.build ";" (rev scenario_rows) = Ok t' /\
    exists ws ws',
      Interp.search 5 (TrieManager.set_trie_root scenario_manager t) (PyStr "o")
      = Ok (PyList (map PyStr ws)) /\
      Interp.search 5 (TrieManager.set_trie_root scenario_manager t') (PyStr "o")
      = Ok (PyList (map PyStr ws')) /\
      Permutation ws ws'.
Proof.
  assert (Hsep : ";" <> EmptyString) by discriminate.
  destruct (search_ignores_row_order 5 ";" scenario_rows (rev scenario_rows) Hsep
              (Permutation_rev scenario_rows)) as (t & t' & H1 & H2 & H).
  exists t, t'. split; [exact H1|]. split; [exact H2|].
  apply (H scenario_manager "o"). intros (_ & tok & Htok & Hpre & Hlen).
  vm_compute in Htok.
  repeat (destruct Htok as [<-|Htok];
          [first [discriminate Hpre|simpl in Hlen; lia]|]).
  destruct Htok.
Defined.

(** ** The two builders on the same rows *)

Lemma dict_set_map (f : pyval -> pyval) d k v :
  dict_set (map (fun kv => (fst kv, f (snd kv))) d) k (f v)
  = map (fun kv => (fst kv, f (snd kv))) (dict_set d k v).
Proof.
  induction d as [|[k0 v0] d IH]; simpl; [reflexivity|].
  destruct (String.eqb k0 k); simpl; [reflexivity|now rewrite IH].
Qed.

Lemma as_lists_wf g : wf_node AsSet g = true -> wf_trie (as_lists g) = true.
Proof. apply with_default_wf. intros l. reflexivity. Qed.

Lemma as_lists_child_or_empty o :
  child_or_empty (option_map as_lists o) = as_lists (child_or_empty o).
Proof. now destruct o. Qed.

(** One insertion by generate_trie.py, seen through [set_default], is the
    insertion [TrieManager] makes. *)
Lemma add_chars_as_lists w : forall g doc_id,
  wf_node AsSet g = true ->
  exists g',
    GenerateTrie.add_chars g (chars w) doc_id = Ok g' /\
    wf_node AsSet g' = true /\
    TrieManager.add_chars (as_lists g) (chars w) doc_id = Ok (as_lists g').
Proof.
  induction w as [|a w IH]; intros g doc_id Hwf;
    destruct (wf_is_dict _ _ Hwf) as [d ->].
  - cbn [chars GenerateTrie.add_chars TrieManager.add_chars].
    rewrite (gen_add_ids_dict _ _ Hwf).
    assert (Hwf' : wf_node AsSet (PyDict (dict_set d SENTINEL
                     (store AsSet (add_id (ids_or_empty (dict_get d SENTINEL)) doc_id)))) = true).
    { apply wf_set_ids; [exact Hwf|]. rewrite is_ids_store. apply add_id_atoms.
      now apply (ids_or_empty_atoms AsSet). }
    eexists. split; [reflexivity|]. split; [exact Hwf'|].
    pose proof (as_lists_wf _ Hwf) as Hl. unfold as_lists in *.
    rewrite with_default_dict in Hl |- *. rewrite (add_ids_dict _ _ Hl).
    rewrite with_default_dict, dict_get_map. do 2 f_equal.
    rewrite <- (dict_set_map (GenerateTrie.with_default (fun l => l))). f_equal.
    destruct (dict_get d SENTINEL) as [v|] eqn:E; [|reflexivity].
    pose proof (wf_dict_ids _ _ _ Hwf E) as Hv.
    destruct v; try discriminate Hv. reflexivity.
  - cbn [chars]. rewrite gen_add_chars_dict.
    set (c := String a EmptyString).
    assert (Hchild : wf_node AsSet (child_or_empty (dict_get d c)) = true).
    { destruct (dict_get d c) as [v|] eqn:E; [|reflexivity].
      now apply (wf_dict_child AsSet d a). }
    destruct (IH _ doc_id Hchild) as (child' & Hadd & Hwf' & Hsim).
    rewrite Hadd. cbn [mbind result_bind].
    eexists. split; [reflexivity|]. split; [now apply wf_set_child|].
    unfold as_lists in *. rewrite !with_default_dict, add_chars_dict, dict_get_map.
    fold as_lists. rewrite as_lists_child_or_empty. unfold as_lists.
    rewrite Hsim. cbn [mbind result_bind]. now rewrite dict_set_map.
Qed.

Lemma add_all_as_lists log : forall g,
  wf_node AsSet g = true ->
  exists g',
    add_all add_ingredient g log = Ok g' /\
    wf_node AsSet g' = true /\
    add_all TrieManager._add_to_trie (as_lists g) log = Ok (as_lists g').
Proof.
  induction log as [|[word doc_id] log IH]; intros g Hwf.
  - exists g. now split; [|split].
  - cbn [add_all]. rewrite add_ingredient_eq, add_to_trie_eq.
    destruct (nonempty (clean word)).
    + destruct (add_chars_as_lists (clean word) g doc_id Hwf) as (g1 & H1 & Hwf1 & H2).
      rewrite H1, H2. cbn [mbind result_bind]. now apply IH.
    + cbn [mbind result_bind]. now apply IH.
Qed.

Lemma words_with_default set_order g : forall current_word,
  words (GenerateTrie.with_default set_order g) current_word = words g current_word.
Proof.
  induction g as [| | | |l _|l _|l _|d IH] using pyval_ind; intros cur; try reflexivity.
  rewrite with_default_dict. cbn [words]. unfold dict_has. rewrite dict_get_map.
  f_equal; [now destruct (dict_get d SENTINEL)|].
  induction d as [|[k v] d IHd]; [reflexivity|].
  apply List.Forall_cons_iff in IH as [IHv IH]. cbn [map flat_map fst snd].
  rewrite (IHd IH). f_equal. destruct (String.eqb k SENTINEL); [reflexivity|].
  apply IHv.
Qed.

Lemma matches_with_default set_order s g p :
  wf_node s g = true ->
  matches (GenerateTrie.with_default set_order g) p = matches g p.
Proof.
  intros Hwf. unfold matches. destruct (String.eqb p EmptyString); [reflexivity|].
  rewrite (node_at_with_default _ s) by exact Hwf.
  destruct (node_at g (lower p)); [|reflexivity]. apply words_with_default.
Qed.

(** X5.  From the same rows generate_trie.py and [TrieManager] (with the
    separator of generate_trie.py) build the same trie, but for the ids being
    kept in sets and in lists: with every set read as the list of its
    elements in the order they came in, the two are equal.  So an artifact
    of generate_trie.py, in whatever order its sets are written, answers
    every search as the trie of [TrieManager] does, word for word. *)
Theorem builders_agree (rows : list row) :
  exists g t,
    GenerateTrie.build rows = Ok g /\
    TrieManager.build GenerateTrie.SEPARATOR rows = Ok t /\
    GenerateTrie.with_default (fun l => l) g = t /\
    forall set_order, (forall l, Permutation (set_order l) l) ->
      forall self p,
        TrieManager.search
          (TrieManager.set_trie_root self (GenerateTrie.with_default set_order g)) (PyStr p)
        = TrieManager.search (TrieManager.set_trie_root self t) (PyStr p).
Proof.
  destruct (add_all_as_lists (insertions GenerateTrie.SEPARATOR rows) (PyDict []) eq_refl)
    as (g & Hg & Hwf & Ht).
  exists g, (as_lists g). rewrite gen_build_add_all, build_add_all by discriminate.
  split; [exact Hg|]. split; [exact Ht|]. split; [reflexivity|].
  intros set_order Hperm self p.
  rewrite !search_matches
    by (cbn [TrieManager.trie_root TrieManager.set_trie_root];
        first [now apply with_default_wf|now apply as_lists_wf]).
  cbn [TrieManager.trie_root TrieManager.set_trie_root]. unfold as_lists.
  now rewrite !(matches_with_default _ AsSet) by exact Hwf.
Qed.

Lemma builders_agree_witness :
  (forall l, Permutation (ascending l) l) /\
  exists g t,
    GenerateTrie.build scenario_rows = Ok g /\
    TrieManager.build ";" scenario_rows = Ok t /\
    TrieManager.search
      (TrieManager.set_trie_root scenario_manager
         (GenerateTrie.with_default ascending g)) (PyStr "t")
    = TrieManager.search (TrieManager.set_trie_root scenario_manager t) (PyStr "t").
Proof.
  split; [exact ascending_perm|].
  destruct (builders_agree scenario_rows) as (g & t & Hg & Ht & _ & H).
  exists g, t. split; [exact Hg|]. split; [exact Ht|].
  exact (H ascending ascending_perm scenario_manager "t").
Defined.

(** ** Normalised items *)

Lemma lstrip_fixed s :
  match s with String c _ => is_space c = false | EmptyString => True end ->
  lstrip s = s.
Proof. destruct s as [|c s]; [reflexivity|]. simpl. now intros ->. Qed.

Lemma lstrip_head s :
  match lstrip s with String c _ => is_space c = false | EmptyString => True end.
Proof.
  induction s as [|c s IH]; [exact I|]. simpl.
  destruct (is_space c) eqn:E; [exact IH|exact E].
Qed.

Lemma rstrip_head s :
  match s with String c _ => is_space c = false | EmptyString => True end ->
  match rstrip s with String c _ => is_space c = false | EmptyString => True end.
Proof.
  destruct s as [|c s]; [trivial|]. intros Hc. simpl.
  destruct (rstrip s); [now rewrite Hc|exact Hc].
Qed.

Lemma rstrip_cons c s :
  rstrip (String c s)
  = match rstrip s with
    | EmptyString => if is_space c then EmptyString else String c EmptyString
    | String _ _ as r => String c r
    end.
Proof. reflexivity. Qed.

Lemma rstrip_idem s : rstrip (rstrip s) = rstrip s.
Proof.
  induction s as [|c s IH]; [reflexivity|]. rewrite rstrip_cons.
  destruct (rstrip s) as [|r0 r] eqn:E.
  - destruct (is_space c) eqn:Ec; [reflexivity|]. simpl. now rewrite Ec.
  - rewrite rstrip_cons, IH. reflexivity.
Qed.

Lemma strip_idem s : strip (strip s) = strip s.
Proof.
  unfold strip. rewrite (lstrip_fixed (rstrip (lstrip s))).
  - apply rstrip_idem.
  - apply rstrip_head, lstrip_head.
Qed.

Lemma clean_idem word : clean (clean word) = clean word.
Proof.
  unfold clean. rewrite (strip_lower (strip (lower word))), strip_idem.
  now rewrite <- strip_lower, lower_idem.
Qed.

Section Entries.

Variable add_chars : pyval -> list string -> atom -> result pyval.
Variable add_word : pyval -> string -> atom -> result pyval.

Hypothesis add_word_eq : forall t word doc_id,
  add_word t word doc_id
  = if nonempty (clean word) then add_chars t (chars (clean word)) doc_id else Ok t.

Lemma add_all_entries log : forall t,
  add_all add_word t log = add_all add_word t (entries log).
Proof.
  induction log as [|[word doc_id] log IH]; intros t; [reflexivity|].
  unfold entries. cbn [map List.filter fst snd add_all]. fold (entries log).
  rewrite add_word_eq. destruct (nonempty (clean word)) eqn:E.
  - cbn [add_all]. rewrite add_word_eq, clean_idem, E.
    destruct (add_chars t (chars (clean word)) doc_id); [apply IH|reflexivity].
  - apply IH.
Qed.

End Entries.

(** X6.  The builders read the items of a cell through the normalisation
    only: two sources whose cells give the same nonempty normalised items
    with the same ids, in the same order, give the same trie, whatever the
    case of the letters, the blanks around the items, the empty items and
    the rows without a cell. *)
Theorem build_reads_normalised_items (sep : string) (rows rows' : list row)
    (Hsep : sep <> EmptyString)
    (Hsame : entries (insertions sep rows) = entries (insertions sep rows')) :
  TrieManager.build sep rows = TrieManager.build sep rows' /\
  (sep = GenerateTrie.SEPARATOR -> GenerateTrie.build rows = GenerateTrie.build rows').
Proof.
  split.
  - rewrite !build_add_all by exact Hsep.
    rewrite (add_all_entries _ _ add_to_trie_eq (insertions sep rows)).
    rewrite (add_all_entries _ _ add_to_trie_eq (insertions sep rows')).
    now rewrite Hsame.
  - intros ->. rewrite !gen_build_add_all.
    rewrite (add_all_entries _ _ add_ingredient_eq (insertions _ rows)).
    rewrite (add_all_entries _ _ add_ingredient_eq (insertions _ rows')).
    now rewrite Hsame.
Qed.

Lemma build_reads_normalised_items_witness :
  TrieManager.build ";" [(AInt 1, Some " Tomato;;ONION "); (AInt 2, None); (AInt 3, Some "Leek")]
  = TrieManager.build ";" [(AInt 1, Some "tomato;onion"); (AInt 3, Some ";leek;")].
Proof.
  apply (build_reads_normalised_items ";"); [discriminate|reflexivity].
Defined.

(** ** The empty separator *)

Lemma build_empty_separator rows :
  TrieManager.build EmptyString rows
  = if has_data rows then Raise (ValueError "empty separator") else Ok (PyDict []).
Proof.
  unfold TrieManager.build. generalize (PyDict []) as t.
  induction rows as [|[doc_id [cell|]] rows IH]; intros t; try reflexivity.
  cbn [TrieManager.add_rows has_data existsb snd orb]. apply IH.
Qed.

(** X7.  [str.split] raises [ValueError] on the empty separator: with it
    [build] raises at the first cell that is present, and returns the empty
    trie when no row has a cell; with any other separator [build] returns.
    When a rebuild is due, pandas reads rows of which one has a cell and the
    separator is empty, the constructor raises that [ValueError], whatever
    is at the output path and whatever [json.load] does.  When no rebuild
    is due the separator is not looked at: the constructor goes on to
    load. *)
Theorem empty_separator_raises
    (parse_csv : csv_parser) (json_load : string -> result pyval) (w : world)
    (source_csv output_json id_col data_col : string) (rows : list row)
    (Hread : read_csv parse_csv w source_csv id_col data_col = Ok rows) :
  let fresh := TrieManager.up_to_date (get_mtime w source_csv) (get_mtime w output_json) in
  let init := Interp.__init__ parse_csv json_load w
                source_csv output_json id_col data_col EmptyString in
  TrieManager.build EmptyString rows
  = (if has_data rows then Raise (ValueError "empty separator") else Ok (PyDict [])) /\
  (forall sep, sep <> EmptyString -> exists t, TrieManager.build sep rows = Ok t) /\
  (fresh = false -> has_data rows = true -> init = Raise (ValueError "empty separator")) /\
  (fresh = true ->
   init = Interp._load_trie json_load
            (TrieManager.Manager source_csv output_json id_col data_col EmptyString
               (PyDict []))
            (print w ("[" +:+ output_json +:+ "] is up to date. Skipping generation."))).
Proof.
  intros fresh init. subst fresh init.
  split; [apply build_empty_separator|]. split; [|split].
  - intros sep Hsep. destruct (trie_spec (insertions sep rows)) as (t & Hall & _).
    exists t. now rewrite build_add_all.
  - intros Hdue Hdata.
    unfold Interp.__init__, TrieManager._generate_trie_if_needed,
      TrieManager._get_file_mtime.
    cbn [TrieManager.source_csv TrieManager.output_json TrieManager.id_col
         TrieManager.data_col TrieManager.separator].
    rewrite Hdue.
    change (read_csv parse_csv (print w ?l) source_csv id_col data_col)
      with (read_csv parse_csv w source_csv id_col data_col).
    rewrite Hread, build_empty_separator, Hdata. reflexivity.
  - intros Hfresh.
    unfold Interp.__init__, TrieManager._generate_trie_if_needed,
      TrieManager._get_file_mtime.
    cbn [TrieManager.source_csv TrieManager.output_json]. rewrite Hfresh. reflexivity.
Qed.

Lemma empty_separator_raises_witness :
  scenario_init scenario_csv fresh_world EmptyString
  = Raise (ValueError "empty separator").
Proof.
  assert (Hread : read_csv scenario_csv fresh_world "/data/search_db.csv" "id" "ingredients"
                  = Ok scenario_rows) by reflexivity.
  apply (empty_separator_raises scenario_csv scenario_json fresh_world
           "/data/search_db.csv" "/data/trie.json" "id" "ingredients" scenario_rows Hread);
    reflexivity.
Defined.

(** ** A root that is no object *)




(** ** A second run *)



(** ** A missing source *)



(** ** The root *)

Lemma ids_of_empty log : ids_of EmptyString log = [].
Proof.
  unfold ids_of. induction log as [|e log IH]; [reflexivity|]. cbn [List.filter].
  unfold nonempty at 1. destruct (String.eqb (clean (fst e)) EmptyString); exact IH.
Qed.

Lemma carries_ids_root d : carries_ids (PyDict d) = dict_has d SENTINEL.
Proof. reflexivity. Qed.

(** X11.  The empty word is never indexed: in the tries both builders make
    from rows the root carries no ids.  In generate_trie.py this rests on the
    test of the caller (line 59): [add_to_trie] itself, given a blank word,
    puts the id on the root. *)
Theorem built_root_carries_no_ids (sep : string) (rows : list row)
    (Hsep : sep <> EmptyString) :
  exists t g,
    TrieManager.build sep rows = Ok t /\
    GenerateTrie.build rows = Ok g /\
    carries_ids t = false /\
    carries_ids g = false /\
    forall blank doc_id, strip blank = EmptyString ->
      (TrieManager._add_to_trie t blank doc_id = Ok t) /\
      exists g', GenerateTrie.add_to_trie g blank doc_id = Ok g' /\
                 carries_ids g' = true /\
                 ids_at g' EmptyString = Some (PySet [py_of_atom doc_id]).
Proof.
  destruct (trie_spec (insertions sep rows)) as (t & Ht & Hwt & Hit & _).
  destruct (gen_trie_spec (insertions GenerateTrie.SEPARATOR rows)) as (g & Hg & Hwg & Hig & _).
  exists t, g. rewrite build_add_all by exact Hsep. rewrite gen_build_add_all.
  split; [exact Ht|]. split; [exact Hg|].
  destruct (wf_is_dict _ _ Hwt) as [dt ->]. destruct (wf_is_dict _ _ Hwg) as [dg ->].
  pose proof (Hit EmptyString) as Hrt. pose proof (Hig EmptyString) as Hrg.
  unfold ids_after in Hrt, Hrg. rewrite ids_of_empty, ids_at_root in Hrt, Hrg.
  rewrite !carries_ids_root. unfold dict_has. rewrite Hrt, Hrg.
  split; [reflexivity|]. split; [reflexivity|].
  intros blank doc_id Hblank. split.
  - rewrite add_to_trie_eq. unfold nonempty. now rewrite clean_empty, Hblank.
  - assert (Hc : clean blank = EmptyString).
    { apply String.eqb_eq. rewrite clean_empty, Hblank. reflexivity. }
    unfold GenerateTrie.add_to_trie. fold (clean blank). rewrite Hc. cbn [chars].
    cbn [GenerateTrie.add_chars]. rewrite (gen_add_ids_dict _ _ Hwg), Hrg.
    eexists. split; [reflexivity|]. rewrite carries_ids_root, ids_at_root.
    unfold dict_has. rewrite dict_get_set_eq. split; reflexivity.
Qed.

Lemma built_root_carries_no_ids_witness :
  exists t, TrieManager.build ";" scenario_rows = Ok t /\ carries_ids t = false.
Proof.
  assert (Hsep : ";" <> EmptyString) by discriminate.
  destruct (built_root_carries_no_ids ";" scenario_rows Hsep) as (t & g & H1 & _ & H2 & _).
  now exists t.
Defined.

(** * Properties of the flow layout *)

(** ** The items of the layout *)

Lemma nth_error_delete {A : Type} (l : list A) (n i : nat) :
  nth_error (take n l ++ drop (S n) l) i
  = if (i <? n)%nat then nth_error l i else nth_error l (S i).
Proof.
  revert n i. induction l as [|x l IH]; intros n i.
  - rewrite take_nil, drop_nil. destruct i; simpl; now destruct (_ <? _)%nat.
  - destruct n as [|n]; [reflexivity|]. destruct i as [|i]; [reflexivity|].
    cbn [take drop app nth_error]. rewrite IH.
    change (S i <? S n)%nat with (i <? n)%nat. reflexivity.
Qed.

Lemma length_delete {A : Type} (l : list A) (n : nat) :
  (n < List.length l)%nat ->
  List.length (take n l ++ drop (S n) l) = (List.length l - 1)%nat.
Proof.
  intros H. rewrite List.length_app, length_take, length_drop. lia.
Qed.

(** X12.  [itemAt] and [takeAt] answer [None], and [takeAt] leaves the
    layout as it is, for an index below zero or not below the count: a
    negative index does not count from the end.  For an index in range
    [takeAt] returns the item [itemAt] finds there, the count drops by one,
    the items before the index stay where they are and the items after it
    move down by one. *)
Theorem take_at_removes_one_item (self : FlowLayout.layout) (index : Z) :
  ((index < 0 \/ FlowLayout.count self <= index)%Z ->
   FlowLayout.itemAt self index = None /\
   FlowLayout.takeAt self index = (None, self)) /\
  ((0 <= index < FlowLayout.count self)%Z ->
   exists item,
     FlowLayout.itemAt self index = Some item /\
     fst (FlowLayout.takeAt self index) = Some item /\
     let self' := snd (FlowLayout.takeAt self index) in
     FlowLayout.count self' = (FlowLayout.count self - 1)%Z /\
     (forall i, (i < index)%Z -> FlowLayout.itemAt self' i = FlowLayout.itemAt self i) /\
     (forall i, (index <= i)%Z ->
        FlowLayout.itemAt self' i = FlowLayout.itemAt self (i + 1))).
Proof.
  unfold FlowLayout.count. split.
  - intros H. unfold FlowLayout.itemAt, FlowLayout.takeAt.
    assert ((0 <=? index)%Z && (index <? Z.of_nat (List.length (FlowLayout._item_list self)))%Z
            = false) as ->; [|now split].
    apply andb_false_iff.
    destruct H as [H|H]; [left; apply Z.leb_gt; lia|right; apply Z.ltb_ge; lia].
  - intros H. set (l := FlowLayout._item_list self) in *.
    assert (Hn : (Z.to_nat index < List.length l)%nat) by lia.
    destruct (nth_error l (Z.to_nat index)) as [item|] eqn:E;
      [|apply nth_error_None in E; lia].
    assert (Hin : (0 <=? index)%Z && (index <? Z.of_nat (List.length l))%Z = true)
      by (apply andb_true_iff; split; [apply Z.leb_le|apply Z.ltb_lt]; lia).
    exists item. unfold FlowLayout.itemAt at 1, FlowLayout.takeAt. fold l.
    rewrite Hin. cbn [fst snd]. split; [exact E|]. split; [exact E|].
    split; [|split].
    + cbn [FlowLayout._item_list FlowLayout.set_item_list].
      rewrite length_delete by exact Hn. lia.
    + intros i Hi. unfold FlowLayout.itemAt.
      cbn [FlowLayout._item_list FlowLayout.set_item_list]. fold l.
      rewrite length_delete by exact Hn.
      destruct (0 <=? i)%Z eqn:E0; [|reflexivity]. cbn [andb].
      assert ((i <? Z.of_nat (List.length l - 1))%Z = true) as ->
        by (apply Z.ltb_lt; lia).
      assert ((i <? Z.of_nat (List.length l))%Z = true) as -> by (apply Z.ltb_lt; lia).
      rewrite nth_error_delete.
      assert ((Z.to_nat i <? Z.to_nat index)%nat = true) as -> by (apply Nat.ltb_lt; lia).
      reflexivity.
    + intros i Hi. unfold FlowLayout.itemAt.
      cbn [FlowLayout._item_list FlowLayout.set_item_list]. fold l.
      rewrite length_delete by exact Hn.
      assert ((0 <=? i)%Z = true) as -> by (apply Z.leb_le; lia).
      assert ((0 <=? i + 1)%Z = true) as -> by (apply Z.leb_le; lia). cbn [andb].
      assert ((i <? Z.of_nat (List.length l - 1))%Z = (i + 1 <? Z.of_nat (List.length l))%Z)
        as ->.
      { destruct (i + 1 <? Z.of_nat (List.length l))%Z eqn:E1.
        - apply Z.ltb_lt in E1. apply Z.ltb_lt. lia.
        - apply Z.ltb_ge in E1. apply Z.ltb_ge. lia. }
      destruct (i + 1 <? Z.of_nat (List.length l))%Z; [|reflexivity].
      rewrite nth_error_delete.
      assert ((Z.to_nat i <? Z.to_nat index)%nat = false) as -> by (apply Nat.ltb_ge; lia).
      f_equal. lia.
Qed.

Lemma set_item_list_same self : FlowLayout.set_item_list self (FlowLayout._item_list self) = self.
Proof. now destruct self. Qed.

Lemma del_loop_empties rounds : forall self,
  (List.length (FlowLayout._item_list self) <= rounds)%nat ->
  FlowLayout.del_loop rounds self = FlowLayout.set_item_list self [].
Proof.
  induction rounds as [|rounds IH]; intros self H.
  - cbn [FlowLayout.del_loop]. destruct (FlowLayout._item_list self) eqn:E.
    + now rewrite <- E, set_item_list_same.
    + simpl in H. lia.
  - cbn [FlowLayout.del_loop]. unfold FlowLayout.count.
    destruct (FlowLayout._item_list self) as [|x l] eqn:E.
    + cbn [List.length Z.of_nat Z.eqb negb]. now rewrite <- E, set_item_list_same.
    + assert (negb (Z.of_nat (List.length (x :: l)) =? 0)%Z = true) as ->.
      { apply negb_true_iff, Z.eqb_neq. simpl. lia. }
      unfold FlowLayout.takeAt. rewrite E.
      assert ((0 <=? 0)%Z && (0 <? Z.of_nat (List.length (x :: l)))%Z = true) as ->.
      { apply andb_true_iff. split; [reflexivity|]. apply Z.ltb_lt. simpl. lia. }
      cbn [snd]. change (Z.to_nat 0) with 0%nat. cbn [take drop app]. rewrite drop_0.
      rewrite IH; [reflexivity|].
      cbn [FlowLayout._item_list FlowLayout.set_item_list]. cbn [List.length] in H. lia.
Qed.

(** X13.  [addItem] puts the item last: the count goes up by one, the new
    item is at the old count, the others are where they were, and taking the
    new item away gives the layout back.  The loop of [__del__] ends, with a
    layout that has lost its items and nothing else. *)
Theorem add_item_appends_and_del_empties (self : FlowLayout.layout) (item : QLayoutItem.t) :
  FlowLayout.count (FlowLayout.addItem self item) = (FlowLayout.count self + 1)%Z /\
  FlowLayout.itemAt (FlowLayout.addItem self item) (FlowLayout.count self) = Some item /\
  (forall i, (i < FlowLayout.count self)%Z ->
     FlowLayout.itemAt (FlowLayout.addItem self item) i = FlowLayout.itemAt self i) /\
  FlowLayout.takeAt (FlowLayout.addItem self item) (FlowLayout.count self)
  = (Some item, self) /\
  FlowLayout.__del__ self = FlowLayout.set_item_list self [] /\
  FlowLayout.count (FlowLayout.__del__ self) = 0%Z.
Proof.
  unfold FlowLayout.count, FlowLayout.addItem. set (l := FlowLayout._item_list self).
  assert (Hin : (0 <=? Z.of_nat (List.length l))%Z
                && (Z.of_nat (List.length l) <? Z.of_nat (List.length (l ++ [item])))%Z = true).
  { apply andb_true_iff. split; [apply Z.leb_le; lia|].
    apply Z.ltb_lt. rewrite List.length_app. simpl. lia. }
  split; [|split; [|split; [|split; [|split]]]].
  - cbn [FlowLayout._item_list FlowLayout.set_item_list].
    rewrite List.length_app. simpl. lia.
  - unfold FlowLayout.itemAt. cbn [FlowLayout._item_list FlowLayout.set_item_list].
    fold l. rewrite Hin, Nat2Z.id, nth_error_app2 by lia.
    now rewrite Nat.sub_diag.
  - intros i Hi. unfold FlowLayout.itemAt.
    cbn [FlowLayout._item_list FlowLayout.set_item_list]. fold l.
    destruct (0 <=? i)%Z eqn:E0; [|reflexivity]. apply Z.leb_le in E0. cbn [andb].
    assert ((i <? Z.of_nat (List.length (l ++ [item])))%Z = true) as ->
      by (apply Z.ltb_lt; rewrite List.length_app; simpl; lia).
    assert ((i <? Z.of_nat (List.length l))%Z = true) as -> by (apply Z.ltb_lt; lia).
    apply nth_error_app1. lia.
  - unfold FlowLayout.takeAt. cbn [FlowLayout._item_list FlowLayout.set_item_list].
    fold l. rewrite Hin, Nat2Z.id. f_equal.
    + rewrite nth_error_app2 by lia. now rewrite Nat.sub_diag.
    + rewrite take_app_length. rewrite drop_app_ge by lia.
      replace (S (List.length l) - List.length l)%nat with 1%nat by lia.
      cbn [drop]. rewrite app_nil_r. subst l. now destruct self.
  - unfold FlowLayout.__del__. now apply del_loop_empties.
  - unfold FlowLayout.__del__. now rewrite del_loop_empties.
Qed.

(** ** The baseline of a line *)

Lemma snap_loop_done rounds b max_ascent current_y grid_size :
  (current_y + max_ascent <= b)%Z ->
  FlowLayout.snap_loop rounds b max_ascent current_y grid_size = b.
Proof.
  intros H. destruct rounds as [|rounds]; [reflexivity|]. cbn [FlowLayout.snap_loop].
  assert ((b - max_ascent <? current_y)%Z = false) as -> by (apply Z.ltb_ge; lia).
  reflexivity.
Qed.

(** The loop of lines 128-129 has rounds enough: it ends with its test
    failing, wherever it starts. *)
Lemma snap_loop_exits rounds : forall b max_ascent current_y grid_size,
  (0 < grid_size)%Z ->
  (Z.to_nat (current_y + max_ascent - b) <= rounds)%nat ->
  (current_y + max_ascent
   <= FlowLayout.snap_loop rounds b max_ascent current_y grid_size)%Z.
Proof.
  induction rounds as [|rounds IH]; intros b ma cy g Hg H.
  - cbn [FlowLayout.snap_loop]. lia.
  - cbn [FlowLayout.snap_loop]. destruct (b - ma <? cy)%Z eqn:E.
    + apply Z.ltb_lt in E. apply IH; [exact Hg|]. lia.
    + apply Z.ltb_ge in E. lia.
Qed.

Lemma grid_line_above (r g : Z) :
  (0 <= r)%Z -> (0 < g)%Z ->
  (r <= (r + g - 1) / g * g < r + g)%Z /\ (((r + g - 1) / g * g) mod g = 0)%Z.
Proof.
  intros Hr Hg. split.
  - pose proof (Z.div_mod (r + g - 1) g) as H.
    pose proof (Z.mod_pos_bound (r + g - 1) g Hg) as Hm. lia.
  - now apply Z.mod_mul, Z.neq_sym, Z.lt_neq.
Qed.

Lemma snap_off self current_y max_ascent :
  FlowLayout.grid_enabled self && (0 <? FlowLayout.grid_size self)%Z = false ->
  FlowLayout.snap self current_y max_ascent = (current_y + max_ascent)%Z.
Proof. intros H. unfold FlowLayout.snap. now rewrite H. Qed.

Lemma snap_on self current_y max_ascent :
  FlowLayout.grid_enabled self && (0 <? FlowLayout.grid_size self)%Z = true ->
  let g := FlowLayout.grid_size self in
  let o := FlowLayout.grid_offset self in
  FlowLayout.snap self current_y max_ascent
  = ((Z.max (current_y + max_ascent - o) 0 + g - 1) / g * g + o)%Z.
Proof.
  intros H g o. unfold FlowLayout.snap. rewrite H. fold g o.
  apply andb_true_iff in H as [_ Hg]. apply Z.ltb_lt in Hg. fold g in Hg.
  assert ((if (current_y + max_ascent - o <? 0)%Z then 0%Z else (current_y + max_ascent - o)%Z)
          = Z.max (current_y + max_ascent - o) 0) as ->.
  { destruct (current_y + max_ascent - o <? 0)%Z eqn:E;
      [apply Z.ltb_lt in E|apply Z.ltb_ge in E]; lia. }
  apply snap_loop_done.
  pose proof (grid_line_above (Z.max (current_y + max_ascent - o) 0) g) as [Hb _]; lia.
Qed.

Lemma snap_above self current_y max_ascent :
  (current_y + max_ascent <= FlowLayout.snap self current_y max_ascent)%Z.
Proof.
  destruct (FlowLayout.grid_enabled self && (0 <? FlowLayout.grid_size self)%Z) eqn:E.
  - rewrite (snap_on _ _ _ E). apply andb_true_iff in E as [_ Hg]. apply Z.ltb_lt in Hg.
    pose proof (grid_line_above
                  (Z.max (current_y + max_ascent - FlowLayout.grid_offset self) 0)
                  (FlowLayout.grid_size self)) as [Hb _]; lia.
  - rewrite (snap_off _ _ _ E). lia.
Qed.

(** X14.  With the grid on and a grid size above zero the baseline of a
    line is the least of the values grid offset, grid offset + grid size,
    grid offset + 2 * grid size, ... that is not less than
    [current_y + max_ascent], the place the baseline has without the grid;
    the loop of lines 128-129 finds its test false from the start and never
    runs a round.  With the grid off, or a grid size of zero or less, the
    baseline is [current_y + max_ascent]. *)
Theorem baseline_snaps_to_the_next_grid_line
    (self : FlowLayout.layout) (current_y max_ascent : Z) :
  let g := FlowLayout.grid_size self in
  let o := FlowLayout.grid_offset self in
  let candidate := (current_y + max_ascent)%Z in
  let b := FlowLayout.snap self current_y max_ascent in
  (FlowLayout.grid_enabled self = true -> (0 < g)%Z ->
   (candidate <= b)%Z /\ (o <= b)%Z /\
   ((b - o) mod g = 0)%Z /\
   (b < Z.max candidate o + g)%Z /\
   (forall rounds,
      FlowLayout.snap_loop rounds b max_ascent current_y g = b) /\
   (b - max_ascent <? current_y)%Z = false) /\
  (FlowLayout.grid_enabled self = false \/ (g <= 0)%Z -> b = candidate).
Proof.
  intros g o candidate b. split.
  - intros Hon Hg.
    assert (E : FlowLayout.grid_enabled self && (0 <? FlowLayout.grid_size self)%Z = true).
    { rewrite Hon. now apply Z.ltb_lt. }
    pose proof (snap_on self current_y max_ascent E) as Hb. cbv zeta in Hb.
    fold g o candidate b in Hb.
    pose proof (grid_line_above (Z.max (candidate - o) 0) g) as [H1 H2]; [lia|exact Hg|].
    assert (Hc : (candidate <= b)%Z) by lia.
    split; [exact Hc|]. split; [lia|]. split; [|split; [lia|split]].
    + rewrite Hb. now replace ((Z.max (candidate - o) 0 + g - 1) / g * g + o - o)%Z
        with ((Z.max (candidate - o) 0 + g - 1) / g * g)%Z by lia.
    + intros rounds. apply snap_loop_done. exact Hc.
    + apply Z.ltb_ge. unfold candidate in Hc. lia.
  - intros H. apply snap_off. destruct H as [->|H]; [reflexivity|].
    apply andb_false_iff. right. apply Z.ltb_ge. exact H.
Qed.

(** ** The run of the layout *)

Lemma process_line_nil rect eff sp y dry st :
  FlowLayout.process_line rect eff sp [] y dry st = (y, st).
Proof. reflexivity. Qed.

Lemma process_line_cons rect eff sp line y dry st :
  line <> [] ->
  FlowLayout.process_line rect eff sp line y dry st
  = let m := FlowLayout.measure line 0 0 in
    let b := FlowLayout.snap (FlowLayout.this st) y (fst m) in
    ((b + snd m + sp)%Z,
     if dry then st
     else FlowLayout.Run
            (FlowLayout.set_line_debug_positions (FlowLayout.this st)
               (FlowLayout._line_debug_positions (FlowLayout.this st) ++ [(b, eff)]))
            (FlowLayout.calls st ++ FlowLayout.place line (QRect.x rect) b sp)).
Proof.
  intros H. destruct line as [|item line]; [congruence|].
  unfold FlowLayout.process_line. destruct (FlowLayout.measure (item :: line) 0 0).
  destruct dry; reflexivity.
Qed.

Lemma same_grid_refl a : same_grid a a.
Proof. now split; [|split]. Qed.

Lemma same_grid_sym a b : same_grid a b -> same_grid b a.
Proof. intros (H1 & H2 & H3). now split; [|split]. Qed.

Lemma same_grid_trans a b c : same_grid a b -> same_grid b c -> same_grid a c.
Proof.
  intros (H1 & H2 & H3) (H4 & H5 & H6). split; [|split]; congruence.
Qed.

Lemma same_grid_debug a l : same_grid (FlowLayout.set_line_debug_positions a l) a.
Proof. now split; [|split]. Qed.

Lemma snap_same_grid a b y m :
  same_grid a b -> FlowLayout.snap a y m = FlowLayout.snap b y m.
Proof. intros (H1 & H2 & H3). unfold FlowLayout.snap. now rewrite H1, H2, H3. Qed.

Lemma process_line_this rect eff sp line y dry st :
  same_grid (FlowLayout.this (snd (FlowLayout.process_line rect eff sp line y dry st)))
    (FlowLayout.this st).
Proof.
  destruct line as [|item line]; [apply same_grid_refl|].
  rewrite process_line_cons by discriminate. cbn [snd].
  destruct dry; [apply same_grid_refl|apply same_grid_debug].
Qed.

Lemma process_line_dry rect eff sp line y st :
  snd (FlowLayout.process_line rect eff sp line y true st) = st.
Proof.
  destruct line as [|item line]; [reflexivity|].
  now rewrite process_line_cons by discriminate.
Qed.

(** The cursor a line leaves does not depend on the rectangle's left edge,
    on the run being dry, or on the calls made; without the grid it moves
    with the cursor the line starts from. *)
Lemma process_line_cursor rect1 rect2 eff sp line y d dry1 dry2 st1 st2 :
  same_grid (FlowLayout.this st1) (FlowLayout.this st2) ->
  d = 0%Z \/
  FlowLayout.grid_enabled (FlowLayout.this st1)
  && (0 <? FlowLayout.grid_size (FlowLayout.this st1))%Z = false ->
  fst (FlowLayout.process_line rect2 eff sp line (y + d) dry2 st2)
  = (fst (FlowLayout.process_line rect1 eff sp line y dry1 st1) + d)%Z.
Proof.
  intros Hg Hd. destruct line as [|item line]; [reflexivity|].
  rewrite !process_line_cons by discriminate. cbn [fst].
  rewrite <- (snap_same_grid _ _ _ _ Hg). destruct Hd as [->|Hoff].
  - rewrite !Z.add_0_r. reflexivity.
  - rewrite !(snap_off _ _ _ Hoff). lia.
Qed.

Lemma layout_loop_cons rect eff sp ap item items line cx y st :
  FlowLayout.layout_loop rect eff sp ap (item :: items) line cx y st
  = if (0 <? List.length line)%nat
       && ((eff <? cx + hint_width item)%Z || breaks item)
    then FlowLayout.layout_loop rect eff sp ap items [item] (hint_width item + sp)
           (fst (FlowLayout.process_line rect eff sp line y (negb ap) st))
           (snd (FlowLayout.process_line rect eff sp line y (negb ap) st))
    else FlowLayout.layout_loop rect eff sp ap items (line ++ [item])
           (cx + hint_width item + sp) y st.
Proof.
  cbn [FlowLayout.layout_loop]. fold (hint_width item). fold (breaks item).
  destruct ((0 <? List.length line)%nat && ((eff <? cx + hint_width item)%Z || breaks item)).
  - destruct (FlowLayout.process_line rect eff sp line y (negb ap) st). reflexivity.
  - reflexivity.
Qed.

(** An invariant of the loop of lines 149-169 holds after it, if it holds
    before it and each of the two ways through the body keeps it. *)
Section Loop.

Variable rect : QRect.t.
Variables eff sp : Z.
Variable ap : bool.
Variable I : list QLayoutItem.t -> list QLayoutItem.t -> Z -> Z -> FlowLayout.run -> Prop.

Hypothesis goes_on : forall seen line cx y st item,
  I seen line cx y st ->
  (line = [] \/ ((cx + hint_width item <= eff)%Z /\ breaks item = false)) ->
  I (seen ++ [item]) (line ++ [item]) (cx + hint_width item + sp)%Z y st.

Hypothesis wraps : forall seen line cx y st item,
  I seen line cx y st ->
  line <> [] ->
  ((eff < cx + hint_width item)%Z \/ breaks item = true) ->
  I (seen ++ [item]) [item] (hint_width item + sp)%Z
    (fst (FlowLayout.process_line rect eff sp line y (negb ap) st))
    (snd (FlowLayout.process_line rect eff sp line y (negb ap) st)).

Lemma layout_loop_invariant items : forall seen line cx y st,
  I seen line cx y st ->
  match FlowLayout.layout_loop rect eff sp ap items line cx y st with
  | (line', cx', y', st') => I (seen ++ items) line' cx' y' st'
  end.
Proof.
  induction items as [|item items IH]; intros seen line cx y st H.
  - cbn [FlowLayout.layout_loop]. now rewrite app_nil_r.
  - rewrite layout_loop_cons.
    replace (seen ++ item :: items) with ((seen ++ [item]) ++ items)
      by now rewrite <- app_assoc.
    destruct (0 <? List.length line)%nat eqn:El; cbn [andb].
    + destruct ((eff <? cx + hint_width item)%Z || breaks item) eqn:Ec.
      * apply IH. apply (wraps seen line cx y st item H).
        -- destruct line; [discriminate El|discriminate].
        -- apply orb_true_iff in Ec as [Ec|Ec]; [left; now apply Z.ltb_lt|now right].
      * apply IH. apply (goes_on seen line cx y st item H). right.
        apply orb_false_iff in Ec as [Ec1 Ec2]. apply Z.ltb_ge in Ec1. now split.
    + apply IH. apply (goes_on seen line cx y st item H). left. now destruct line.
Qed.

End Loop.

Lemma do_layout_eq self rect ap :
  FlowLayout._do_layout self rect ap
  = let self' := if ap then FlowLayout.set_line_debug_positions self [] else self in
    let r := FlowLayout.layout_loop rect (QRect.width rect) (FlowLayout.spacing self) ap
               (FlowLayout._item_list self) [] 0 (QRect.y rect) (FlowLayout.Run self' []) in
    let p := FlowLayout.process_line rect (QRect.width rect) (FlowLayout.spacing self)
               (fst (fst (fst r))) (snd (fst r)) (negb ap) (snd r) in
    ((fst p - QRect.y rect)%Z, snd p).
Proof.
  unfold FlowLayout._do_layout. cbv zeta.
  assert (FlowLayout._item_list (if ap then FlowLayout.set_line_debug_positions self [] else self)
          = FlowLayout._item_list self) as -> by now destruct ap.
  destruct (FlowLayout.layout_loop _ _ _ _ _ _ _ _ _) as [[[line cx] y] st]. cbn [fst snd].
  destruct line as [|item line]; [reflexivity|].
  destruct (FlowLayout.process_line _ _ _ _ _ _ _). reflexivity.
Qed.

(** Two runs of the loop over the same items, from cursors [d] apart, with
    the same grid: they break the lines alike and end [d] apart, if [d] is
    zero or the grid is off. *)
Lemma layout_loop_cursor rect1 rect2 eff sp ap1 ap2 d items :
  forall line cx y st1 st2,
    same_grid (FlowLayout.this st1) (FlowLayout.this st2) ->
    d = 0%Z \/
    FlowLayout.grid_enabled (FlowLayout.this st1)
    && (0 <? FlowLayout.grid_size (FlowLayout.this st1))%Z = false ->
    match FlowLayout.layout_loop rect1 eff sp ap1 items line cx y st1,
          FlowLayout.layout_loop rect2 eff sp ap2 items line cx (y + d) st2 with
    | (line1, cx1, y1, st1'), (line2, cx2, y2, st2') =>
        line2 = line1 /\ cx2 = cx1 /\ y2 = (y1 + d)%Z /\
        same_grid (FlowLayout.this st1') (FlowLayout.this st2') /\
        same_grid (FlowLayout.this st1') (FlowLayout.this st1)
    end.
Proof.
  induction items as [|item items IH]; intros line cx y st1 st2 Hg Hd.
  - cbn [FlowLayout.layout_loop]. repeat split; try reflexivity; try apply Hg.
  - rewrite !layout_loop_cons.
    destruct ((0 <? List.length line)%nat
              && ((eff <? cx + hint_width item)%Z || breaks item)).
    + rewrite (process_line_cursor rect1 rect2 eff sp line y d (negb ap1) (negb ap2)
                 st1 st2 Hg Hd).
      pose proof (process_line_this rect1 eff sp line y (negb ap1) st1) as H1.
      pose proof (process_line_this rect2 eff sp line (y + d) (negb ap2) st2) as H2.
      set (p1 := FlowLayout.process_line rect1 eff sp line y (negb ap1) st1) in *.
      set (p2 := FlowLayout.process_line rect2 eff sp line (y + d) (negb ap2) st2) in *.
      assert (Hg' : same_grid (FlowLayout.this (snd p1)) (FlowLayout.this (snd p2))).
      { apply (same_grid_trans _ _ _ H1), (same_grid_trans _ _ _ Hg), same_grid_sym, H2. }
      assert (Hd' : d = 0%Z \/
                FlowLayout.grid_enabled (FlowLayout.this (snd p1))
                && (0 <? FlowLayout.grid_size (FlowLayout.this (snd p1)))%Z = false).
      { destruct Hd as [Hd|Hd]; [now left|right].
        destruct H1 as (E1 & E2 & _). now rewrite E1, E2. }
      specialize (IH [item] (hint_width item + sp)%Z (fst p1) (snd p1) (snd p2) Hg' Hd').
      destruct (FlowLayout.layout_loop rect1 _ _ _ _ _ _ _ _) as [[[l1 c1] y1] s1].
      destruct (FlowLayout.layout_loop rect2 _ _ _ _ _ _ _ _) as [[[l2 c2] y2] s2].
      destruct IH as (E1 & E2 & E3 & E4 & E5). repeat split; try assumption.
      all: try apply E4. all: try (apply (same_grid_trans _ _ _ E5 H1)).
    + apply IH; assumption.
Qed.

Lemma layout_loop_dry rect eff sp items line cx y st :
  snd (FlowLayout.layout_loop rect eff sp false items line cx y st) = st.
Proof.
  pose proof (layout_loop_invariant rect eff sp false (fun _ _ _ _ st' => st' = st)) as H.
  specialize (H (fun _ _ _ _ _ _ E _ => E)).
  assert (Hw : forall (seen line : list QLayoutItem.t) (cx y : Z) (st0 : FlowLayout.run)
                 (item : QLayoutItem.t),
             st0 = st -> line <> [] ->
             (eff < cx + hint_width item)%Z \/ breaks item = true ->
             snd (FlowLayout.process_line rect eff sp line y (negb false) st0) = st).
  { intros _ line0 _ y0 st0 _ -> _ _. apply process_line_dry. }
  specialize (H Hw items [] line cx y st eq_refl).
  now destruct (FlowLayout.layout_loop _ _ _ _ _ _ _ _ _) as [[[? ?] ?] ?].
Qed.

(** The height of a run depends on the items, the spacing, the grid, the
    width of the rectangle and, with the grid on, its top edge. *)
Lemma do_layout_height self self' rect rect' ap ap' :
  FlowLayout._item_list self' = FlowLayout._item_list self ->
  FlowLayout.spacing self' = FlowLayout.spacing self ->
  same_grid self self' ->
  QRect.width rect' = QRect.width rect ->
  QRect.y rect' = QRect.y rect \/
  FlowLayout.grid_enabled self && (0 <? FlowLayout.grid_size self)%Z = false ->
  fst (FlowLayout._do_layout self' rect' ap') = fst (FlowLayout._do_layout self rect ap).
Proof.
  intros Hitems Hsp Hg Hw Hy. rewrite !do_layout_eq. cbv zeta. cbn [fst].
  rewrite Hitems, Hsp, Hw.
  set (s1 := FlowLayout.Run (if ap then FlowLayout.set_line_debug_positions self [] else self) []).
  set (s2 := FlowLayout.Run (if ap' then FlowLayout.set_line_debug_positions self' [] else self') []).
  set (d := (QRect.y rect' - QRect.y rect)%Z).
  assert (Hg1 : same_grid (FlowLayout.this s1) self).
  { subst s1. cbn [FlowLayout.this]. destruct ap; [apply same_grid_debug|apply same_grid_refl]. }
  assert (Hg2 : same_grid (FlowLayout.this s2) self').
  { subst s2. cbn [FlowLayout.this]. destruct ap'; [apply same_grid_debug|apply same_grid_refl]. }
  assert (Hg12 : same_grid (FlowLayout.this s1) (FlowLayout.this s2)).
  { apply (same_grid_trans _ _ _ Hg1), (same_grid_trans _ _ _ Hg), same_grid_sym, Hg2. }
  assert (Hd : d = 0%Z \/
             FlowLayout.grid_enabled (FlowLayout.this s1)
             && (0 <? FlowLayout.grid_size (FlowLayout.this s1))%Z = false).
  { destruct Hy as [Hy|Hy]; [left; subst d; lia|right].
    destruct Hg1 as (E1 & E2 & _). now rewrite E1, E2. }
  pose proof (layout_loop_cursor rect rect' (QRect.width rect) (FlowLayout.spacing self)
                ap ap' d (FlowLayout._item_list self) [] 0 (QRect.y rect) s1 s2 Hg12 Hd) as H.
  replace (QRect.y rect + d)%Z with (QRect.y rect') in H by (subst d; lia).
  destruct (FlowLayout.layout_loop rect _ _ _ _ _ _ _ _) as [[[l1 c1] y1] t1].
  destruct (FlowLayout.layout_loop rect' _ _ _ _ _ _ _ _) as [[[l2 c2] y2] t2].
  destruct H as (-> & -> & -> & Hg' & Hg''). cbn [fst snd].
  rewrite (process_line_cursor rect rect' _ _ l1 y1 d (negb ap) (negb ap') t1 t2 Hg').
  - subst d. lia.
  - destruct Hd as [Hd|Hd]; [now left|right].
    destruct Hg'' as (E1 & E2 & _). now rewrite E1, E2.
Qed.

(** X15.  A run of [_do_layout] that does not apply the geometry changes
    nothing and calls no item; a run that applies it returns the same
    height.  The height does not depend on the left edge or the height of
    the rectangle, and [heightForWidth] gives the height [setGeometry] lays
    the items out in, for a rectangle of that width, when the top edge of the
    rectangle is at zero or the grid is off. *)
Theorem dry_run_gives_the_height (self : FlowLayout.layout) (rect : QRect.t) :
  snd (FlowLayout._do_layout self rect false) = FlowLayout.Run self [] /\
  fst (FlowLayout._do_layout self rect true) = fst (FlowLayout._do_layout self rect false) /\
  (forall rect' ap,
     QRect.width rect' = QRect.width rect -> QRect.y rect' = QRect.y rect ->
     fst (FlowLayout._do_layout self rect' ap) = fst (FlowLayout._do_layout self rect ap)) /\
  (QRect.y rect = 0%Z \/ FlowLayout.grid_enabled self = false
   \/ (FlowLayout.grid_size self <= 0)%Z ->
   fst (FlowLayout._do_layout (FlowLayout.set_geometry self rect) rect true)
   = FlowLayout.heightForWidth self (QRect.width rect)).
Proof.
  split; [|split; [|split]].
  - rewrite do_layout_eq. cbv zeta. cbn [snd negb].
    now rewrite process_line_dry, layout_loop_dry.
  - apply do_layout_height; try reflexivity; [apply same_grid_refl|now left].
  - intros rect' ap Hw Hy.
    apply do_layout_height; try reflexivity; [apply same_grid_refl|exact Hw|now left].
  - intros H. unfold FlowLayout.heightForWidth. symmetry.
    apply do_layout_height; try reflexivity.
    + now split; [|split].
    + cbn [FlowLayout.grid_enabled FlowLayout.grid_size FlowLayout.set_geometry QRect.y].
      destruct H as [H|[H|H]]; [left; now rewrite H|right; now rewrite H|right].
      apply andb_false_iff. right. now apply Z.ltb_ge.
Qed.

(** ** The calls of setGeometry *)

Lemma place_fst line : forall x0 b sp, map fst (FlowLayout.place line x0 b sp) = line.
Proof.
  induction line as [|item line IH]; intros x0 b sp; [reflexivity|].
  cbn [FlowLayout.place map fst]. now rewrite IH.
Qed.

Lemma place_app l1 : forall l2 x0 b sp,
  FlowLayout.place (l1 ++ l2) x0 b sp
  = FlowLayout.place l1 x0 b sp ++ FlowLayout.place l2 (x0 + offset sp l1) b sp.
Proof.
  induction l1 as [|item l1 IH]; intros l2 x0 b sp.
  - cbn [app FlowLayout.place offset]. now rewrite Z.add_0_r.
  - cbn [app FlowLayout.place offset]. fold (hint_width item). rewrite IH.
    do 3 f_equal. lia.
Qed.

Lemma place_In line : forall x0 b sp item r,
  In (item, r) (FlowLayout.place line x0 b sp) ->
  exists pre post,
    line = pre ++ item :: post /\
    r = QRect.at_point (x0 + offset sp pre) (b - ascent item) (QLayoutItem.sizeHint item).
Proof.
  induction line as [|it line IH]; intros x0 b sp item r H; [destruct H|].
  cbn [FlowLayout.place] in H. destruct H as [H|H].
  - injection H as <- <-. exists [], line. split; [reflexivity|].
    cbn [offset]. now rewrite Z.add_0_r.
  - apply IH in H as (pre & post & -> & ->). exists (it :: pre), post.
    split; [reflexivity|]. cbn [offset]. fold (hint_width it). f_equal. lia.
Qed.


Lemma process_line_recorded self0 rect eff sp line y st :
  recorded self0 eff st ->
  recorded self0 eff (snd (FlowLayout.process_line rect eff sp line y false st)) /\
  map fst (FlowLayout.calls (snd (FlowLayout.process_line rect eff sp line y false st)))
  = map fst (FlowLayout.calls st) ++ line.
Proof.
  intros H. destruct line as [|it line].
  { cbn [FlowLayout.process_line snd]. rewrite app_nil_r. split; [exact H|reflexivity]. }
  destruct H as (Hthis & Hdbg & Hcalls).
  rewrite process_line_cons by discriminate. cbv zeta. cbn [snd].
  set (b := FlowLayout.snap _ _ _). set (line' := it :: line) in *.
  cbn [FlowLayout.this FlowLayout.calls]. split; [split; [|split]|].
  - rewrite Hthis at 1. reflexivity.
  - cbn [FlowLayout._line_debug_positions FlowLayout.set_line_debug_positions].
    intros b' w H. apply in_app_or in H as [H|H].
    + destruct (Hdbg b' w H) as (-> & item & r & Hin & Hb).
      split; [reflexivity|]. exists item, r. split; [|exact Hb].
      apply in_or_app. now left.
    + destruct H as [[= <- <-]|[]]. split; [reflexivity|].
      exists it, (QRect.at_point (QRect.x rect) (b - ascent it) (QLayoutItem.sizeHint it)).
      split; [|cbn [QRect.at_point QRect.y]; lia].
      apply in_or_app. right. now left.
  - cbn [FlowLayout._line_debug_positions FlowLayout.set_line_debug_positions].
    intros item r H. apply in_app_or in H as [H|H].
    + destruct (Hcalls item r H) as (H1 & H2 & H3). split; [exact H1|]. split; [exact H2|].
      apply in_or_app. now left.
    + apply place_In in H as (pre & post & _ & ->).
      cbn [QRect.at_point QRect.width QRect.height QRect.y].
      split; [reflexivity|]. split; [reflexivity|].
      apply in_or_app. right. left. f_equal. lia.
  - now rewrite map_app, place_fst.
Qed.

(** After a run that applies the geometry: the calls name the items in
    their order, and the calls and the recorded baselines answer each
    other. *)
Lemma do_layout_calls self rect :
  let st := snd (FlowLayout._do_layout self rect true) in
  map fst (FlowLayout.calls st) = FlowLayout._item_list self /\
  recorded self (QRect.width rect) st.
Proof.
  cbv zeta. rewrite do_layout_eq. cbv zeta. cbn [snd negb].
  set (self0 := FlowLayout.set_line_debug_positions self []).
  set (eff := QRect.width rect). set (sp := FlowLayout.spacing self).
  pose proof (layout_loop_invariant rect eff sp true
                (fun seen line _ _ st =>
                   map fst (FlowLayout.calls st) ++ line = seen /\ recorded self eff st)) as H.
  cbv beta in H.
  assert (H0 : recorded self eff (FlowLayout.Run self0 [])).
  { split; [reflexivity|]. split; intros ? ? []. }
  specialize (H ltac:(intros seen line cx y st item [H1 H2] _; split;
                      [now rewrite app_assoc, H1|exact H2])).
  specialize (H ltac:(intros seen line cx y st item [H1 H2] _ _; cbn [negb];
                      destruct (process_line_recorded self rect eff sp line y st H2) as [H3 H4];
                      split; [now rewrite H4, H1|exact H3])).
  specialize (H (FlowLayout._item_list self) [] [] 0%Z (QRect.y rect) (FlowLayout.Run self0 [])
                (conj eq_refl H0)).
  destruct (FlowLayout.layout_loop _ _ _ _ _ _ _ _ _) as [[[line cx] y] st].
  cbn [fst snd app] in H |- *. destruct H as [H1 H2].
  destruct (process_line_recorded self rect eff sp line y st H2) as [H3 H4].
  split; [now rewrite H4|exact H3].
Qed.

(** X16.  [setGeometry] calls [setGeometry] on every item of the layout
    once, in the order of the items, with a rectangle of the size of the
    item's size hint.  Of the layout it changes the geometry and the recorded
    debug positions, which start afresh, and nothing else; on a layout
    without items it makes no call and records no position. *)
Theorem set_geometry_places_every_item_once (self : FlowLayout.layout) (rect : QRect.t) :
  let st := FlowLayout.setGeometry self rect in
  map fst (FlowLayout.calls st) = FlowLayout._item_list self /\
  (forall item r, In (item, r) (FlowLayout.calls st) ->
     QRect.width r = QSize.width (QLayoutItem.sizeHint item) /\
     QRect.height r = QSize.height (QLayoutItem.sizeHint item)) /\
  FlowLayout.this st
  = FlowLayout.set_line_debug_positions (FlowLayout.set_geometry self rect)
      (FlowLayout._line_debug_positions (FlowLayout.this st)) /\
  (FlowLayout._item_list self = [] ->
   st = FlowLayout.Run (FlowLayout.set_line_debug_positions
                          (FlowLayout.set_geometry self rect) []) []).
Proof.
  cbv zeta. unfold FlowLayout.setGeometry.
  destruct (do_layout_calls (FlowLayout.set_geometry self rect) rect)
    as (Hitems & Hthis & _ & Hcalls).
  split; [exact Hitems|]. split; [|split; [exact Hthis|]].
  - intros item r H. destruct (Hcalls item r H) as (H1 & H2 & _). now split.
  - intros Hnil. rewrite do_layout_eq. cbv zeta.
    cbn [FlowLayout._item_list FlowLayout.set_geometry]. rewrite Hnil. reflexivity.
Qed.

(** X17.  Every item is put with its alignment point on the baseline of
    its line, and the baselines [setGeometry] records, each with the width of
    the rectangle, are those of the lines: every item is on a recorded
    baseline and every recorded baseline has an item on it.  With the debug
    lines on, [paint_debug_visuals] draws one line from 0 to that width at
    each recorded baseline, and with them off it draws nothing. *)
Theorem items_sit_on_the_recorded_baselines (self : FlowLayout.layout) (rect : QRect.t) :
  let st := FlowLayout.setGeometry self rect in
  let baselines := FlowLayout._line_debug_positions (FlowLayout.this st) in
  (forall item r, In (item, r) (FlowLayout.calls st) ->
     In ((QRect.y r + FlowLayout._get_alignment_point item (QRect.height r))%Z,
         QRect.width rect) baselines) /\
  (forall b w, In (b, w) baselines ->
     w = QRect.width rect /\
     exists item r, In (item, r) (FlowLayout.calls st) /\
       (QRect.y r + FlowLayout._get_alignment_point item (QRect.height r))%Z = b) /\
  (FlowLayout.show_debug_lines self = true ->
   FlowLayout.paint_debug_visuals (FlowLayout.this st)
   = map (fun p => (0, fst p, snd p, fst p)%Z) baselines) /\
  (FlowLayout.show_debug_lines self = false ->
   FlowLayout.paint_debug_visuals (FlowLayout.this st) = []).
Proof.
  cbv zeta. unfold FlowLayout.setGeometry.
  destruct (do_layout_calls (FlowLayout.set_geometry self rect) rect)
    as (_ & Hthis & Hdbg & Hcalls).
  set (st := snd (FlowLayout._do_layout (FlowLayout.set_geometry self rect) rect true)) in *.
  assert (Hshow : FlowLayout.show_debug_lines (FlowLayout.this st)
                  = FlowLayout.show_debug_lines self) by now rewrite Hthis.
  split; [|split; [|split]].
  - intros item r H. destruct (Hcalls item r H) as (_ & -> & Hin). exact Hin.
  - intros b w H. destruct (Hdbg b w H) as (-> & item & r & Hin & Hb).
    split; [reflexivity|]. exists item, r. split; [exact Hin|].
    destruct (Hcalls item r Hin) as (_ & -> & _). exact Hb.
  - intros H. unfold FlowLayout.paint_debug_visuals. rewrite Hshow, H. cbn [negb].
    apply map_ext. now intros [y w].
  - intros H. unfold FlowLayout.paint_debug_visuals. now rewrite Hshow, H.
Qed.

(** ** Where the items go *)

Lemma offset_app sp l1 l2 : offset sp (l1 ++ l2) = (offset sp l1 + offset sp l2)%Z.
Proof. induction l1 as [|it l1 IH]; [reflexivity|]. cbn [app offset]. lia. Qed.

Lemma offset_nonneg sp line :
  (0 <= sp)%Z -> Forall (fun it => 0 <= hint_width it)%Z line -> (0 <= offset sp line)%Z.
Proof.
  intros Hsp H. induction line as [|it line IH]; [reflexivity|].
  apply List.Forall_cons_iff in H as [H1 H2]. cbn [offset]. specialize (IH H2). lia.
Qed.

Lemma measure_bounds line : forall a d,
  (a <= fst (FlowLayout.measure line a d))%Z /\
  (d <= snd (FlowLayout.measure line a d))%Z /\
  forall item, In item line ->
    (ascent item <= fst (FlowLayout.measure line a d))%Z /\
    (QSize.height (QLayoutItem.sizeHint item) - ascent item
     <= snd (FlowLayout.measure line a d))%Z.
Proof.
  induction line as [|it line IH]; intros a d.
  - cbn [FlowLayout.measure fst snd]. split; [lia|]. split; [lia|]. intros ? [].
  - cbn [FlowLayout.measure]. fold (ascent it).
    destruct (IH (Z.max a (ascent it))
                (Z.max d (QSize.height (QLayoutItem.sizeHint it) - ascent it)))
      as (H1 & H2 & H3).
    split; [lia|]. split; [lia|]. intros item [<-|Hin]; [lia|]. now apply H3.
Qed.

Lemma chain_app {A : Type} (R : A -> A -> Prop) (l1 l2 : list A) :
  chain R l1 -> chain R l2 ->
  (forall a b, last l1 = Some a -> head l2 = Some b -> R a b) ->
  chain R (l1 ++ l2).
Proof.
  intros H1 H2 H. induction l1 as [|a l1 IH]; [exact H2|].
  cbn [app chain] in *. destruct H1 as [Ha H1]. split.
  - destruct l1 as [|b l1]; [|exact Ha]. cbn [app].
    destruct l2 as [|b l2]; [exact I|]. now apply H.
  - apply IH; [exact H1|]. intros a' b Hl Hh. apply H; [|exact Hh].
    destruct l1; [discriminate Hl|exact Hl].
Qed.

Lemma chain_In {A : Type} (R : A -> A -> Prop) (l1 l2 : list A) (a b : A) :
  chain R (l1 ++ a :: b :: l2) -> R a b.
Proof.
  induction l1 as [|x l1 IH]; cbn [app chain]; [now intros [H _]|].
  intros [_ H]. now apply IH.
Qed.

Lemma FOP_app {A : Type} (R : A -> A -> Prop) (l1 l2 : list A) :
  ForallOrdPairs R l1 -> ForallOrdPairs R l2 ->
  (forall a b, In a l1 -> In b l2 -> R a b) ->
  ForallOrdPairs R (l1 ++ l2).
Proof.
  intros H1 H2 H. induction H1 as [|a l1 Ha H1 IH]; [exact H2|].
  cbn [app]. constructor.
  - apply List.Forall_app. split; [exact Ha|].
    apply List.Forall_forall. intros b Hb. apply H; [now left|exact Hb].
  - apply IH. intros a' b Ha' Hb. apply H; [now right|exact Hb].
Qed.

Lemma FOP_In {A : Type} (R : A -> A -> Prop) (l1 l2 l3 : list A) (a b : A) :
  ForallOrdPairs R (l1 ++ a :: l2 ++ b :: l3) -> R a b.
Proof.
  induction l1 as [|x l1 IH]; cbn [app]; intros H; inversion H as [|? ? Ha H']; subst.
  - rewrite List.Forall_forall in Ha. apply Ha, in_or_app. right. now left.
  - now apply IH.
Qed.

Lemma last_place line a x0 b sp :
  last (FlowLayout.place (line ++ [a]) x0 b sp)
  = Some (a, QRect.at_point (x0 + offset sp line) (b - ascent a) (QLayoutItem.sizeHint a)).
Proof. rewrite place_app. cbn [FlowLayout.place]. fold (ascent a). apply list.last_snoc. Qed.

Lemma snoc_cases {A : Type} (pre post line : list A) (b item : A) :
  pre ++ b :: post = line ++ [item] ->
  (post = [] /\ pre = line /\ b = item) \/
  exists post', post = post' ++ [item] /\ line = pre ++ b :: post'.
Proof.
  intros H. destruct post as [|p post] using rev_ind.
  - left. apply app_inj_tail in H as [-> ->]. now repeat split.
  - right. clear IHpost.
    change (pre ++ b :: post ++ [p]) with (pre ++ (b :: post) ++ [p]) in H.
    rewrite app_assoc in H. apply app_inj_tail in H as [H ->].
    exists post. split; [reflexivity|]. now rewrite <- H.
Qed.

Lemma place_chain rect sp b line : forall pre0,
  (forall pre it post, line = pre ++ it :: post -> pre0 ++ pre <> [] ->
     breaks it = false /\
     (offset sp (pre0 ++ pre) + hint_width it <= QRect.width rect)%Z) ->
  chain (follows rect sp)
    (FlowLayout.place line (QRect.x rect + offset sp pre0) b sp).
Proof.
  induction line as [|a line IH]; intros pre0 H; [exact I|].
  cbn [FlowLayout.place]. fold (ascent a) (hint_width a).
  assert (Hnext : chain (follows rect sp)
                    (FlowLayout.place line (QRect.x rect + offset sp pre0 + hint_width a + sp) b sp)).
  { replace (QRect.x rect + offset sp pre0 + hint_width a + sp)%Z
      with (QRect.x rect + offset sp (pre0 ++ [a]))%Z
      by (rewrite offset_app; cbn [offset]; lia).
    apply IH. intros pre it post -> Hne. rewrite <- app_assoc.
    apply (H (a :: pre) it post); [reflexivity|]. now destruct pre0. }
  cbn [chain]. split; [|exact Hnext].
  destruct line as [|b1 line]; [exact I|]. cbn [FlowLayout.place].
  fold (ascent b1) (hint_width b1). left.
  destruct (H [a] b1 line eq_refl) as [Hb Hfit]; [now destruct pre0|].
  rewrite offset_app in Hfit. cbn [offset] in Hfit.
  unfold right_edge. cbn [fst snd QRect.at_point QRect.x QRect.y QRect.width].
  fold (hint_width a) (hint_width b1).
  split; [exact Hb|]. split; [lia|]. split; lia.
Qed.

Lemma laid_out_line rect sp cs line cx b :
  laid_out rect sp cs -> pending rect sp cs line cx -> line <> [] ->
  laid_out rect sp (cs ++ FlowLayout.place line (QRect.x rect) b sp) /\
  forall item,
    (QRect.width rect < cx + hint_width item)%Z \/ breaks item = true ->
    pending rect sp (cs ++ FlowLayout.place line (QRect.x rect) b sp) [item]
      (hint_width item + sp)%Z.
Proof.
  intros (Hchain & Hhead & Hsize) (Hcx & Hline & Hlink & Hnil) Hne.
  split; [split; [|split]|].
  - apply chain_app; [exact Hchain| |].
    + pose proof (place_chain rect sp b line []) as Hp.
      cbn [offset app] in Hp. rewrite Z.add_0_r in Hp.
      apply Hp. intros pre it post E Hpre. now apply (Hline pre it post).
    + intros [a ra] [b0 rb] Hl Hh. destruct line as [|b1 post]; [congruence|].
      cbn [FlowLayout.place head] in Hh. injection Hh as <- <-. right.
      cbn [fst snd QRect.at_point QRect.x QRect.width]. split; [reflexivity|].
      apply (Hlink a ra b1 post Hl eq_refl).
  - intros c Hc. destruct cs as [|c0 cs].
    + destruct line as [|b1 post]; [congruence|].
      cbn [app FlowLayout.place head] in Hc. injection Hc as <-. reflexivity.
    + apply Hhead. exact Hc.
  - intros item r H. apply in_app_or in H as [H|H]; [now apply Hsize|].
    apply place_In in H as (pre & post & _ & ->). reflexivity.
  - intros item Hcond. split; [cbn [offset]; lia|]. split; [|split].
    + intros pre b0 post E Hpre. destruct pre as [|p pre]; [congruence|].
      destruct pre; discriminate E.
    + intros a ra b0 post Hl E. injection E as <- <-.
      destruct line as [|l0 line] using rev_ind; [congruence|]. clear IHline.
      rewrite last_app, last_place in Hl. injection Hl as <- <-.
      unfold right_edge. cbn [QRect.at_point QRect.x QRect.width].
      fold (hint_width l0). rewrite offset_app in Hcx. cbn [offset] in Hcx.
      destruct Hcond as [Hcond|Hcond]; [right; lia|now left].
    + discriminate.
Qed.

(** After a run that applies the geometry the calls are laid out. *)
Lemma do_layout_laid_out self rect :
  laid_out rect (FlowLayout.spacing self)
    (FlowLayout.calls (snd (FlowLayout._do_layout self rect true))).
Proof.
  rewrite do_layout_eq. cbv zeta. cbn [snd negb].
  set (self0 := FlowLayout.set_line_debug_positions self []).
  set (eff := QRect.width rect). set (sp := FlowLayout.spacing self).
  pose proof (layout_loop_invariant rect eff sp true
                (fun _ line cx _ st =>
                   laid_out rect sp (FlowLayout.calls st) /\
                   pending rect sp (FlowLayout.calls st) line cx)) as H.
  cbv beta in H.
  assert (Hcalls : forall line y st,
             line <> [] ->
             FlowLayout.calls (snd (FlowLayout.process_line rect eff sp line y false st))
             = FlowLayout.calls st
               ++ FlowLayout.place line (QRect.x rect)
                    (FlowLayout.snap (FlowLayout.this st) y
                       (fst (FlowLayout.measure line 0 0))) sp).
  { intros line y st Hne. now rewrite process_line_cons by exact Hne. }
  assert (Hgo : forall (seen line : list QLayoutItem.t) (cx y : Z) (st : FlowLayout.run)
                  (item : QLayoutItem.t),
             laid_out rect sp (FlowLayout.calls st) /\
             pending rect sp (FlowLayout.calls st) line cx ->
             line = [] \/ (cx + hint_width item <= eff)%Z /\ breaks item = false ->
             laid_out rect sp (FlowLayout.calls st) /\
             pending rect sp (FlowLayout.calls st) (line ++ [item])
               (cx + hint_width item + sp)%Z).
  { intros _ line cx _ st item [Hl (Hcx & Hline & Hlink & Hnil)] Hcond.
    split; [exact Hl|]. split; [|split; [|split]].
    - rewrite offset_app, Hcx. cbn [offset]. lia.
    - intros pre b post E Hpre. symmetry in E.
      apply snoc_cases in E as [(-> & -> & ->)|(post' & -> & E)].
      + destruct Hcond as [->|[Hfit Hb]]; [congruence|]. split; [exact Hb|]. lia.
      + now apply (Hline pre b post').
    - intros a ra b post Hlast E. destruct line as [|b0 line].
      + rewrite (Hnil eq_refl) in Hlast. discriminate Hlast.
      + injection E as <- _. now apply (Hlink a ra b0 line).
    - intros E. now destruct line. }
  assert (Hwrap : forall (seen line : list QLayoutItem.t) (cx y : Z) (st : FlowLayout.run)
                    (item : QLayoutItem.t),
             laid_out rect sp (FlowLayout.calls st) /\
             pending rect sp (FlowLayout.calls st) line cx ->
             line <> [] ->
             (eff < cx + hint_width item)%Z \/ breaks item = true ->
             laid_out rect sp
               (FlowLayout.calls
                  (snd (FlowLayout.process_line rect eff sp line y (negb true) st))) /\
             pending rect sp
               (FlowLayout.calls
                  (snd (FlowLayout.process_line rect eff sp line y (negb true) st)))
               [item] (hint_width item + sp)%Z).
  { intros _ line cx y st item [Hl Hp] Hne Hcond. cbn [negb].
    rewrite (Hcalls line y st Hne).
    destruct (laid_out_line rect sp _ line cx
                (FlowLayout.snap (FlowLayout.this st) y (fst (FlowLayout.measure line 0 0)))
                Hl Hp Hne) as [H1 H2].
    split; [exact H1|]. now apply H2. }
  specialize (H Hgo Hwrap (FlowLayout._item_list self) [] [] 0%Z (QRect.y rect)
                (FlowLayout.Run self0 [])).
  destruct (FlowLayout.layout_loop _ _ _ _ _ _ _ _ _) as [[[line cx] y] st].
  cbn [fst snd]. destruct H as [Hl Hp].
  { cbn [FlowLayout.calls]. split.
    - split; [exact I|]. split; [discriminate|]. intros ? ? [].
    - split; [reflexivity|]. split; [|split; [discriminate|reflexivity]].
      intros pre b post E. now destruct pre. }
  destruct line as [|it line]; [exact Hl|].
  rewrite Hcalls by discriminate.
  now apply (laid_out_line rect sp _ (it :: line) cx).
Qed.

(** X18.  How the lines are broken.  The first item is put at the left edge
    of the rectangle.  Every later item follows the one before it in one of
    two ways.  It goes on in the line: its widget asks for no new line, it
    is put one spacing to the right of the item before it, on the same
    baseline, and it ends within the width of the rectangle.  Or it starts
    a line, at the left edge: its widget asks for a new line, or put after
    the item before it, it would end beyond the width.  So an item wider
    than the rectangle is still placed, alone at the start of a line. *)
Theorem lines_break_where_items_do_not_fit (self : FlowLayout.layout) (rect : QRect.t) :
  let st := FlowLayout.setGeometry self rect in
  let spacing := FlowLayout.spacing self in
  (forall c cs, FlowLayout.calls st = c :: cs -> QRect.x (snd c) = QRect.x rect) /\
  (forall before a ra b rb after,
     FlowLayout.calls st = before ++ (a, ra) :: (b, rb) :: after ->
     (py_truthy (FlowLayout.force_break_of b) = false /\
      QRect.x rb = (QRect.x ra + QRect.width ra + spacing)%Z /\
      (QRect.x rb + QRect.width rb <= QRect.x rect + QRect.width rect)%Z /\
      (QRect.y rb + FlowLayout._get_alignment_point b (QRect.height rb)
       = QRect.y ra + FlowLayout._get_alignment_point a (QRect.height ra))%Z) \/
     (QRect.x rb = QRect.x rect /\
      (py_truthy (FlowLayout.force_break_of b) = true \/
       (QRect.x rect + QRect.width rect
        < QRect.x ra + QRect.width ra + spacing + QRect.width rb)%Z))).
Proof.
  cbv zeta. unfold FlowLayout.setGeometry.
  pose proof (do_layout_laid_out (FlowLayout.set_geometry self rect) rect)
    as (Hchain & Hhead & _).
  destruct (do_layout_calls (FlowLayout.set_geometry self rect) rect)
    as (_ & _ & _ & Hcalls).
  cbn [FlowLayout.spacing FlowLayout.set_geometry] in Hchain.
  set (st := snd (FlowLayout._do_layout (FlowLayout.set_geometry self rect) rect true)) in *.
  split.
  - intros c cs E. apply Hhead. now rewrite E.
  - intros before a ra b rb after E.
    assert (Ha : In (a, ra) (FlowLayout.calls st))
      by (rewrite E; apply in_or_app; right; now left).
    assert (Hb : In (b, rb) (FlowLayout.calls st))
      by (rewrite E; apply in_or_app; right; right; now left).
    destruct (Hcalls a ra Ha) as (_ & Hha & _).
    destruct (Hcalls b rb Hb) as (_ & Hhb & _).
    rewrite E in Hchain. apply chain_In in Hchain.
    unfold follows, right_edge, breaks, ascent in Hchain. cbn [fst snd] in Hchain.
    rewrite Hha, Hhb. exact Hchain.
Qed.

(** ** Where the lines go *)

Lemma process_line_below rect eff sp line y st :
  (0 <= sp)%Z -> line <> [] ->
  let p := FlowLayout.process_line rect eff sp line y false st in
  (y <= fst p)%Z /\
  exists b,
    FlowLayout.calls (snd p) = FlowLayout.calls st ++ FlowLayout.place line (QRect.x rect) b sp /\
    forall item r, In (item, r) (FlowLayout.place line (QRect.x rect) b sp) ->
      (y <= QRect.y r)%Z /\ (bottom_edge r + sp <= fst p)%Z.
Proof.
  intros Hsp Hne. cbv zeta. rewrite process_line_cons by exact Hne. cbv zeta. cbn [fst snd].
  destruct (measure_bounds line 0 0) as (Ha & Hd & Hitems).
  set (ma := fst (FlowLayout.measure line 0 0)) in *.
  set (md := snd (FlowLayout.measure line 0 0)) in *.
  pose proof (snap_above (FlowLayout.this st) y ma) as Hb.
  set (b := FlowLayout.snap (FlowLayout.this st) y ma) in *.
  split; [lia|]. exists b. split; [reflexivity|].
  intros item r H. apply place_In in H as (pre & post & -> & ->).
  destruct (Hitems item) as [H1 H2]; [apply in_or_app; right; now left|].
  unfold bottom_edge. cbn [QRect.at_point QRect.y QRect.height]. lia.
Qed.

(** After a run that applies the geometry, with a spacing that is not
    negative: the cursor has not gone up, and every rectangle lies between
    the start and a spacing above the cursor. *)
Lemma do_layout_below self rect :
  (0 <= FlowLayout.spacing self)%Z ->
  let h := fst (FlowLayout._do_layout self rect true) in
  let st := snd (FlowLayout._do_layout self rect true) in
  (0 <= h)%Z /\
  forall item r, In (item, r) (FlowLayout.calls st) ->
    (QRect.y rect <= QRect.y r)%Z /\
    (bottom_edge r + FlowLayout.spacing self <= QRect.y rect + h)%Z.
Proof.
  intros Hsp. cbv zeta. rewrite do_layout_eq. cbv zeta. cbn [fst snd negb].
  set (self0 := FlowLayout.set_line_debug_positions self []).
  set (eff := QRect.width rect). set (sp := FlowLayout.spacing self) in *.
  set (y0 := QRect.y rect).
  pose proof (layout_loop_invariant rect eff sp true
                (fun _ _ _ y st =>
                   (y0 <= y)%Z /\
                   forall item r, In (item, r) (FlowLayout.calls st) ->
                     (y0 <= QRect.y r)%Z /\ (bottom_edge r + sp <= y)%Z)) as H.
  cbv beta in H.
  assert (Hstep : forall line y st,
             line <> [] ->
             (y0 <= y)%Z /\
             (forall item r, In (item, r) (FlowLayout.calls st) ->
                (y0 <= QRect.y r)%Z /\ (bottom_edge r + sp <= y)%Z) ->
             (y0 <= fst (FlowLayout.process_line rect eff sp line y false st))%Z /\
             (forall item r,
                In (item, r)
                  (FlowLayout.calls (snd (FlowLayout.process_line rect eff sp line y false st))) ->
                (y0 <= QRect.y r)%Z /\
                (bottom_edge r + sp
                 <= fst (FlowLayout.process_line rect eff sp line y false st))%Z)).
  { intros line y st Hne [Hy Hc].
    destruct (process_line_below rect eff sp line y st Hsp Hne) as (Hup & b & -> & Hnew).
    split; [lia|]. intros item r Hin. apply in_app_or in Hin as [Hin|Hin].
    - destruct (Hc item r Hin). lia.
    - destruct (Hnew item r Hin). lia. }
  specialize (H ltac:(intros seen line cx y st item Hi _; exact Hi)).
  specialize (H ltac:(intros seen line cx y st item Hi Hne _; cbn [negb];
                      now apply Hstep)).
  specialize (H (FlowLayout._item_list self) [] [] 0%Z y0 (FlowLayout.Run self0 [])).
  destruct (FlowLayout.layout_loop _ _ _ _ _ _ _ _ _) as [[[line cx] y] st].
  cbn [fst snd]. destruct H as [Hy Hc]; [split; [lia|intros ? ? []]|].
  destruct line as [|it line].
  - cbn [FlowLayout.process_line fst snd]. split; [lia|].
    intros item r Hin. destruct (Hc item r Hin). lia.
  - destruct (Hstep (it :: line) y st) as [Hy' Hc']; [discriminate|now split|].
    split; [lia|]. intros item r Hin. destruct (Hc' item r Hin). lia.
Qed.

(** X19.  With a spacing that is not negative the height [_do_layout]
    returns is not negative, holds every item and one spacing below it: each
    rectangle starts at or below the top edge of the given rectangle and
    ends a spacing or more above that edge plus the height.  Without items
    the height is zero. *)
Theorem items_lie_within_the_height (self : FlowLayout.layout) (rect : QRect.t)
    (Hspacing : (0 <= FlowLayout.spacing self)%Z) :
  let h := fst (FlowLayout._do_layout self rect true) in
  let st := snd (FlowLayout._do_layout self rect true) in
  (0 <= h)%Z /\
  h = fst (FlowLayout._do_layout self rect false) /\
  (forall item r, In (item, r) (FlowLayout.calls st) ->
     (QRect.y rect <= QRect.y r)%Z /\
     (QRect.y r + QRect.height r + FlowLayout.spacing self <= QRect.y rect + h)%Z) /\
  (FlowLayout._item_list self = [] -> h = 0%Z).
Proof.
  cbv zeta. destruct (do_layout_below self rect Hspacing) as [Hh Hc].
  split; [exact Hh|]. split; [|split].
  - apply do_layout_height; try reflexivity; [apply same_grid_refl|now left].
  - intros item r Hin. destruct (Hc item r Hin) as [H1 H2]. split; [exact H1|].
    unfold bottom_edge in H2. lia.
  - intros Hnil. rewrite do_layout_eq. cbv zeta. rewrite Hnil.
    cbn [FlowLayout.layout_loop FlowLayout.process_line fst snd]. lia.
Qed.

Lemma items_lie_within_the_height_witness :
  (0 <= FlowLayout.spacing scenario_layout)%Z /\
  fst (FlowLayout._do_layout scenario_layout scenario_rect true) = 44%Z.
Proof.
  assert (Hsp : (0 <= FlowLayout.spacing scenario_layout)%Z) by (vm_compute; discriminate).
  split; [exact Hsp|].
  destruct (items_lie_within_the_height scenario_layout scenario_rect Hsp) as (_ & H & _).
  rewrite H. vm_compute. reflexivity.
Defined.

(** The invariant of the loop again, for items that all have a property. *)
Section LoopOn.

Variable rect : QRect.t.
Variables eff sp : Z.
Variable ap : bool.
Variable P : QLayoutItem.t -> Prop.
Variable I : list QLayoutItem.t -> Z -> Z -> FlowLayout.run -> Prop.

Hypothesis goes_on : forall line cx y st item,
  I line cx y st -> P item ->
  I (line ++ [item]) (cx + hint_width item + sp)%Z y st.

Hypothesis wraps : forall line cx y st item,
  I line cx y st -> P item -> line <> [] ->
  I [item] (hint_width item + sp)%Z
    (fst (FlowLayout.process_line rect eff sp line y (negb ap) st))
    (snd (FlowLayout.process_line rect eff sp line y (negb ap) st)).

Lemma layout_loop_invariant_on items : forall line cx y st,
  Forall P items ->
  I line cx y st ->
  match FlowLayout.layout_loop rect eff sp ap items line cx y st with
  | (line', cx', y', st') => I line' cx' y' st'
  end.
Proof.
  induction items as [|item items IH]; intros line cx y st HP H; [exact H|].
  apply List.Forall_cons_iff in HP as [Hitem HP]. rewrite layout_loop_cons.
  destruct (0 <? List.length line)%nat eqn:El; cbn [andb].
  - destruct ((eff <? cx + hint_width item)%Z || breaks item).
    + apply IH; [exact HP|]. apply (wraps line cx y st item H Hitem).
      destruct line; [discriminate El|discriminate].
    + apply IH; [exact HP|]. now apply goes_on.
  - apply IH; [exact HP|]. now apply goes_on.
Qed.

End LoopOn.

Lemma place_apart sp b line : forall x0,
  (0 <= sp)%Z -> Forall (fun it => 0 <= hint_width it)%Z line ->
  ForallOrdPairs (apart sp) (FlowLayout.place line x0 b sp).
Proof.
  induction line as [|a line IH]; intros x0 Hsp Hw; [constructor|].
  apply List.Forall_cons_iff in Hw as [Ha Hw]. cbn [FlowLayout.place].
  fold (hint_width a). constructor; [|now apply IH].
  apply List.Forall_forall. intros [it r] Hin.
  apply place_In in Hin as (pre & post & -> & ->). left.
  unfold right_edge. cbn [fst snd QRect.at_point QRect.x QRect.width].
  fold (hint_width a).
  assert (0 <= offset sp pre)%Z.
  { apply offset_nonneg; [exact Hsp|].
    apply List.Forall_app in Hw as [Hw _]. exact Hw. }
  lia.
Qed.

(** After a run that applies the geometry, with a spacing and widths that
    are not negative, every two rectangles are a spacing apart. *)
Lemma do_layout_apart self rect :
  (0 <= FlowLayout.spacing self)%Z ->
  Forall (fun it => 0 <= hint_width it)%Z (FlowLayout._item_list self) ->
  ForallOrdPairs (apart (FlowLayout.spacing self))
    (FlowLayout.calls (snd (FlowLayout._do_layout self rect true))).
Proof.
  intros Hsp Hw. rewrite do_layout_eq. cbv zeta. cbn [snd negb].
  set (self0 := FlowLayout.set_line_debug_positions self []).
  set (eff := QRect.width rect). set (sp := FlowLayout.spacing self) in *.
  pose proof (layout_loop_invariant_on rect eff sp true
                (fun it => 0 <= hint_width it)%Z
                (fun line _ y st =>
                   ForallOrdPairs (apart sp) (FlowLayout.calls st) /\
                   (forall c, In c (FlowLayout.calls st) -> (bottom_edge (snd c) + sp <= y)%Z) /\
                   Forall (fun it => 0 <= hint_width it)%Z line)) as H.
  cbv beta in H.
  assert (Hstep : forall line y st,
             line <> [] ->
             ForallOrdPairs (apart sp) (FlowLayout.calls st) /\
             (forall c, In c (FlowLayout.calls st) -> (bottom_edge (snd c) + sp <= y)%Z) /\
             Forall (fun it => 0 <= hint_width it)%Z line ->
             ForallOrdPairs (apart sp)
               (FlowLayout.calls (snd (FlowLayout.process_line rect eff sp line y false st))) /\
             (forall c,
                In c (FlowLayout.calls (snd (FlowLayout.process_line rect eff sp line y false st))) ->
                (bottom_edge (snd c) + sp
                 <= fst (FlowLayout.process_line rect eff sp line y false st))%Z)).
  { intros line y st Hne (Hfop & Hbelow & Hline).
    destruct (process_line_below rect eff sp line y st Hsp Hne) as (Hup & b & -> & Hnew).
    split.
    - apply FOP_app; [exact Hfop|now apply place_apart|].
      intros ca [it r] Ha Hb. right. cbn [snd].
      specialize (Hbelow ca Ha). destruct (Hnew it r Hb). lia.
    - intros [it r] Hin. cbn [snd]. apply in_app_or in Hin as [Hin|Hin].
      + specialize (Hbelow _ Hin). cbn [snd] in Hbelow. lia.
      + now destruct (Hnew it r Hin). }
  assert (Hgo : forall (line : list QLayoutItem.t) (cx y : Z) (st : FlowLayout.run)
                  (item : QLayoutItem.t),
             ForallOrdPairs (apart sp) (FlowLayout.calls st) /\
             (forall c, In c (FlowLayout.calls st) -> (bottom_edge (snd c) + sp <= y)%Z) /\
             Forall (fun it => 0 <= hint_width it)%Z line ->
             (0 <= hint_width item)%Z ->
             ForallOrdPairs (apart sp) (FlowLayout.calls st) /\
             (forall c, In c (FlowLayout.calls st) -> (bottom_edge (snd c) + sp <= y)%Z) /\
             Forall (fun it => 0 <= hint_width it)%Z (line ++ [item])).
  { intros line _ y st item (H1 & H2 & H3) Hitem. split; [exact H1|]. split; [exact H2|].
    apply List.Forall_app. split; [exact H3|]. now constructor. }
  assert (Hwrap : forall (line : list QLayoutItem.t) (cx y : Z) (st : FlowLayout.run)
                    (item : QLayoutItem.t),
             ForallOrdPairs (apart sp) (FlowLayout.calls st) /\
             (forall c, In c (FlowLayout.calls st) -> (bottom_edge (snd c) + sp <= y)%Z) /\
             Forall (fun it => 0 <= hint_width it)%Z line ->
             (0 <= hint_width item)%Z -> line <> [] ->
             ForallOrdPairs (apart sp)
               (FlowLayout.calls
                  (snd (FlowLayout.process_line rect eff sp line y (negb true) st))) /\
             (forall c,
                In c (FlowLayout.calls
                        (snd (FlowLayout.process_line rect eff sp line y (negb true) st))) ->
                (bottom_edge (snd c) + sp
                 <= fst (FlowLayout.process_line rect eff sp line y (negb true) st))%Z) /\
             Forall (fun it => 0 <= hint_width it)%Z [item]).
  { intros line _ y st item Hi Hitem Hne. cbn [negb].
    destruct (Hstep line y st Hne Hi) as [H1 H2].
    split; [exact H1|]. split; [exact H2|]. now constructor. }
  specialize (H Hgo Hwrap (FlowLayout._item_list self) [] 0%Z (QRect.y rect)
                (FlowLayout.Run self0 []) Hw).
  destruct (FlowLayout.layout_loop _ _ _ _ _ _ _ _ _) as [[[line cx] y] st].
  cbn [fst snd]. destruct H as (H1 & H2 & H3).
  { cbn [FlowLayout.calls]. split; [constructor|]. split; [intros ? []|constructor]. }
  destruct line as [|it line]; [exact H1|].
  now apply (Hstep (it :: line) y st).
Qed.

(** X20.  With a spacing and size-hint widths that are not negative no two
    items overlap, and more: of any two rectangles [setGeometry] gives out,
    the later one starts a spacing or more to the right of the earlier one's
    right edge, or a spacing or more below its bottom edge. *)
Theorem items_do_not_overlap (self : FlowLayout.layout) (rect : QRect.t)
    (Hspacing : (0 <= FlowLayout.spacing self)%Z)
    (Hwidths : forall item, In item (FlowLayout._item_list self) ->
                 (0 <= QSize.width (QLayoutItem.sizeHint item))%Z) :
  forall before a ra between b rb after,
    FlowLayout.calls (FlowLayout.setGeometry self rect)
    = before ++ (a, ra) :: between ++ (b, rb) :: after ->
    (QRect.x ra + QRect.width ra + FlowLayout.spacing self <= QRect.x rb)%Z \/
    (QRect.y ra + QRect.height ra + FlowLayout.spacing self <= QRect.y rb)%Z.
Proof.
  intros before a ra between b rb after E. unfold FlowLayout.setGeometry in E.
  pose proof (do_layout_apart (FlowLayout.set_geometry self rect) rect Hspacing) as H.
  cbn [FlowLayout._item_list FlowLayout.spacing FlowLayout.set_geometry] in H.
  rewrite E in H. apply (FOP_In (apart (FlowLayout.spacing self))) in H.
  - exact H.
  - apply List.Forall_forall. exact Hwidths.
Qed.

Lemma items_do_not_overlap_witness :
  exists ra rb,
    FlowLayout.calls (FlowLayout.setGeometry scenario_layout scenario_rect)
    = [(scenario_item, ra); (scenario_item, rb)] /\
    ((QRect.x ra + QRect.width ra + FlowLayout.spacing scenario_layout <= QRect.x rb)%Z \/
     (QRect.y ra + QRect.height ra + FlowLayout.spacing scenario_layout <= QRect.y rb)%Z).
Proof.
  assert (Hsp : (0 <= FlowLayout.spacing scenario_layout)%Z) by (vm_compute; discriminate).
  assert (Hw : forall item, In item (FlowLayout._item_list scenario_layout) ->
                 (0 <= QSize.width (QLayoutItem.sizeHint item))%Z).
  { intros item [<-|[<-|[]]]; vm_compute; discriminate. }
  assert (E : FlowLayout.calls (FlowLayout.setGeometry scenario_layout scenario_rect)
              = [(scenario_item, QRect.Make 0 0 30 12); (scenario_item, QRect.Make 0 22 30 12)])
    by (vm_compute; reflexivity).
  exists (QRect.Make 0 0 30 12), (QRect.Make 0 22 30 12). split; [exact E|].
  exact (items_do_not_overlap scenario_layout scenario_rect Hsp Hw
           [] scenario_item (QRect.Make 0 0 30 12) [] scenario_item (QRect.Make 0 22 30 12) [] E).
Defined.

(** ** The minimum size *)

Lemma fold_expanded l : forall s0,
  let s := fold_left (fun size item => QSize.expandedTo size (QLayoutItem.minimumSize item))
             l s0 in
  ((QSize.width s0 <= QSize.width s)%Z /\ (QSize.height s0 <= QSize.height s)%Z) /\
  (forall item, In item l ->
     (QSize.width (QLayoutItem.minimumSize item) <= QSize.width s)%Z /\
     (QSize.height (QLayoutItem.minimumSize item) <= QSize.height s)%Z) /\
  (QSize.width s = QSize.width s0 \/
   exists item, In item l /\ QSize.width s = QSize.width (QLayoutItem.minimumSize item)) /\
  (QSize.height s = QSize.height s0 \/
   exists item, In item l /\ QSize.height s = QSize.height (QLayoutItem.minimumSize item)).
Proof.
  induction l as [|it l IH]; intros s0; cbv zeta.
  - cbn [fold_left]. split; [split; lia|]. split; [intros ? []|]. split; now left.
  - cbn [fold_left]. specialize (IH (QSize.expandedTo s0 (QLayoutItem.minimumSize it))).
    cbv zeta in IH. destruct IH as ((H1 & H2) & H3 & H4 & H5).
    cbn [QSize.expandedTo QSize.width QSize.height] in H1, H2, H4, H5.
    split; [split; lia|]. split; [|split].
    + intros item [<-|Hin]; [lia|now apply H3].
    + destruct H4 as [H4|(item & Hin & H4)].
      * destruct (Z.max_spec (QSize.width s0) (QSize.width (QLayoutItem.minimumSize it)))
          as [[_ E]|[_ E]]; rewrite E in H4.
        -- right. exists it. split; [now left|exact H4].
        -- now left.
      * right. exists item. split; [now right|exact H4].
    + destruct H5 as [H5|(item & Hin & H5)].
      * destruct (Z.max_spec (QSize.height s0) (QSize.height (QLayoutItem.minimumSize it)))
          as [[_ E]|[_ E]]; rewrite E in H5.
        -- right. exists it. split; [now left|exact H5].
        -- now left.
      * right. exists item. split; [now right|exact H5].
Qed.

(** X21.  The minimum size of the layout, which is also its size hint, is
    the largest minimum width and the largest minimum height among the
    items, each taken from -1 upwards, plus the margins: it is not below the
    minimum size of any item plus the margins, and each of the two is -1 or
    attained by an item.  For a layout without items it is the margins less
    one each way, not the margins. *)
Theorem minimum_size_holds_every_item (self : FlowLayout.layout) :
  let s := FlowLayout.minimumSize self in
  let m := FlowLayout.contentsMargins self in
  let dw := (QMargins.left m + QMargins.right m)%Z in
  let dh := (QMargins.top m + QMargins.bottom m)%Z in
  FlowLayout.sizeHint self = s /\
  (forall item, In item (FlowLayout._item_list self) ->
     (QSize.width (QLayoutItem.minimumSize item) + dw <= QSize.width s)%Z /\
     (QSize.height (QLayoutItem.minimumSize item) + dh <= QSize.height s)%Z) /\
  (QSize.width s = (-1 + dw)%Z \/
   exists item, In item (FlowLayout._item_list self) /\
     QSize.width s = (QSize.width (QLayoutItem.minimumSize item) + dw)%Z) /\
  (QSize.height s = (-1 + dh)%Z \/
   exists item, In item (FlowLayout._item_list self) /\
     QSize.height s = (QSize.height (QLayoutItem.minimumSize item) + dh)%Z) /\
  ((-1 + dw <= QSize.width s)%Z /\ (-1 + dh <= QSize.height s)%Z) /\
  (FlowLayout._item_list self = [] -> s = QSize.Make (-1 + dw) (-1 + dh)).
Proof.
  cbv zeta. unfold FlowLayout.sizeHint, FlowLayout.minimumSize.
  pose proof (fold_expanded (FlowLayout._item_list self) QSize.invalid) as H.
  cbv zeta in H. destruct H as ((H1 & H2) & H3 & H4 & H5).
  set (s := fold_left _ _ _) in *.
  cbn [QSize.plus QSize.width QSize.height QSize.invalid] in *.
  split; [reflexivity|]. split; [|split; [|split; [|split]]].
  - intros item Hin. destruct (H3 item Hin). lia.
  - destruct H4 as [H4|(item & Hin & H4)]; [left; lia|right].
    exists item. split; [exact Hin|lia].
  - destruct H5 as [H5|(item & Hin & H5)]; [left; lia|right].
    exists item. split; [exact Hin|lia].
  - lia.
  - intros Hnil. subst s. rewrite Hnil. reflexivity.
Qed.

(** ** Items that fit in one line *)

Lemma layout_loop_one_line rect eff sp ap items : forall line cx y st,
  cx = offset sp line ->
  (forall pre b post, items = pre ++ b :: post -> line ++ pre <> [] ->
     breaks b = false /\ (offset sp (line ++ pre) + hint_width b <= eff)%Z) ->
  FlowLayout.layout_loop rect eff sp ap items line cx y st
  = (line ++ items, offset sp (line ++ items), y, st).
Proof.
  induction items as [|item items IH]; intros line cx y st Hcx H.
  - cbn [FlowLayout.layout_loop]. now rewrite app_nil_r, Hcx.
  - rewrite layout_loop_cons.
    assert ((0 <? List.length line)%nat
            && ((eff <? cx + hint_width item)%Z || breaks item) = false) as ->.
    { destruct line as [|l0 line]; [reflexivity|]. cbn [List.length Nat.ltb Nat.leb andb].
      destruct (H [] item items eq_refl) as [Hb Hfit]; [discriminate|].
      rewrite app_nil_r in Hfit. rewrite Hb, orb_false_r. apply Z.ltb_ge. lia. }
    rewrite IH.
    + now rewrite <- app_assoc.
    + rewrite offset_app, Hcx. cbn [offset]. lia.
    + intros pre b post -> Hne. rewrite <- app_assoc. cbn [app].
      apply (H (item :: pre) b post); [reflexivity|]. now destruct line.
Qed.

(** X22.  Items that fit stay in one line.  When no item but the first
    asks for a new line and every item, put after those before it with a
    spacing between, ends within the width of the rectangle, [setGeometry]
    puts all the items on one baseline, from the left edge of the rectangle
    on, each a spacing after the one before it; it records that one
    baseline, and the height is the baseline, less the top edge, plus the
    deepest descent and one spacing. *)
Theorem items_that_fit_stay_in_one_line (self : FlowLayout.layout) (rect : QRect.t)
    (Hitems : FlowLayout._item_list self <> [])
    (Hfit : forall pre b post,
        FlowLayout._item_list self = pre ++ b :: post -> pre <> [] ->
        py_truthy (FlowLayout.force_break_of b) = false /\
        (offset (FlowLayout.spacing self) pre + QSize.width (QLayoutItem.sizeHint b)
         <= QRect.width rect)%Z) :
  let m := FlowLayout.measure (FlowLayout._item_list self) 0 0 in
  let baseline := FlowLayout.snap self (QRect.y rect) (fst m) in
  let st := FlowLayout.setGeometry self rect in
  fst (FlowLayout._do_layout self rect true)
  = (baseline + snd m + FlowLayout.spacing self - QRect.y rect)%Z /\
  FlowLayout._line_debug_positions (FlowLayout.this st) = [(baseline, QRect.width rect)] /\
  forall pre item post,
    FlowLayout._item_list self = pre ++ item :: post ->
    exists r,
      nth_error (FlowLayout.calls st) (List.length pre) = Some (item, r) /\
      QRect.x r = (QRect.x rect + offset (FlowLayout.spacing self) pre)%Z /\
      (QRect.y r + FlowLayout._get_alignment_point item (QRect.height r))%Z = baseline /\
      QRect.width r = QSize.width (QLayoutItem.sizeHint item) /\
      QRect.height r = QSize.height (QLayoutItem.sizeHint item).
Proof.
  cbv zeta. unfold FlowLayout.setGeometry. rewrite !do_layout_eq. cbv zeta.
  cbn [FlowLayout._item_list FlowLayout.spacing FlowLayout.set_geometry].
  rewrite !layout_loop_one_line; try reflexivity;
    try (intros pre b post E Hne; cbn [app] in Hne |- *; now apply (Hfit pre b post)).
  cbn [fst snd app negb]. rewrite !process_line_cons by exact Hitems. cbv zeta.
  cbn [fst snd FlowLayout.this FlowLayout.calls FlowLayout._line_debug_positions
       FlowLayout.set_line_debug_positions app].
  assert (Hsnap : forall self', same_grid self' self ->
             FlowLayout.snap self' (QRect.y rect)
               (fst (FlowLayout.measure (FlowLayout._item_list self) 0 0))
             = FlowLayout.snap self (QRect.y rect)
                 (fst (FlowLayout.measure (FlowLayout._item_list self) 0 0))).
  { intros self' Hg. now apply snap_same_grid. }
  rewrite !(Hsnap (FlowLayout.set_line_debug_positions (FlowLayout.set_geometry self rect) []))
    by (now split; [|split]).
  rewrite !(Hsnap (FlowLayout.set_line_debug_positions self [])) by (now split; [|split]).
  set (b := FlowLayout.snap self (QRect.y rect)
              (fst (FlowLayout.measure (FlowLayout._item_list self) 0 0))).
  split; [reflexivity|]. split; [reflexivity|].
  intros pre item post E.
  exists (QRect.at_point (QRect.x rect + offset (FlowLayout.spacing self) pre)
            (b - ascent item) (QLayoutItem.sizeHint item)).
  split.
  - rewrite E, place_app. cbn [FlowLayout.place]. fold (ascent item).
    assert (Hlen : List.length (FlowLayout.place pre (QRect.x rect) b (FlowLayout.spacing self))
                   = List.length pre).
    { rewrite <- (place_fst pre (QRect.x rect) b (FlowLayout.spacing self)) at 2.
      now rewrite List.length_map. }
    rewrite nth_error_app2 by lia. rewrite Hlen, Nat.sub_diag. reflexivity.
  - cbn [QRect.at_point QRect.x QRect.y QRect.width QRect.height].
    split; [reflexivity|]. split; [unfold ascent; lia|]. split; reflexivity.
Qed.

Lemma items_that_fit_stay_in_one_line_witness :
  fst (FlowLayout._do_layout scenario_layout (QRect.Make 0 0 70 0) true) = 22%Z.
Proof.
  assert (Hitems : FlowLayout._item_list scenario_layout <> []) by discriminate.
  assert (Hfit : forall pre b post,
             FlowLayout._item_list scenario_layout = pre ++ b :: post -> pre <> [] ->
             py_truthy (FlowLayout.force_break_of b) = false /\
             (offset (FlowLayout.spacing scenario_layout) pre
              + QSize.width (QLayoutItem.sizeHint b)
              <= QRect.width (QRect.Make 0 0 70 0))%Z).
  { intros [|p [|q pre]] b post E Hne; [congruence| |].
    - injection E as <- <- <-. split; [reflexivity|]. vm_compute. discriminate.
    - apply (f_equal (@List.length _)) in E. rewrite List.length_app in E.
      simpl in E. lia. }
  destruct (items_that_fit_stay_in_one_line scenario_layout (QRect.Make 0 0 70 0) Hitems Hfit)
    as (H & _).
  rewrite H. vm_compute. reflexivity.
Defined.

(** ** Moving the rectangle *)

Lemma place_moved line : forall x0 b sp dx dy,
  FlowLayout.place line (x0 + dx) (b + dy) sp
  = map (moved_call dx dy) (FlowLayout.place line x0 b sp).
Proof.
  induction line as [|it line IH]; intros x0 b sp dx dy; [reflexivity|].
  cbn [FlowLayout.place map]. fold (ascent it) (hint_width it). f_equal.
  - unfold moved_call, moved. cbn [fst snd QRect.at_point QRect.x QRect.y QRect.width
                                  QRect.height].
    now replace (b + dy - ascent it)%Z with (b - ascent it + dy)%Z by lia.
  - rewrite <- IH.
    now replace (x0 + dx + hint_width it + sp)%Z with (x0 + hint_width it + sp + dx)%Z by lia.
Qed.

Lemma process_line_moved rect1 rect2 eff sp line y dx dy st1 st2 :
  QRect.x rect2 = (QRect.x rect1 + dx)%Z ->
  dy = 0%Z \/
  FlowLayout.grid_enabled (FlowLayout.this st1)
  && (0 <? FlowLayout.grid_size (FlowLayout.this st1))%Z = false ->
  moved_run dx dy st1 st2 ->
  moved_run dx dy
    (snd (FlowLayout.process_line rect1 eff sp line y false st1))
    (snd (FlowLayout.process_line rect2 eff sp line (y + dy) false st2)).
Proof.
  intros Hx Hd (Hg & Hdbg & Hcalls). destruct line as [|it line].
  { cbn [FlowLayout.process_line snd]. now split; [|split]. }
  rewrite !process_line_cons by discriminate. cbv zeta. cbn [snd].
  set (ma := fst (FlowLayout.measure (it :: line) 0 0)).
  assert (Hb : FlowLayout.snap (FlowLayout.this st2) (y + dy) ma
               = (FlowLayout.snap (FlowLayout.this st1) y ma + dy)%Z).
  { rewrite <- (snap_same_grid _ _ _ _ Hg). destruct Hd as [->|Hoff].
    - now rewrite !Z.add_0_r.
    - rewrite !(snap_off _ _ _ Hoff). lia. }
  rewrite Hb, Hx. split; [|split].
  - cbn [FlowLayout.this]. destruct Hg as (H1 & H2 & H3). now split; [|split].
  - cbn [FlowLayout.this FlowLayout._line_debug_positions FlowLayout.set_line_debug_positions].
    rewrite Hdbg, map_app. reflexivity.
  - cbn [FlowLayout.calls]. now rewrite Hcalls, map_app, place_moved.
Qed.

Lemma layout_loop_moved rect1 rect2 eff sp dx dy items :
  QRect.x rect2 = (QRect.x rect1 + dx)%Z ->
  forall line cx y st1 st2,
    dy = 0%Z \/
    FlowLayout.grid_enabled (FlowLayout.this st1)
    && (0 <? FlowLayout.grid_size (FlowLayout.this st1))%Z = false ->
    moved_run dx dy st1 st2 ->
    match FlowLayout.layout_loop rect1 eff sp true items line cx y st1,
          FlowLayout.layout_loop rect2 eff sp true items line cx (y + dy) st2 with
    | (line1, cx1, y1, st1'), (line2, cx2, y2, st2') =>
        line2 = line1 /\ y2 = (y1 + dy)%Z /\ moved_run dx dy st1' st2' /\
        same_grid (FlowLayout.this st1') (FlowLayout.this st1)
    end.
Proof.
  intros Hx. induction items as [|item items IH]; intros line cx y st1 st2 Hd Hm.
  - cbn [FlowLayout.layout_loop]. repeat split; try reflexivity; apply Hm.
  - rewrite !layout_loop_cons.
    destruct ((0 <? List.length line)%nat
              && ((eff <? cx + hint_width item)%Z || breaks item)); [|now apply IH].
    cbn [negb].
    pose proof (process_line_moved rect1 rect2 eff sp line y dx dy st1 st2 Hx Hd Hm) as Hm'.
    pose proof (process_line_this rect1 eff sp line y false st1) as H1.
    rewrite (process_line_cursor rect1 rect2 eff sp line y dy false false st1 st2)
      by (first [apply Hm|exact Hd]).
    set (p1 := FlowLayout.process_line rect1 eff sp line y false st1) in *.
    set (p2 := FlowLayout.process_line rect2 eff sp line (y + dy) false st2) in *.
    assert (Hd' : dy = 0%Z \/
              FlowLayout.grid_enabled (FlowLayout.this (snd p1))
              && (0 <? FlowLayout.grid_size (FlowLayout.this (snd p1)))%Z = false).
    { destruct Hd as [Hd|Hd]; [now left|right].
      destruct H1 as (E1 & E2 & _). now rewrite E1, E2. }
    specialize (IH [item] (hint_width item + sp)%Z (fst p1) (snd p1) (snd p2) Hd' Hm').
    destruct (FlowLayout.layout_loop rect1 _ _ _ _ _ _ _ _) as [[[l1 c1] y1] s1].
    destruct (FlowLayout.layout_loop rect2 _ _ _ _ _ _ _ _) as [[[l2 c2] y2] s2].
    destruct IH as (E1 & E2 & E3 & E4).
    split; [exact E1|]. split; [exact E2|]. split; [exact E3|].
    exact (same_grid_trans _ _ _ E4 H1).
Qed.

(** X23.  Moving the rectangle moves the items with it.  For a rectangle
    moved sideways by any amount, and up or down by any amount when the grid
    is off (or the grid size is zero or less), [setGeometry] gives every
    item the rectangle it gave it before, moved by the same amounts, and
    records the baselines moved down by the same amount. *)
Theorem moving_the_rectangle_moves_the_items
    (self : FlowLayout.layout) (rect : QRect.t) (dx dy : Z)
    (Hgrid : dy = 0%Z \/ FlowLayout.grid_enabled self = false
             \/ (FlowLayout.grid_size self <= 0)%Z) :
  let st := FlowLayout.setGeometry self rect in
  let st' := FlowLayout.setGeometry self (moved dx dy rect) in
  FlowLayout.calls st'
  = map (fun c => (fst c,
                   QRect.Make (QRect.x (snd c) + dx) (QRect.y (snd c) + dy)
                     (QRect.width (snd c)) (QRect.height (snd c))))
      (FlowLayout.calls st) /\
  FlowLayout._line_debug_positions (FlowLayout.this st')
  = map (fun p => (fst p + dy, snd p)%Z) (FlowLayout._line_debug_positions (FlowLayout.this st)).
Proof.
  cbv zeta. unfold FlowLayout.setGeometry. rewrite !do_layout_eq. cbv zeta.
  cbn [FlowLayout._item_list FlowLayout.spacing FlowLayout.set_geometry snd negb].
  set (s1 := FlowLayout.Run
               (FlowLayout.set_line_debug_positions (FlowLayout.set_geometry self rect) []) []).
  set (s2 := FlowLayout.Run
               (FlowLayout.set_line_debug_positions
                  (FlowLayout.set_geometry self (moved dx dy rect)) []) []).
  assert (Hx : QRect.x (moved dx dy rect) = (QRect.x rect + dx)%Z) by reflexivity.
  assert (Hd : dy = 0%Z \/
             FlowLayout.grid_enabled (FlowLayout.this s1)
             && (0 <? FlowLayout.grid_size (FlowLayout.this s1))%Z = false).
  { cbn [s1 FlowLayout.this FlowLayout.grid_enabled FlowLayout.grid_size
         FlowLayout.set_line_debug_positions FlowLayout.set_geometry].
    destruct Hgrid as [H|[H|H]]; [now left|right; now rewrite H|right].
    apply andb_false_iff. right. now apply Z.ltb_ge. }
  assert (Hm : moved_run dx dy s1 s2).
  { split; [now split; [|split]|]. now split. }
  pose proof (layout_loop_moved rect (moved dx dy rect) (QRect.width rect)
                (FlowLayout.spacing self) dx dy (FlowLayout._item_list self) Hx
                [] 0%Z (QRect.y rect) s1 s2 Hd Hm) as H.
  change (QRect.width (moved dx dy rect)) with (QRect.width rect).
  change (QRect.y (moved dx dy rect)) with (QRect.y rect + dy)%Z.
  destruct (FlowLayout.layout_loop rect _ _ _ _ _ _ _ _) as [[[l1 c1] y1] t1].
  destruct (FlowLayout.layout_loop (moved dx dy rect) _ _ _ _ _ _ _ _) as [[[l2 c2] y2] t2].
  destruct H as (-> & -> & Hm' & Hg). cbn [fst snd].
  assert (Hd' : dy = 0%Z \/
             FlowLayout.grid_enabled (FlowLayout.this t1)
             && (0 <? FlowLayout.grid_size (FlowLayout.this t1))%Z = false).
  { destruct Hd as [Hd|Hd]; [now left|right].
    destruct Hg as (E1 & E2 & _). now rewrite E1, E2. }
  destruct (process_line_moved rect (moved dx dy rect) (QRect.width rect)
              (FlowLayout.spacing self) l1 y1 dx dy t1 t2 Hx Hd' Hm') as (_ & H1 & H2).
  split; [exact H2|exact H1].
Qed.

Lemma moving_the_rectangle_moves_the_items_witness :
  FlowLayout.calls (FlowLayout.setGeometry scenario_layout (moved 7 3 scenario_rect))
  = [(scenario_item, QRect.Make 7 3 30 12); (scenario_item, QRect.Make 7 25 30 12)].
Proof.
  assert (Hgrid : 3%Z = 0%Z \/ FlowLayout.grid_enabled scenario_layout = false
                  \/ (FlowLayout.grid_size scenario_layout <= 0)%Z)
    by (right; left; reflexivity).
  destruct (moving_the_rectangle_moves_the_items scenario_layout scenario_rect 7 3 Hgrid)
    as [H _].
  rewrite H. vm_compute. reflexivity.
Defined.
